(** * py3-utils: the configuration accessor of [configure.py]

    A shallow embedding of [Configure] (src/configure.py) together with the
    part of Python's [configparser.ConfigParser] it drives, as of Python
    3.11: the ordered dictionaries of sections and options,
    [get]/[set]/[items] with basic interpolation, the INI writer and the
    INI reader.

    Conventions of the model
    - Text is [string], a character being a code point below 256; white
      space and case mapping are those Python gives these code points.
    - The disk is a finite map from the paths that exist to the text of
      the regular file there, with the paths that can be opened for
      writing beside it.  A file is read in text mode, where a carriage
      return ends a line as a line feed does.
    - Encoding and decoding are the identity, and the encoding a file was
      opened with for reading is recorded in the event trace.  The code
      writes a file in the encoding of the locale and reads it back as
      UTF-8, which give the same text for ASCII characters; the theorems
      that read back what was written are stated for ASCII names and
      values.
    - A Python call is a function from the world to a result and a world;
      a result is a returned value, a raised exception or a process exit. *)

From Stdlib Require Import ZArith Ascii String List Bool Lia DecimalString.
From Stdlib Require DecimalPos.
From Stdlib Require Import Sorting.Sorted Sorting.Permutation.
From stdpp Require Import gmap strings.

Import ListNotations.
Local Open Scope string_scope.
Local Open Scope list_scope.
Local Open Scope nat_scope.

(** ** Text *)

Module Text.

Definition nl : ascii := "010"%char.
Definition cr : ascii := "013"%char.
Definition tab : ascii := "009"%char.
Definition NL : string := String nl EmptyString.

(** [str.isspace] below code point 256: tab, line feed, vertical tab,
    form feed, carriage return, the four separators 28 to 31, the blank,
    next line (133) and the no-break space (160).  [str.strip] and the
    [\s] of the parser's patterns use the same set. *)
Definition is_space (c : ascii) : bool :=
  let n := nat_of_ascii c in
  ((9 <=? n) && (n <=? 13)) || ((28 <=? n) && (n <=? 32))
  || (n =? 133) || (n =? 160).

Definition eqc (a b : ascii) : bool := Ascii.eqb a b.

Fixpoint lstrip (s : string) : string :=
  match s with
  | String c s' => if is_space c then lstrip s' else s
  | EmptyString => EmptyString
  end.

(** [rstrip] keeps a character when it is not blank or when something
    after it is kept. *)
Fixpoint rstrip (s : string) : string :=
  match s with
  | String c s' =>
      match rstrip s' with
      | EmptyString => if is_space c then EmptyString else String c EmptyString
      | r => String c r
      end
  | EmptyString => EmptyString
  end.

Definition strip (s : string) : string := rstrip (lstrip s).

(** [str.lower] of a character: the capitals A to Z and, from 192 to
    222, every code point but the multiplication sign (215). *)
Definition lower_char (c : ascii) : ascii :=
  let n := nat_of_ascii c in
  if ((65 <=? n) && (n <=? 90))
     || ((192 <=? n) && (n <=? 222) && negb (n =? 215))
  then ascii_of_nat (n + 32) else c.

(** [str.upper] of a character: the small letters a to z and, from 224 to
    254, every code point but the division sign (247); the sharp s (223)
    becomes two letters.  The capitals of the micro sign (181) and of y
    with diaeresis (255) lie beyond code point 255; the two characters
    are left as they are, which no comparison with ASCII text can tell
    from their capitals. *)
Definition upper_char (c : ascii) : string :=
  let n := nat_of_ascii c in
  if ((97 <=? n) && (n <=? 122))
     || ((224 <=? n) && (n <=? 254) && negb (n =? 247))
  then String (ascii_of_nat (n - 32)) EmptyString
  else if n =? 223 then "SS"
  else String c EmptyString.

Fixpoint map_chars (f : ascii -> ascii) (s : string) : string :=
  match s with
  | String c s' => String (f c) (map_chars f s')
  | EmptyString => EmptyString
  end.

Definition lower : string -> string := map_chars lower_char.

Fixpoint upper (s : string) : string :=
  match s with
  | String c s' => upper_char c +:+ upper s'
  | EmptyString => EmptyString
  end.

(** [c in s] for a character. *)
Fixpoint has_char (c : ascii) (s : string) : bool :=
  match s with
  | String a s' => eqc a c || has_char c s'
  | EmptyString => false
  end.

(** [x in s] for strings: [x] occurs in [s] as a substring. *)
Fixpoint contains (x s : string) : bool :=
  String.prefix x s ||
  match s with
  | String _ s' => contains x s'
  | EmptyString => false
  end.

(** Truth value of a string: non-empty. *)
Definition truthy (s : string) : bool :=
  match s with EmptyString => false | _ => true end.

(** What a file opened for reading in text mode delivers (universal
    newlines): a carriage return followed by a line feed, and a carriage
    return alone, are read as one line feed. *)
Fixpoint universal_newlines (s : string) : string :=
  match s with
  | String c s' =>
      if eqc c cr then
        String nl
          match s' with
          | String c' s'' =>
              if eqc c' nl then universal_newlines s''
              else universal_newlines s'
          | EmptyString => EmptyString
          end
      else String c (universal_newlines s')
  | EmptyString => EmptyString
  end.

(** The lines of a text: one item for each line, the line feed that ends
    it left out; a final line need not be terminated. *)
Fixpoint split_lf (s : string) : list string :=
  match s with
  | EmptyString => []
  | String c s' =>
      if eqc c nl then EmptyString :: split_lf s'
      else match split_lf s' with
           | [] => [String c EmptyString]
           | l :: ls => String c l :: ls
           end
  end.

(** Iterating over a file opened in text mode, given the text stored in
    the file. *)
Definition readlines (s : string) : list string :=
  split_lf (universal_newlines s).

(** [sep.join(parts)] *)
Definition join (sep : string) (parts : list string) : string :=
  String.concat sep parts.

(** [s.replace("\n", "\n\t")] *)
Fixpoint indent_newlines (s : string) : string :=
  match s with
  | String c s' =>
      if eqc c nl then String nl (String tab (indent_newlines s'))
      else String c (indent_newlines s')
  | EmptyString => EmptyString
  end.

(** Index of the first non-blank character ([NONSPACECRE.search]),
    0 when there is none. *)
Fixpoint first_nonspace_from (i : nat) (s : string) : nat :=
  match s with
  | String c s' => if is_space c then first_nonspace_from (S i) s' else i
  | EmptyString => 0
  end.

Definition first_nonspace : string -> nat := first_nonspace_from 0.

(** The text before the last occurrence of [c], if [c] occurs. *)
Fixpoint before_last (c : ascii) (s : string) : option string :=
  match s with
  | String a s' =>
      match before_last c s' with
      | Some p => Some (String a p)
      | None => if eqc a c then Some EmptyString else None
      end
  | EmptyString => None
  end.

(** The text before and after the first character satisfying [p]. *)
Fixpoint split_first (p : ascii -> bool) (s : string) : option (string * string) :=
  match s with
  | String a s' =>
      if p a then Some (EmptyString, s')
      else match split_first p s' with
           | Some (l, r) => Some (String a l, r)
           | None => None
           end
  | EmptyString => None
  end.

Definition starts_with_char (c : ascii) (s : string) : bool :=
  match s with
  | String a _ => eqc a c
  | EmptyString => false
  end.

(** [str(n)] for an integer: its decimal numeral.  The digit limit of the
    interpreter, beyond which [str] raises [ValueError] (4300 digits
    unless configured otherwise, never fewer than 640), is not modelled;
    the theorems that print an arbitrary integer bound it. *)
Definition str_int (z : Z) : string := NilZero.string_of_int (Z.to_int z).

(** [str(b)] for a boolean. *)
Definition str_bool (b : bool) : string := if b then "True" else "False".

Definition is_digit (c : ascii) : bool :=
  let n := nat_of_ascii c in (48 <=? n) && (n <=? 57).

(** The digits of an integer literal: decimal digits, single underscores
    allowed between two digits. *)
Fixpoint digits_val (acc : Z) (after_digit : bool) (s : string) : option Z :=
  match s with
  | String c s' =>
      if is_digit c
      then digits_val (10 * acc + Z.of_nat (nat_of_ascii c - 48))%Z true s'
      else if eqc c "_"%char
           then (if after_digit then digits_val acc false s' else None)
           else None
  | EmptyString => if after_digit then Some acc else None
  end.

(** The blanks [int] drops around a literal: those of [str.isspace] but
    the four separators 28 to 31. *)
Definition is_int_space (c : ascii) : bool :=
  let n := nat_of_ascii c in
  is_space c && negb ((28 <=? n) && (n <=? 31)).

Fixpoint lstrip_int (s : string) : string :=
  match s with
  | String c s' => if is_int_space c then lstrip_int s' else s
  | EmptyString => EmptyString
  end.

Fixpoint rstrip_int (s : string) : string :=
  match s with
  | String c s' =>
      match rstrip_int s' with
      | EmptyString =>
          if is_int_space c then EmptyString else String c EmptyString
      | r => String c r
      end
  | EmptyString => EmptyString
  end.

(** [sys.get_int_max_str_digits()] as the interpreter starts: a literal
    of more digits is refused by [int]. *)
Definition int_max_str_digits : N := 4300.

Fixpoint count_digits (s : string) : N :=
  match s with
  | String c s' => ((if is_digit c then 1 else 0) + count_digits s')%N
  | EmptyString => 0%N
  end.

(** [int(s, 10)]: surrounding blanks dropped, an optional sign, digits;
    [None] stands for the [ValueError] of a malformed literal or of one
    with too many digits. *)
Definition parse_int (s : string) : option Z :=
  match rstrip_int (lstrip_int s) with
  | String c r =>
      if (int_max_str_digits <? count_digits (String c r))%N then None
      else if eqc c "-"%char then option_map Z.opp (digits_val 0 false r)
      else if eqc c "+"%char then digits_val 0 false r
      else digits_val 0 false (String c r)
  | EmptyString => None
  end.

End Text.

(** ** Results of Python calls *)

Inductive exn : Type :=
  | NoSectionError | NoOptionError
  | DuplicateSectionError | DuplicateOptionError
  | MissingSectionHeaderError | ParsingError
  | InterpolationSyntaxError | InterpolationMissingOptionError
  | InterpolationDepthError
  | ValueError | TypeError | AttributeError | KeyError
  | JSONDecodeError | EOFError | OSError | RecursionError.

Inductive result (A : Type) : Type :=
  | Ret (a : A)
  | Raise (e : exn)
  | Exit (status : Z).
Arguments Ret {A} a.
Arguments Raise {A} e.
Arguments Exit {A} status.

Definition rbind {A B} (r : result A) (k : A -> result B) : result B :=
  match r with
  | Ret a => k a
  | Raise e => Raise e
  | Exit n => Exit n
  end.

Notation "'let*' x ':=' c 'in' k" := (rbind c (fun x => k))
  (at level 10, x name, c at level 100, k at level 200).

(** ** Insertion-ordered dictionaries *)

Module OrderedDict.
Section Defs.
Context {V : Type}.

Definition t := list (string * V).

Fixpoint get (d : t) (k : string) : option V :=
  match d with
  | (k', v) :: d' => if String.eqb k' k then Some v else get d' k
  | [] => None
  end.

Definition mem (d : t) (k : string) : bool :=
  match get d k with Some _ => true | None => false end.

(** [d[k] = v]: an existing key keeps its place, a new one goes last. *)
Fixpoint set (d : t) (k : string) (v : V) : t :=
  match d with
  | (k', v') :: d' =>
      if String.eqb k' k then (k', v) :: d' else (k', v') :: set d' k v
  | [] => [(k, v)]
  end.

(** [del d[k]] *)
Fixpoint del (d : t) (k : string) : t :=
  match d with
  | (k', v') :: d' => if String.eqb k' k then d' else (k', v') :: del d' k
  | [] => []
  end.

(** [d.update(e)] *)
Definition update (d e : t) : t :=
  fold_left (fun acc kv => set acc (fst kv) (snd kv)) e d.

Definition keys (d : t) : list string := map fst d.

End Defs.
Arguments t : clear implicits.
End OrderedDict.

(** ** [configparser.ConfigParser] *)

Module ConfigParser.
Import Text.

Definition default_section : string := "DEFAULT".
Definition MAX_INTERPOLATION_DEPTH : nat := 10.

(** The parser's data: [_defaults] and [_sections].  While a file is being
    read the values are lists of lines, hence the parameter. *)
Record store (V : Type) : Type := Store {
  defaults : OrderedDict.t V;
  sections : OrderedDict.t (OrderedDict.t V)
}.
Arguments Store {V} _ _.
Arguments defaults {V} _.
Arguments sections {V} _.

Definition t := store string.

(** [ConfigParser()] *)
Definition empty : t := Store [] [].

Definition optionxform (option : string) : string := lower option.

(** [parser.sections()]: the section names, the default section left out. *)
Definition section_names (cfg : t) : list string :=
  OrderedDict.keys (sections cfg).

(** Lookup in [ChainMap(sectiondict, defaults)]. *)
Definition chain_get (sect defs : OrderedDict.t string) (k : string) : option string :=
  match OrderedDict.get sect k with
  | Some v => Some v
  | None => OrderedDict.get defs k
  end.

(** *** Basic interpolation *)

Definition is_percent (c : ascii) : bool := eqc c "%"%char.

(** [_KEYCRE.match(s)] for [%\(([^)]+)\)s]: the name and the text after. *)
Definition keycre_match (s : string) : option (string * string) :=
  match s with
  | String a (String b r) =>
      if eqc a "%"%char && eqc b "("%char then
        match split_first (fun c => eqc c ")"%char) r with
        | Some (name, String c rest) =>
            if truthy name && eqc c "s"%char then Some (name, rest) else None
        | _ => None
        end
      else None
  | _ => None
  end.

(** The [while rest:] loop of [_interpolate_some]; [deeper] is the
    recursive call one level down, [n] bounds the iterations (each one
    consumes a character of [rest]). *)
Fixpoint interpolate_loop (deeper : string -> string -> result string)
    (lookup : string -> option string) (n : nat) (rest accum : string)
    : result string :=
  match n with
  | 0 => Ret accum
  | S n' =>
      if truthy rest then
        match split_first is_percent rest with
        | None => Ret (accum +:+ rest)
        | Some (pre, after) =>
            let accum := accum +:+ pre in
            match after with
            | String c r =>
                if eqc c "%"%char then
                  interpolate_loop deeper lookup n' r (accum +:+ "%")
                else if eqc c "("%char then
                  match keycre_match (String "%"%char after) with
                  | None => Raise InterpolationSyntaxError
                  | Some (name, r') =>
                      match lookup (optionxform name) with
                      | None => Raise InterpolationMissingOptionError
                      | Some v =>
                          if has_char "%"%char v then
                            let* accum' := deeper v accum in
                            interpolate_loop deeper lookup n' r' accum'
                          else interpolate_loop deeper lookup n' r' (accum +:+ v)
                      end
                  end
                else Raise InterpolationSyntaxError
            | EmptyString => Raise InterpolationSyntaxError
            end
        end
      else Ret accum
  end.

(** [_interpolate_some] at a depth with [levels] levels left. *)
Fixpoint interpolate_some (levels : nat) (lookup : string -> option string)
    (rest accum : string) : result string :=
  match levels with
  | 0 => Raise InterpolationDepthError
  | S l =>
      interpolate_loop (interpolate_some l lookup) lookup
        (S (String.length rest)) rest accum
  end.

(** [BasicInterpolation.before_get] *)
Definition before_get (lookup : string -> option string) (value : string)
    : result string :=
  interpolate_some MAX_INTERPOLATION_DEPTH lookup value EmptyString.

(** [value.replace('%%', '')] *)
Fixpoint drop_escaped (s : string) : string :=
  match s with
  | String a s' =>
      match s' with
      | String b s'' =>
          if eqc a "%"%char && eqc b "%"%char then drop_escaped s''
          else String a (drop_escaped s')
      | EmptyString => String a EmptyString
      end
  | EmptyString => EmptyString
  end.

(** [_KEYCRE.sub('', s)] *)
Fixpoint keycre_sub (n : nat) (s : string) : string :=
  match n with
  | 0 => s
  | S n' =>
      match s with
      | String a s' =>
          match keycre_match s with
          | Some (_, rest) => keycre_sub n' rest
          | None => String a (keycre_sub n' s')
          end
      | EmptyString => EmptyString
      end
  end.

(** [BasicInterpolation.before_set] *)
Definition before_set (value : string) : result string :=
  let tmp_value := drop_escaped value in
  let tmp_value := keycre_sub (String.length tmp_value) tmp_value in
  if has_char "%"%char tmp_value then Raise ValueError else Ret value.

(** *** Accessors *)

(** [parser.get(section, option)] *)
Definition get (cfg : t) (section option : string) : result string :=
  let* sectiondict :=
    match OrderedDict.get (sections cfg) section with
    | Some d => Ret d
    | None =>
        if String.eqb section default_section then Ret []
        else Raise NoSectionError
    end in
  let option := optionxform option in
  match chain_get sectiondict (defaults cfg) option with
  | None => Raise NoOptionError
  | Some value => before_get (chain_get sectiondict (defaults cfg)) value
  end.

(** [parser.set(section, option, value)] *)
Definition set (cfg : t) (section option value : string) : result t :=
  let* value := (if truthy value then before_set value else Ret value) in
  if negb (truthy section) || String.eqb section default_section then
    Ret (Store (OrderedDict.set (defaults cfg) (optionxform option) value)
               (sections cfg))
  else
    match OrderedDict.get (sections cfg) section with
    | None => Raise NoSectionError
    | Some sectdict =>
        Ret (Store (defaults cfg)
               (OrderedDict.set (sections cfg) section
                  (OrderedDict.set sectdict (optionxform option) value)))
    end.

(** [parser.add_section(section)] *)
Definition add_section (cfg : t) (section : string) : result t :=
  if String.eqb section default_section then Raise ValueError
  else if OrderedDict.mem (sections cfg) section then Raise DuplicateSectionError
  else Ret (Store (defaults cfg) (OrderedDict.set (sections cfg) section [])).

(** [parser.remove_option(section, option)]: whether the option existed,
    and the parser afterwards. *)
Definition remove_option (cfg : t) (section option : string) : result (bool * t) :=
  if negb (truthy section) || String.eqb section default_section then
    let option := optionxform option in
    let existed := OrderedDict.mem (defaults cfg) option in
    Ret (existed,
         if existed
         then Store (OrderedDict.del (defaults cfg) option) (sections cfg)
         else cfg)
  else
    match OrderedDict.get (sections cfg) section with
    | None => Raise NoSectionError
    | Some sectdict =>
        let option := optionxform option in
        let existed := OrderedDict.mem sectdict option in
        Ret (existed,
             if existed
             then Store (defaults cfg)
                    (OrderedDict.set (sections cfg) section
                       (OrderedDict.del sectdict option))
             else cfg)
    end.

(** Evaluate the value of each key in order, stopping at the first
    exception (a list comprehension). *)
Fixpoint map_result {A B} (f : A -> result B) (l : list A) : result (list B) :=
  match l with
  | [] => Ret []
  | a :: l' =>
      let* b := f a in
      let* bs := map_result f l' in
      Ret (b :: bs)
  end.

(** [parser.items(section)]: the defaults overlaid with the section,
    every value interpolated. *)
Definition items (cfg : t) (section : string) : result (list (string * string)) :=
  let* d :=
    match OrderedDict.get (sections cfg) section with
    | Some sectdict => Ret (OrderedDict.update (defaults cfg) sectdict)
    | None =>
        if String.eqb section default_section then Ret (defaults cfg)
        else Raise NoSectionError
    end in
  map_result
    (fun kv => let* v := before_get (OrderedDict.get d) (snd kv) in
               Ret (fst kv, v))
    d.

(** *** The writer *)

(** One [key = value] line of [_write_section]. *)
Definition write_item (kv : string * string) : string :=
  fst kv +:+ " = " +:+ indent_newlines (snd kv) +:+ NL.

(** [_write_section] *)
Definition write_section (name : string) (d : OrderedDict.t string) : string :=
  "[" +:+ name +:+ "]" +:+ NL +:+ String.concat EmptyString (map write_item d) +:+ NL.

(** [parser.write(fp)]: the text written to the file. *)
Definition write (cfg : t) : string :=
  (if match defaults cfg with [] => false | _ => true end
   then write_section default_section (defaults cfg) else EmptyString)
  +:+ String.concat EmptyString
        (map (fun sd => write_section (fst sd) (snd sd)) (sections cfg)).

(** *** The reader *)

(** A value while a file is read: a string from before the read, or the
    lines collected for an option of the file. *)
Inductive pval : Type :=
  | PStr (s : string)
  | PList (l : list string).

(** The dictionary [cursect] refers to. *)
Inductive cursor : Type :=
  | InDefaults
  | InSection (name : string).

(** The local variables of [_read]. *)
Record pstate : Type := PState {
  p_store : store pval;
  p_cursect : option cursor;
  p_optname : option string;
  p_indent : nat;
  p_added_sections : list string;
  p_added_options : list (string * string);
  p_error : bool
}.

Definition sectname_of (c : cursor) : string :=
  match c with InDefaults => default_section | InSection n => n end.

Definition cur_dict (st : store pval) (c : cursor) : OrderedDict.t pval :=
  match c with
  | InDefaults => defaults st
  | InSection n =>
      match OrderedDict.get (sections st) n with Some d => d | None => [] end
  end.

Definition cur_set (st : store pval) (c : cursor) (k : string) (v : pval)
    : store pval :=
  match c with
  | InDefaults => Store (OrderedDict.set (defaults st) k v) (sections st)
  | InSection n =>
      Store (defaults st)
        (OrderedDict.set (sections st) n (OrderedDict.set (cur_dict st c) k v))
  end.

(** [cursect[optname].append(value)] *)
Definition cur_append (st : store pval) (c : cursor) (k value : string)
    : result (store pval) :=
  match OrderedDict.get (cur_dict st c) k with
  | Some (PList l) => Ret (cur_set st c k (PList (l ++ [value])))
  | Some (PStr _) => Raise AttributeError
  | None => Raise KeyError
  end.

Definition is_comment (line : string) : bool :=
  let v := strip line in
  starts_with_char "#"%char v || starts_with_char ";"%char v.

(** [SECTCRE.match(value)] for [\[(?P<header>.+)\]]. *)
Definition sect_header (value : string) : option string :=
  match value with
  | String c r =>
      if eqc c "["%char then
        match before_last "]"%char r with
        | Some h => if truthy h then Some h else None
        | None => None
        end
      else None
  | EmptyString => None
  end.

Definition is_delimiter (c : ascii) : bool :=
  eqc c "="%char || eqc c ":"%char.

(** [_optcre.match(value)]: the groups [option] and [value]. *)
Definition opt_match (value : string) : option (string * string) :=
  match split_first is_delimiter value with
  | Some (o, v) => Some (rstrip o, lstrip v)
  | None => None
  end.

Definition in_strings (x : string) (l : list string) : bool :=
  existsb (String.eqb x) l.

Definition in_pairs (x : string * string) (l : list (string * string)) : bool :=
  existsb (fun y => String.eqb (fst x) (fst y) && String.eqb (snd x) (snd y)) l.

Definition opt_truthy (o : option string) : option string :=
  match o with
  | Some k => if truthy k then Some k else None
  | None => None
  end.

(** A line that is not blank, not a comment and not a continuation: a
    section header or an option (strict mode). *)
Definition read_entry (ps : pstate) (value : string) (cur_indent_level : nat)
    : result pstate :=
  match sect_header value with
  | Some sectname =>
      if OrderedDict.mem (sections (p_store ps)) sectname then
        if in_strings sectname (p_added_sections ps)
        then Raise DuplicateSectionError
        else Ret (PState (p_store ps) (Some (InSection sectname)) None
                    cur_indent_level
                    (sectname :: p_added_sections ps)
                    (p_added_options ps) (p_error ps))
      else if String.eqb sectname default_section then
        Ret (PState (p_store ps) (Some InDefaults) None cur_indent_level
               (p_added_sections ps) (p_added_options ps) (p_error ps))
      else
        Ret (PState
               (Store (defaults (p_store ps))
                  (OrderedDict.set (sections (p_store ps)) sectname []))
               (Some (InSection sectname)) None cur_indent_level
               (sectname :: p_added_sections ps)
               (p_added_options ps) (p_error ps))
  | None =>
      match p_cursect ps with
      | None => Raise MissingSectionHeaderError
      | Some c =>
          match opt_match value with
          | Some (o, optval) =>
              let e := p_error ps || negb (truthy o) in
              let optname := optionxform (rstrip o) in
              if in_pairs (sectname_of c, optname) (p_added_options ps)
              then Raise DuplicateOptionError
              else
                Ret (PState
                       (cur_set (p_store ps) c optname
                          (PList [strip optval]))
                       (Some c) (Some optname) cur_indent_level
                       (p_added_sections ps)
                       ((sectname_of c, optname) :: p_added_options ps)
                       e)
          | None =>
              Ret (PState (p_store ps) (Some c) (p_optname ps)
                     cur_indent_level (p_added_sections ps)
                     (p_added_options ps) true)
          end
      end
  end.

(** The body of the loop over the lines of the file (no inline comments,
    empty lines allowed in values). *)
Definition read_line (ps : pstate) (line : string) : result pstate :=
  let comment := is_comment line in
  let value := if comment then EmptyString else strip line in
  if negb (truthy value) then
    match negb comment, p_cursect ps, opt_truthy (p_optname ps) with
    | true, Some c, Some k =>
        let* st := cur_append (p_store ps) c k EmptyString in
        Ret (PState st (p_cursect ps) (p_optname ps) (p_indent ps)
               (p_added_sections ps) (p_added_options ps) (p_error ps))
    | _, _, _ => Ret ps
    end
  else
    let cur_indent_level := first_nonspace line in
    match p_cursect ps, opt_truthy (p_optname ps),
          p_indent ps <? cur_indent_level with
    | Some c, Some k, true =>
        let* st := cur_append (p_store ps) c k value in
        Ret (PState st (p_cursect ps) (p_optname ps) (p_indent ps)
               (p_added_sections ps) (p_added_options ps) (p_error ps))
    | _, _, _ => read_entry ps value cur_indent_level
    end.

Fixpoint read_lines (ps : pstate) (lines : list string) : result pstate :=
  match lines with
  | [] => Ret ps
  | line :: rest =>
      let* ps' := read_line ps line in
      read_lines ps' rest
  end.

Definition to_pval (d : OrderedDict.t string) : OrderedDict.t pval :=
  map (fun kv => (fst kv, PStr (snd kv))) d.

(** One value of [_join_multiline_values]. *)
Definition join_value (v : pval) : string :=
  match v with
  | PStr s => s
  | PList l => rstrip (join NL l)
  end.

Definition join_dict (d : OrderedDict.t pval) : OrderedDict.t string :=
  map (fun kv => (fst kv, join_value (snd kv))) d.

Definition join_multiline_values (st : store pval) : t :=
  Store (join_dict (defaults st))
        (map (fun sd => (fst sd, join_dict (snd sd))) (sections st)).

Definition start_state (cfg : t) : pstate :=
  PState (Store (to_pval (defaults cfg))
                (map (fun sd => (fst sd, to_pval (snd sd))) (sections cfg)))
         None None 0 [] [] false.

(** [parser._read(fp, fpname)] for a file opened in text mode, given the
    text stored in the file: the parser after the read.  What an
    exception leaves behind in the parser is not modelled. *)
Definition read_text (cfg : t) (text : string) : result t :=
  let* ps := read_lines (start_state cfg) (readlines text) in
  if p_error ps then Raise ParsingError
  else Ret (join_multiline_values (p_store ps)).

End ConfigParser.

(** ** The world: the accessor object, the disk, the console *)

Inductive level : Type := DEBUG | INFO | WARNING | ERROR.

Inductive event : Type :=
  | Log (lv : level) (msg : string)
  | OpenRead (path encoding : string)
  | OpenWrite (path : string)
  | Input (prompt : string).

(** [fs] maps the paths that exist to the text of the file there;
    [writable] tells the paths [open(path, 'w')] succeeds on (a path that
    is empty, in a missing directory or closed to the process is not
    one). *)
Record world : Type := World {
  _config : ConfigParser.t;
  configure_path : string;
  fs : gmap string string;
  writable : string -> bool;
  stdin : list string;
  trace : list event
}.

Definition M (A : Type) : Type := world -> result A * world.

Definition ret {A} (a : A) : M A := fun w => (Ret a, w).
Definition raise {A} (e : exn) : M A := fun w => (Raise e, w).
Definition exit {A} (status : Z) : M A := fun w => (Exit status, w).

Definition bind {A B} (c : M A) (k : A -> M B) : M B :=
  fun w =>
    match c w with
    | (Ret a, w') => k a w'
    | (Raise e, w') => (Raise e, w')
    | (Exit n, w') => (Exit n, w')
    end.

Notation "'do' x <- c ; k" := (bind c (fun x => k))
  (at level 10, x name, c at level 100, k at level 200).
Notation "c ;; k" := (bind c (fun _ => k))
  (at level 100, k at level 200, right associativity).

(** [try: c except <the exceptions h handles>: h] *)
Definition try_except {A} (c : M A) (h : exn -> option (M A)) : M A :=
  fun w =>
    match c w with
    | (Raise e, w') =>
        match h e with
        | Some handler => handler w'
        | None => (Raise e, w')
        end
    | r => r
    end.

(** A call of the parser that does not change it. *)
Definition lift {A} (f : ConfigParser.t -> result A) : M A :=
  fun w => (f (_config w), w).

(** A call of the parser that changes it when it returns. *)
Definition update (f : ConfigParser.t -> result ConfigParser.t) : M unit :=
  fun w =>
    match f (_config w) with
    | Ret cfg => (Ret tt, World cfg (configure_path w) (fs w) (writable w)
                            (stdin w) (trace w))
    | Raise e => (Raise e, w)
    | Exit n => (Exit n, w)
    end.

Definition emit (e : event) : M unit :=
  fun w => (Ret tt, World (_config w) (configure_path w) (fs w) (writable w)
                      (stdin w) (trace w ++ [e])).

Definition log (lv : level) (msg : string) : M unit := emit (Log lv msg).

(** [os.path.exists(path)] *)
Definition path_exists (path : string) : M bool :=
  fun w => (Ret (bool_decide (is_Some (fs w !! path))), w).

(** [with open(path, 'w') as f: f.write(text)]: where the path cannot be
    opened for writing [open] raises [OSError] ([FileNotFoundError],
    [IsADirectoryError], [PermissionError]) and nothing is written. *)
Definition write_file (path text : string) : M unit :=
  fun w =>
    if writable w path then
      (Ret tt, World (_config w) (configure_path w)
                 (<[path := text]> (fs w)) (writable w) (stdin w)
                 (trace w ++ [OpenWrite path]))
    else (Raise OSError, w).

Definition self_path : M string := fun w => (Ret (configure_path w), w).

(** [str(x)] and [format] of an optional string. *)
Definition str_opt (o : option string) : string :=
  match o with Some s => s | None => "None" end.

(** [parser.read(path, encoding)]: a file that cannot be opened is
    skipped; the text of the file is merged into the parser. *)
Definition parser_read (path encoding : string) : M unit :=
  fun w =>
    match fs w !! path with
    | None => (Ret tt, w)
    | Some text =>
        (emit (OpenRead path encoding) ;;
         update (fun cfg => ConfigParser.read_text cfg text)) w
    end.

(** Stable sort of items by key ([sorted(..., key=lambda x: x[0])]). *)
Fixpoint insert_item (x : string * string) (l : list (string * string))
    : list (string * string) :=
  match l with
  | y :: l' => if String.leb (fst x) (fst y) then x :: y :: l'
               else y :: insert_item x l'
  | [] => [x]
  end.

Fixpoint sorted (l : list (string * string)) : list (string * string) :=
  match l with
  | x :: l' => insert_item x (sorted l')
  | [] => []
  end.

(** ** [class Configure] *)

Module Configure.
Import Text.

(** [YES_NO_VALIDATOR] *)
Definition YES_NO_VALIDATOR (_i : string) : bool :=
  (String.length _i =? 1) && contains _i "YyNn".

(** The loop of [_prompt] over the lines the operator types; reading
    past the last line raises [EOFError]. *)
Fixpoint prompt_loop (prompt : string) (validator : string -> bool)
    (default : option string) (inputs : list string) (tr : list event)
    : result string * list string * list event :=
  match inputs with
  | [] => (Raise EOFError, [], tr ++ [Input prompt])
  | _input :: rest =>
      let tr := tr ++ [Input prompt] in
      if negb (truthy _input) then
        match default with
        | Some d => (Ret d, rest, tr)
        | None => prompt_loop prompt validator default rest tr
        end
      else if validator _input then (Ret _input, rest, tr)
      else prompt_loop prompt validator default rest tr
  end.

Definition _prompt (prompt : string) (validator : string -> bool)
    (default : option string) : M string :=
  fun w =>
    let '(r, rest, tr) :=
      prompt_loop prompt validator default (stdin w) (trace w) in
    (r, World (_config w) (configure_path w) (fs w) (writable w) rest tr).

Definition export (path : string) (force : bool) : M bool :=
  do there <- path_exists path;
  if there && negb force then
    log ERROR "{} is already exist." ;;
    ret false
  else
    do text <- lift (fun cfg => Ret (ConfigParser.write cfg));
    write_file path text ;;
    log DEBUG "Save successful!" ;;
    ret true.

Definition _reload (encoding : string) (force_quit : bool) : M unit :=
  do path <- self_path;
  do there <- path_exists path;
  if there then parser_read path encoding
  else if force_quit then
    log ERROR (path +:+ " is not exist. Plz make it first.") ;;
    exit 1%Z
  else
    do _i <- _prompt (path +:+ " is not exist. Create it? [Y/n]")
               YES_NO_VALIDATOR (Some "y");
    if contains _i "Yy" then
      do _ <- export path false; ret tt
    else ret tt.

(** [Configure(configure_path, encoding)] on a world: a fresh parser, the
    path, then the first load. *)
Definition __init__ (path encoding : string) : M unit :=
  fun w =>
    _reload encoding false
      (World ConfigParser.empty path (fs w) (writable w) (stdin w) (trace w)).

(** The loop over the sorted items of one section in [_save]. *)
Fixpoint resort (section : string) (kvs : list (string * string)) : M unit :=
  match kvs with
  | [] => ret tt
  | (k, v) :: rest =>
      do _ <- (fun w =>
                 match ConfigParser.remove_option (_config w) section k with
                 | Ret (_, cfg) =>
                     (Ret tt, World cfg (configure_path w) (fs w)
                                (writable w) (stdin w) (trace w))
                 | Raise e => (Raise e, w)
                 | Exit n => (Exit n, w)
                 end);
      update (fun cfg => ConfigParser.set cfg section k v) ;;
      resort section rest
  end.

Fixpoint save_sections (names : list string) : M unit :=
  match names with
  | [] => ret tt
  | section :: rest =>
      do kvs <- lift (fun cfg => ConfigParser.items cfg section);
      resort section (sorted kvs) ;;
      save_sections rest
  end.

Definition _save : M unit :=
  do names <- lift (fun cfg => Ret (ConfigParser.section_names cfg));
  save_sections names ;;
  do path <- self_path;
  do text <- lift (fun cfg => Ret (ConfigParser.write cfg));
  write_file path text.

Definition absent (e : exn) : bool :=
  match e with NoSectionError | NoOptionError => true | _ => false end.

Definition _read_conf (section key : string) (default_val : option string)
    (required : bool) : M (option string) :=
  _reload "UTF-8" true ;;
  if negb (truthy section) || negb (truthy key) then
    log ERROR "Plz specify section/key name!" ;;
    ret None
  else
    do found <-
      try_except
        (do v <- lift (fun cfg => ConfigParser.get cfg section key);
         ret (Some v))
        (fun e =>
           match e with
           | NoSectionError =>
               Some (log ERROR ("no section named " +:+ section +:+ ".") ;;
                     ret None)
           | NoOptionError =>
               Some (log ERROR ("no value for " +:+ section +:+ "." +:+ key) ;;
                     ret None)
           | _ => None
           end);
    match found with
    | Some v => ret (Some v)
    | None =>
        if required && negb (bool_decide (is_Some default_val)) then
          log ERROR "this field cannot to be set None" ;;
          ret None
        else
          log INFO ("use default value: " +:+ str_opt default_val +:+ ".") ;;
          ret default_val
    end.

Definition write (section key value : string) (store : bool) : M unit :=
  _reload "UTF-8" true ;;
  (if negb (truthy section) || negb (truthy key) then
     log ERROR "Plz specify section/key name!" ;;
     exit 1%Z
   else ret tt) ;;
  try_except
    (update (fun cfg => ConfigParser.set cfg section key value))
    (fun e =>
       match e with
       | NoSectionError =>
           Some (log WARNING
                   ("No section named " +:+ section +:+ ". Create new one.") ;;
                 update (fun cfg => ConfigParser.add_section cfg section) ;;
                 update (fun cfg => ConfigParser.set cfg section key value))
       | _ => None
       end) ;;
  log INFO ("Set value: " +:+ section +:+ "." +:+ key +:+ " = " +:+ value
            +:+ ".") ;;
  if store then _save else ret tt.

(** The tail shared by the readers: when the key is not in the parser and
    a value was resolved, write it. *)
Definition store_if_absent (section key : string) (value : option string)
    : M unit :=
  try_except
    (do _ <- lift (fun cfg => ConfigParser.get cfg section key); ret tt)
    (fun e =>
       if absent e then
         Some (match value with
               | Some v => write section key v true
               | None => ret tt
               end)
       else None).

Definition read (section key : string) (default_val : option string)
    (required : bool) : M (option string) :=
  do value <- _read_conf section key default_val required;
  store_if_absent section key value ;;
  ret value.

Definition quoted (s : string) : string :=
  let q := String (ascii_of_nat 34) EmptyString in q +:+ s +:+ q.

Definition type_warning (ty section key : string) (value : option string)
    : M unit :=
  log WARNING ("value type for " +:+ section +:+ "." +:+ key
               +:+ " is not " +:+ quoted ty +:+ " (value = "
               +:+ str_opt value +:+ ").").

Definition read_bool (section key : string) (default_val : option bool)
    (required : bool) : M (option bool) :=
  do value <- _read_conf section key
                (Some (match default_val with
                       | Some b => str_bool b
                       | None => "None"
                       end)) required;
  do value_b <-
    match value with
    | None => type_warning "bool" section key value ;; ret default_val
    | Some v =>
        let _v := upper v in
        if String.eqb _v "TRUE" || String.eqb _v "FALSE"
        then ret (Some (String.eqb _v "TRUE"))
        else type_warning "bool" section key value ;; ret default_val
    end;
  store_if_absent section key (option_map str_bool value_b) ;;
  ret value_b.

Definition read_int (section key : string) (default_val : option Z)
    (required : bool) : M (option Z) :=
  do value <- _read_conf section key
                (Some (match default_val with
                       | Some n => str_int n
                       | None => "None"
                       end)) required;
  do value_i <-
    match value with
    | None => raise TypeError
    | Some v =>
        match parse_int v with
        | Some n => ret (Some n)
        | None => type_warning "int" section key value ;; ret default_val
        end
    end;
  store_if_absent section key (option_map str_int value_i) ;;
  ret value_i.

Section Parsers.

(** Python's floats and JSON values are not modelled: the readers are
    given the parsing and printing functions.  [None] from [float] stands
    for its [ValueError]; [json.loads] returns a value or raises
    ([JSONDecodeError] on text that is not JSON, [RecursionError] or
    [ValueError] on text that is too deep or holds too long a number). *)
Context {F J : Type}.
Variable float_of_str : string -> option F.
Variable str_float : F -> string.
Variable json_loads : string -> result J.

Definition read_float (section key : string) (default_val : option F)
    (required : bool) : M (option F) :=
  do value <- _read_conf section key
                (Some (match default_val with
                       | Some x => str_float x
                       | None => "None"
                       end)) required;
  do value_f <-
    match value with
    | None => raise TypeError
    | Some v =>
        match float_of_str v with
        | Some x => ret (Some x)
        | None => type_warning "float" section key value ;; ret default_val
        end
    end;
  store_if_absent section key (option_map str_float value_f) ;;
  ret value_f.

Definition read_json (section key : string) : M (option J) :=
  do ret_ <- _read_conf section key None true;
  match ret_ with
  | None => raise TypeError
  | Some v =>
      try_except
        (do j <- lift (fun _ => json_loads v); ret (Some j))
        (fun e =>
           match e with
           | JSONDecodeError =>
               Some (log WARNING
                       ("Value type for " +:+ section +:+ "." +:+ key
                        +:+ " is not " +:+ quoted "json" +:+ " (value = "
                        +:+ v +:+ ").") ;;
                     ret None)
           | _ => None
           end)
  end.

End Parsers.

End Configure.

(** ** Vocabulary of the statements *)

Section Vocabulary.
Import Text ConfigParser.

(** The world after logging that the file is missing. *)
Definition missing_logged (w : world) : world :=
  World (_config w) (configure_path w) (fs w) (writable w) (stdin w)
    (trace w ++ [Log ERROR (configure_path w
                            +:+ " is not exist. Plz make it first.")]).

(** A disk of one directory, the current one: every path but the empty
    one can be opened for writing. *)
Definition named (path : string) : bool := Text.truthy path.

Definition empty_world (path : string) : world :=
  World ConfigParser.empty path ∅ named [] [].

Definition disk_with (path text : string) : world :=
  World ConfigParser.empty path {[ path := text ]} named [] [].

(** The key is absent from the parser: [get] raises [NoSectionError] or
    [NoOptionError]. *)
Definition absent_from (cfg : ConfigParser.t) (section key : string) : Prop :=
  exists e, ConfigParser.get cfg section key = Raise e /\
            Configure.absent e = true.

(** Worlds that differ by console output only. *)
Definition same_store (w1 w2 : world) : Prop :=
  _config w2 = _config w1 /\ configure_path w2 = configure_path w1 /\
  fs w2 = fs w1 /\ stdin w2 = stdin w1 /\ writable w2 = writable w1.

Definition create_question (path : string) : string :=
  path +:+ " is not exist. Create it? [Y/n]".

(** What the operator ends up answering to the question of the
    constructor, given the lines typed on the console. *)
Definition answer (path : string) (w : world) : result string :=
  fst (fst (Configure.prompt_loop (create_question path)
              Configure.YES_NO_VALIDATOR (Some "y") (stdin w) (trace w))).

Definition console (lines : list string) : world :=
  World ConfigParser.empty EmptyString ∅ named lines [].

Definition utf8_read (e : event) : Prop :=
  match e with
  | OpenRead _ encoding => encoding = "UTF-8"
  | _ => True
  end.

(** Every file the computation opens for reading is decoded as UTF-8. *)
Definition reads_utf8 {A} (c : M A) : Prop :=
  forall w, exists new,
    trace (snd (c w)) = trace w ++ new /\ Forall utf8_read new.


(** One turn of the inner loop of [_save] on the dictionary of the
    section: remove the option, set it again. *)
Definition resort_step (d : OrderedDict.t string) (kv : string * string)
    : OrderedDict.t string :=
  OrderedDict.set (OrderedDict.del d (fst kv)) (fst kv) (snd kv).

(** A name of an ordinary section: not empty, not the default section. *)
Definition plain_section (s : string) : Prop :=
  s <> EmptyString /\ s <> ConfigParser.default_section.

Definition with_config (w : world) (cfg : ConfigParser.t) : world :=
  World cfg (configure_path w) (fs w) (writable w) (stdin w) (trace w).

Definition is_lower (k : string) : Prop := Text.lower k = k.

(** A dictionary of options: the keys are distinct and in the form
    [optionxform] gives them. *)
Definition wf_dict {V} (d : OrderedDict.t V) : Prop :=
  List.NoDup (OrderedDict.keys d) /\ Forall is_lower (OrderedDict.keys d).

(** A dictionary none of whose values holds an interpolation sign. *)
Definition plain_values (d : OrderedDict.t string) : Prop :=
  Forall (fun kv => Text.has_char "%"%char (snd kv) = false) d.

Definition plain_dict (d : OrderedDict.t string) : Prop :=
  wf_dict d /\ plain_values d.

(** A well-formed parser without interpolation signs: [items] gives the
    values as they are stored and [set] accepts them. *)
Definition plain_parser (cfg : ConfigParser.t) : Prop :=
  plain_dict (ConfigParser.defaults cfg) /\
  List.NoDup (OrderedDict.keys (ConfigParser.sections cfg)) /\
  Forall (fun sd => plain_section (fst sd) /\ plain_dict (snd sd))
    (ConfigParser.sections cfg).

(** The text of a file given line by line. *)
Definition text_of (lines : list string) : string :=
  String.concat EmptyString (map (fun l => l +:+ Text.NL) lines).


(** Every character of the string satisfies [p]. *)
Fixpoint all_chars (p : ascii -> bool) (s : string) : bool :=
  match s with
  | String c s' => p c && all_chars p s'
  | EmptyString => true
  end.

Definition is_ascii (c : ascii) : bool := nat_of_ascii c <? 128.

(** A value the file keeps as it is: ASCII text (the same in the encoding
    the file is written in and in the one it is read in) of one line (no
    line feed, no carriage return), no surrounding blanks, no
    interpolation sign. *)
Definition clean_valueb (v : string) : bool :=
  negb (has_char nl v) && negb (has_char cr v) && negb (has_char "%"%char v)
  && String.eqb (lstrip v) v && String.eqb (rstrip v) v
  && all_chars is_ascii v.

(** A key as the parser stores it: ASCII text, not empty, lower case, one
    line, no delimiter, no surrounding blanks, not starting a comment or a
    header. *)
Definition clean_keyb (k : string) : bool :=
  truthy k && String.eqb (lower k) k && negb (has_char nl k)
  && negb (has_char cr k)
  && negb (has_char "="%char k) && negb (has_char ":"%char k)
  && String.eqb (lstrip k) k && String.eqb (rstrip k) k
  && negb (starts_with_char "#"%char k) && negb (starts_with_char ";"%char k)
  && negb (starts_with_char "["%char k) && all_chars is_ascii k.

(** A section name: ASCII text, not empty, not [DEFAULT], one line. *)
Definition clean_sectionb (s : string) : bool :=
  truthy s && negb (String.eqb s ConfigParser.default_section)
  && negb (has_char nl s) && negb (has_char cr s) && all_chars is_ascii s.

Definition clean_value (v : string) : Prop := clean_valueb v = true.

Definition clean_key (k : string) : Prop := clean_keyb k = true.

Definition clean_section (s : string) : Prop := clean_sectionb s = true.

Definition clean_dict (d : OrderedDict.t string) : Prop :=
  List.NoDup (OrderedDict.keys d) /\
  Forall (fun kv => clean_key (fst kv) /\ clean_value (snd kv)) d.

Definition clean_parser (cfg : ConfigParser.t) : Prop :=
  clean_dict (ConfigParser.defaults cfg) /\
  List.NoDup (OrderedDict.keys (ConfigParser.sections cfg)) /\
  Forall (fun sd => clean_section (fst sd) /\ clean_dict (snd sd))
    (ConfigParser.sections cfg).

Definition header_line (s : string) : string := "[" +:+ s +:+ "]".

Definition item_line (kv : string * string) : string :=
  fst kv +:+ " = " +:+ snd kv.

(** Same keys in the same order, related values. *)
Definition rel_dict {V W : Type} (R : V -> W -> Prop)
    (pd : OrderedDict.t V) (d : OrderedDict.t W) : Prop :=
  Forall2 (fun x y => fst x = fst y /\ R (snd x) (snd y)) pd d.

(** A value during a read stands for the string [v]: untouched, read
    from an option line, or followed by the blank line ending a section. *)
Definition val_rep (pv : pval) (v : string) : Prop :=
  pv = PStr v \/ pv = PList [v] \/ pv = PList [v; EmptyString].

Definition dict_rep : OrderedDict.t pval -> OrderedDict.t string -> Prop :=
  rel_dict val_rep.

Definition store_rep (st : store pval) (cfg : t) : Prop :=
  dict_rep (defaults st) (defaults cfg) /\
  rel_dict dict_rep (sections st) (sections cfg).

(** The dictionary of the parser a cursor points to. *)
Definition cfg_dict (cfg : t) (c : cursor) : option (OrderedDict.t string) :=
  match c with
  | InDefaults => Some (defaults cfg)
  | InSection n => OrderedDict.get (sections cfg) n
  end.

(** The option read last is in the parser with the one line read for it. *)
Definition opt_ok (ps : pstate) (c : cursor) (d : OrderedDict.t string) : Prop :=
  match p_optname ps with
  | None => True
  | Some k =>
      k <> EmptyString /\
      exists v, OrderedDict.get (cur_dict (p_store ps) c) k = Some (PList [v])
                /\ OrderedDict.get d k = Some v
  end.

Definition clean_item (d : OrderedDict.t string) (kv : string * string) : Prop :=
  OrderedDict.get d (fst kv) = Some (snd kv) /\
  clean_key (fst kv) /\ clean_value (snd kv).

(** The lines [_write_section] writes. *)
Definition section_lines (name : string) (d : OrderedDict.t string)
    : list string :=
  header_line name :: map item_line d ++ [EmptyString].

Definition fresh_for (ps : pstate) (s : string) : Prop :=
  in_strings s (p_added_sections ps) = false /\
  forall k, in_pairs (s, k) (p_added_options ps) = false.

(** The lines [write] writes for the whole parser. *)
Definition all_lines (cfg : t) : list string :=
  (match defaults cfg with
   | [] => []
   | _ => section_lines default_section (defaults cfg)
   end)
  ++ concat (map (fun sd => section_lines (fst sd) (snd sd)) (sections cfg)).

(** The file holds text whose reload leaves the parser as it is. *)
Definition in_sync (w : world) : Prop :=
  exists text, fs w !! configure_path w = Some text /\
               read_text (_config w) text = Ret (_config w).

Definition reloaded (w : world) : world :=
  World (_config w) (configure_path w) (fs w) (writable w) (stdin w)
    (trace w ++ [OpenRead (configure_path w) "UTF-8"]).

(** The parser after [set], with the section added when it was missing. *)
Definition set_value (cfg : t) (section key value : string) : t :=
  Store (defaults cfg)
    (OrderedDict.set (sections cfg) section
       (OrderedDict.set
          (match OrderedDict.get (sections cfg) section with
           | Some d => d
           | None => []
           end) (lower key) value)).

(** The part of [write] that sets the value, creating the section when
    the parser does not have it. *)
Definition set_or_create (section key value : string) : M unit :=
  try_except
    (update (fun cfg => ConfigParser.set cfg section key value))
    (fun e =>
       match e with
       | NoSectionError =>
           Some (log WARNING
                   ("No section named " +:+ section +:+ ". Create new one.") ;;
                 update (fun cfg => ConfigParser.add_section cfg section) ;;
                 update (fun cfg => ConfigParser.set cfg section key value))
       | _ => None
       end).

(** A parser with a default and one section, saved to its file. *)
Definition sample_parser : ConfigParser.t :=
  Store [("d", "0")] [("sec", [("b", "2"); ("d", "0")])].

Definition sample_world : world :=
  World sample_parser "c.ini"
    {[ "c.ini" := ConfigParser.write sample_parser ]} named [] [].

End Vocabulary.

(** ** Vocabulary of the further properties *)

Section FurtherVocabulary.
Import Text ConfigParser.

(** The computation leaves every file as it is. *)
Definition keeps_disk {A} (c : M A) : Prop :=
  forall w, fs (snd (c w)) = fs w.

Definition digit_or_minus (c : ascii) : bool :=
  is_digit c || eqc c "-"%char.

(** The number a decimal numeral denotes, read from the left after the
    digits accumulated in [acc]. *)
Fixpoint uint_val (d : Decimal.uint) (acc : Z) : Z :=
  match d with
  | Decimal.Nil => acc
  | Decimal.D0 l => uint_val l (10 * acc + 0)
  | Decimal.D1 l => uint_val l (10 * acc + 1)
  | Decimal.D2 l => uint_val l (10 * acc + 2)
  | Decimal.D3 l => uint_val l (10 * acc + 3)
  | Decimal.D4 l => uint_val l (10 * acc + 4)
  | Decimal.D5 l => uint_val l (10 * acc + 5)
  | Decimal.D6 l => uint_val l (10 * acc + 6)
  | Decimal.D7 l => uint_val l (10 * acc + 7)
  | Decimal.D8 l => uint_val l (10 * acc + 8)
  | Decimal.D9 l => uint_val l (10 * acc + 9)
  end%Z.

(** A line that makes the loop of [_prompt] ask again: empty with no
    default to fall back on, or not empty and refused by the validator. *)
Definition asks_again (validator : string -> bool) (default : option string)
    (line : string) : Prop :=
  if truthy line then validator line = false else default = None.

(** A line that ends the loop of [_prompt] with the answer [a]: empty
    when there is a default, which is the answer, or not empty and
    accepted by the validator, and itself the answer. *)
Definition ends_with (validator : string -> bool) (default : option string)
    (line a : string) : Prop :=
  if truthy line then validator line = true /\ a = line
  else default = Some a.

(** A stand-in for [json.loads]: it knows the number 2, finds [true] too
    deeply nested and takes nothing else for JSON. *)
Definition sample_loads (s : string) : result Z :=
  if String.eqb s "2" then Ret 2%Z
  else if String.eqb s "true" then Raise RecursionError
  else Raise JSONDecodeError.

(** A file whose one value ends with a stray percent sign. *)
Definition percent_world : world :=
  disk_with "c.ini" ("[s]" +:+ NL +:+ "rate = 50%").

(** A store of three flags, saved to its file. *)
Definition flags_world : world :=
  World (Store [] [("f", [("a", "true"); ("b", "False"); ("c", "maybe")])])
        "c.ini"
        {[ "c.ini" := ConfigParser.write
                        (Store [] [("f", [("a", "true"); ("b", "False");
                                          ("c", "maybe")])]) ]} named [] [].

End FurtherVocabulary.

(** ** Reasoning about computations *)

Lemma bind_ret_l {A B} (a : A) (k : A -> M B) (w : world) :
  bind (ret a) k w = k a w.
Proof. reflexivity. Qed.

Lemma bind_eq_ret {A B} (c : M A) (k : A -> M B) (w w1 : world) (a : A) :
  c w = (Ret a, w1) -> bind c k w = k a w1.
Proof. unfold bind. intros ->. reflexivity. Qed.

Lemma bind_eq_exit {A B} (c : M A) (k : A -> M B) (w w1 : world) (n : Z) :
  c w = (Exit n, w1) -> bind c k w = (Exit n, w1).
Proof. unfold bind. intros ->. reflexivity. Qed.

Lemma bind_eq_raise {A B} (c : M A) (k : A -> M B) (w w1 : world) (e : exn) :
  c w = (Raise e, w1) -> bind c k w = (Raise e, w1).
Proof. unfold bind. intros ->. reflexivity. Qed.

Lemma path_exists_eq (path : string) (w : world) :
  path_exists path w = (Ret (bool_decide (is_Some (fs w !! path))), w).
Proof. reflexivity. Qed.

Lemma bool_decide_is_Some_None {A} (o : option A) :
  o = None -> bool_decide (is_Some o) = false.
Proof. intros ->. apply bool_decide_eq_false. intros [x Hx]. discriminate. Qed.

Lemma bool_decide_is_Some_Some {A} (o : option A) (a : A) :
  o = Some a -> bool_decide (is_Some o) = true.
Proof. intros ->. apply bool_decide_eq_true. eauto. Qed.

Lemma reload_missing (w : world) (encoding : string) :
  fs w !! configure_path w = None ->
  Configure._reload encoding true w = (Exit 1%Z, missing_logged w).
Proof.
  intros H. unfold Configure._reload, bind, self_path. simpl.
  rewrite (bool_decide_is_Some_None _ H). reflexivity.
Qed.

Lemma read_conf_missing (w : world) section key default_val required :
  fs w !! configure_path w = None ->
  Configure._read_conf section key default_val required w
  = (Exit 1%Z, missing_logged w).
Proof.
  intros H. unfold Configure._read_conf.
  apply bind_eq_exit, reload_missing, H.
Qed.

(** C9. After construction, when the configuration file is not on disk at
    the moment [read], [read_bool], [read_int], [read_float], [read_json]
    or [write] is called, the reload at the start of the call ends the
    process with exit status 1. *)
Theorem missing_file_is_fatal {F J : Type}
    (float_of_str : string -> option F) (str_float : F -> string)
    (json_loads : string -> result J)
    (w : world) (section key value : string) (required store : bool)
    (ds : option string) (db : option bool) (di : option Z) (df : option F) :
  fs w !! configure_path w = None ->
  fst (Configure.read section key ds required w) = Exit 1%Z /\
  fst (Configure.read_bool section key db required w) = Exit 1%Z /\
  fst (Configure.read_int section key di required w) = Exit 1%Z /\
  fst (Configure.read_float float_of_str str_float section key df required w)
    = Exit 1%Z /\
  fst (Configure.read_json json_loads section key w) = Exit 1%Z /\
  fst (Configure.write section key value store w) = Exit 1%Z.
Proof.
  intros H.
  unfold Configure.read, Configure.read_bool, Configure.read_int,
    Configure.read_float, Configure.read_json, Configure.write.
  repeat split;
    (erewrite bind_eq_exit;
     [reflexivity | first [apply read_conf_missing | apply reload_missing]; exact H]).
Qed.

Lemma missing_file_is_fatal_witness :
  fst (Configure.read "sec" "k" None true (empty_world "c.ini")) = Exit 1%Z /\
  fst (Configure.write "sec" "k" "v" true (empty_world "c.ini")) = Exit 1%Z.
Proof.
  pose proof (missing_file_is_fatal (F:=Z) (J:=Z) (fun _ => None)
                (fun _ => "0") (fun _ => Raise JSONDecodeError)
                (empty_world "c.ini")
                "sec" "k" "v" true true None None None None) as H.
  destruct H as (Hr & _ & _ & _ & _ & Hw); [reflexivity |].
  split; assumption.
Defined.

(** ** [write] with an empty name *)

Lemma reload_keeps_disk (w : world) (encoding : string) (force_quit : bool) :
  is_Some (fs w !! configure_path w) \/ force_quit = true ->
  fs (snd (Configure._reload encoding force_quit w)) = fs w.
Proof.
  intros H. unfold Configure._reload, bind, self_path. simpl.
  destruct (fs w !! configure_path w) as [text|] eqn:E.
  - rewrite (bool_decide_is_Some_Some _ _ eq_refl).
    unfold parser_read. rewrite E. unfold bind, emit, update. simpl.
    destruct (ConfigParser.read_text (_config w) text); reflexivity.
  - destruct H as [[x Hx] | ->]; [discriminate |].
    rewrite (bool_decide_is_Some_None _ eq_refl). reflexivity.
Qed.

Lemma rbind_no_exit {A B} (r : result A) (k : A -> result B) :
  (forall n, r <> Exit n) -> (forall a n, k a <> Exit n) ->
  forall n, rbind r k <> Exit n.
Proof.
  intros Hr Hk n. destruct r; simpl; [apply Hk | discriminate |].
  intros _. exact (Hr status eq_refl).
Qed.

Lemma cur_append_no_exit st c k v n :
  ConfigParser.cur_append st c k v <> Exit n.
Proof.
  unfold ConfigParser.cur_append.
  destruct (OrderedDict.get _ k) as [[?|?]|]; discriminate.
Qed.

Lemma read_line_no_exit ps line n : ConfigParser.read_line ps line <> Exit n.
Proof.
  unfold ConfigParser.read_line, ConfigParser.read_entry.
  repeat first
    [ discriminate
    | apply rbind_no_exit; [intros; apply cur_append_no_exit | intros; discriminate]
    | match goal with
      | |- context [match ?x with _ => _ end] => destruct x
      end ].
Qed.

Lemma read_lines_no_exit lines : forall ps n,
  ConfigParser.read_lines ps lines <> Exit n.
Proof.
  induction lines as [|l ls IH]; intros ps n; simpl; [discriminate |].
  apply rbind_no_exit; [intros; apply read_line_no_exit | intros; apply IH].
Qed.

Lemma read_text_no_exit cfg text n : ConfigParser.read_text cfg text <> Exit n.
Proof.
  unfold ConfigParser.read_text.
  apply rbind_no_exit; [intros; apply read_lines_no_exit |].
  intros ps m. destruct (ConfigParser.p_error ps); discriminate.
Qed.

(** With [force_quit] a reload returns, raises what the reader raised, or
    exits with status 1. *)
Lemma reload_outcome (w : world) (encoding : string) :
  (exists w1, Configure._reload encoding true w = (Ret tt, w1)) \/
  (exists e w1, Configure._reload encoding true w = (Raise e, w1)) \/
  (fs w !! configure_path w = None /\
   Configure._reload encoding true w = (Exit 1%Z, missing_logged w)).
Proof.
  destruct (fs w !! configure_path w) as [text|] eqn:E.
  - unfold Configure._reload, bind, self_path. simpl.
    rewrite (bool_decide_is_Some_Some _ _ E).
    unfold parser_read. rewrite E. unfold bind, emit, update. simpl.
    destruct (ConfigParser.read_text (_config w) text) eqn:R.
    + left. eexists. reflexivity.
    + right. left. do 2 eexists. reflexivity.
    + exfalso. exact (read_text_no_exit _ _ _ R).
  - right. right. split; [reflexivity | apply reload_missing, E].
Qed.

Lemma empty_name_test (section key : string) :
  section = EmptyString \/ key = EmptyString ->
  negb (Text.truthy section) || negb (Text.truthy key) = true.
Proof. intros [-> | ->]; simpl; [reflexivity | apply orb_true_r]. Qed.

(** C8. [write] with an empty section name or an empty key name ends the
    process with exit status 1 and modifies neither the disk nor the
    parser, which is left as the reload at the start of the call made
    it, for every value, whenever that reload raises nothing (the file,
    if it is there, is readable INI text). *)
Theorem write_empty_name_exits (w : world) (section key value : string)
    (store : bool) :
  section = EmptyString \/ key = EmptyString ->
  (forall e, fst (Configure._reload "UTF-8" true w) <> Raise e) ->
  fst (Configure.write section key value store w) = Exit 1%Z /\
  fs (snd (Configure.write section key value store w)) = fs w /\
  _config (snd (Configure.write section key value store w))
  = _config (snd (Configure._reload "UTF-8" true w)).
Proof.
  intros Hname Hread.
  pose proof (reload_keeps_disk w "UTF-8" true (or_intror eq_refl)) as Hfs.
  unfold Configure.write.
  destruct (reload_outcome w "UTF-8") as [[w1 R] | [(e & w1 & R) | [_ R]]].
  - rewrite R in Hfs. simpl in Hfs.
    rewrite (bind_eq_ret _ _ _ _ _ R).
    rewrite (empty_name_test _ _ Hname). rewrite R.
    unfold bind, log, emit, exit. simpl.
    split; [reflexivity |]. split; [exact Hfs | reflexivity].
  - exfalso. apply (Hread e). rewrite R. reflexivity.
  - rewrite (bind_eq_exit _ _ _ _ _ R). rewrite R. repeat split.
Qed.

Lemma write_empty_name_exits_witness :
  fst (Configure.write EmptyString "k" "v" true
         (disk_with "c.ini" "[s]")) = Exit 1%Z /\
  fs (snd (Configure.write EmptyString "k" "v" true
             (disk_with "c.ini" "[s]")))
  = fs (disk_with "c.ini" "[s]") /\
  _config (snd (Configure.write EmptyString "k" "v" true
                  (disk_with "c.ini" "[s]")))
  = ConfigParser.Store [] [("s", [])].
Proof.
  apply (write_empty_name_exits (disk_with "c.ini" "[s]")
           EmptyString "k" "v" true).
  - left. reflexivity.
  - intros e. vm_compute. discriminate.
Defined.

(** ** Reading a key that is not there *)

Lemma read_conf_absent (w w1 : world) (section key : string)
    (default_val : option string) (required : bool) :
  Configure._reload "UTF-8" true w = (Ret tt, w1) ->
  absent_from (_config w1) section key ->
  exists w2,
    Configure._read_conf section key default_val required w
    = (Ret (if negb (Text.truthy section) || negb (Text.truthy key)
            then None else default_val), w2) /\
    same_store w1 w2.
Proof.
  intros R (e & Hget & He).
  unfold Configure._read_conf. rewrite (bind_eq_ret _ _ _ _ _ R).
  destruct (negb (Text.truthy section) || negb (Text.truthy key)).
  - eexists. split; [reflexivity | repeat split].
  - unfold bind, try_except, lift, log, emit, ret. simpl. rewrite Hget.
    destruct e; try discriminate He; simpl;
      destruct default_val, required; simpl;
      (eexists; split; [reflexivity | repeat split]).
Qed.

Lemma store_nothing_if_absent (w : world) (section key : string) :
  absent_from (_config w) section key ->
  Configure.store_if_absent section key None w = (Ret tt, w).
Proof.
  intros (e & Hget & He).
  unfold Configure.store_if_absent, bind, try_except, lift, ret.
  rewrite Hget, He. reflexivity.
Qed.

(** C3. When the key is absent from the store (as reloaded at the start of
    the call), [read(section, key)] with [required=True] and no default
    returns [None], leaves the disk as it was and leaves in memory exactly
    the reloaded parser: no key is added. *)
Theorem read_required_absent (w w1 : world) (section key : string) :
  Configure._reload "UTF-8" true w = (Ret tt, w1) ->
  absent_from (_config w1) section key ->
  exists w', Configure.read section key None true w = (Ret None, w') /\
             fs w' = fs w /\ _config w' = _config w1.
Proof.
  intros R Habs.
  pose proof (reload_keeps_disk w "UTF-8" true (or_intror eq_refl)) as Hfs.
  rewrite R in Hfs. simpl in Hfs.
  destruct (read_conf_absent w w1 section key None true R Habs)
    as (w2 & Hconf & Hc & _ & Hd & _).
  assert (Hnone : (if negb (Text.truthy section) || negb (Text.truthy key)
                   then None else None) = @None string)
    by (destruct (negb _ || negb _); reflexivity).
  rewrite Hnone in Hconf.
  exists w2. unfold Configure.read.
  rewrite (bind_eq_ret _ _ _ _ _ Hconf).
  rewrite (bind_eq_ret _ _ w2 w2 tt).
  - split; [reflexivity | split; congruence].
  - apply store_nothing_if_absent. rewrite Hc. exact Habs.
Qed.

Lemma read_required_absent_witness :
  exists w', Configure.read "sec" "k" None true (disk_with "c.ini" "[sec]")
             = (Ret None, w') /\
             fs w' = fs (disk_with "c.ini" "[sec]") /\
             _config w' = ConfigParser.Store [] [("sec", [])].
Proof.
  apply (read_required_absent (disk_with "c.ini" "[sec]")
           (snd (Configure._reload "UTF-8" true (disk_with "c.ini" "[sec]")))).
  - vm_compute. reflexivity.
  - exists NoOptionError. split; vm_compute; reflexivity.
Defined.

(** ** Construction when the file is missing *)

Arguments Text.contains : simpl never.

(** C4, amended. The constructor reloads with [force_quit=False]: when the
    file is missing it never ends the process, it asks the operator.  When
    the answer is a confirmation the serialized empty parser, the empty
    text, is written to the path at once, provided the path can be opened
    for writing; when it cannot, the [OSError] of [open] leaves the
    constructor; when the answer is a refusal construction returns and
    the disk is as it was. *)
Theorem construct_missing_file (w : world) (path encoding : string) :
  fs w !! path = None ->
  (forall n, fst (Configure.__init__ path encoding w) <> Exit n) /\
  (forall a, answer path w = Ret a ->
     Text.contains a "Yy" = true ->
     if writable w path
     then fst (Configure.__init__ path encoding w) = Ret tt /\
          fs (snd (Configure.__init__ path encoding w))
          = <[path := EmptyString]> (fs w)
     else fst (Configure.__init__ path encoding w) = Raise OSError /\
          fs (snd (Configure.__init__ path encoding w)) = fs w) /\
  (forall a, answer path w = Ret a ->
     Text.contains a "Yy" = false ->
     fst (Configure.__init__ path encoding w) = Ret tt /\
     fs (snd (Configure.__init__ path encoding w)) = fs w).
Proof.
  intros Hnone. unfold answer, create_question.
  unfold Configure.__init__, Configure._reload, bind, self_path. simpl.
  rewrite (bool_decide_is_Some_None _ Hnone).
  unfold Configure._prompt. simpl.
  destruct (Configure.prompt_loop _ _ _ (stdin w) (trace w))
    as [[r rest] tr] eqn:P.
  assert (Hr : forall n, r <> Exit n).
  { clear -P. revert r rest tr P. generalize (trace w).
    induction (stdin w) as [|i ins IH]; intros tr0 r rest tr P; simpl in P.
    - inversion P. discriminate.
    - destruct (negb (Text.truthy i)).
      + inversion P. discriminate.
      + destruct (Configure.YES_NO_VALIDATOR i).
        * inversion P. discriminate.
        * eapply IH. exact P. }
  simpl. split; [| split].
  - intros n. destruct r as [a | e | m]; simpl.
    + destruct (Text.contains a "Yy"); simpl.
      * unfold Configure.export, bind, path_exists. simpl.
        rewrite (bool_decide_is_Some_None _ Hnone). simpl.
        unfold write_file. simpl. destruct (writable w path); discriminate.
      * discriminate.
    + discriminate.
    + intros _. exact (Hr m eq_refl).
  - intros a -> Ha. simpl. rewrite Ha. simpl.
    unfold Configure.export, bind, path_exists. simpl.
    rewrite (bool_decide_is_Some_None _ Hnone). simpl.
    unfold write_file. simpl.
    destruct (writable w path); simpl; split; reflexivity.
  - intros a -> Ha. simpl. rewrite Ha. simpl. split; reflexivity.
Qed.

Lemma construct_missing_file_witness :
  fst (Configure.__init__ "c.ini" "UTF-8" (console ["maybe"; "Y"])) = Ret tt /\
  fs (snd (Configure.__init__ "c.ini" "UTF-8" (console ["maybe"; "Y"])))
  = <["c.ini" := EmptyString]> ∅.
Proof.
  destruct (construct_missing_file (console ["maybe"; "Y"]) "c.ini" "UTF-8")
    as (_ & H & _); [reflexivity |].
  apply (H "Y"); reflexivity.
Defined.

(** C4 as stated fails: with the file missing, a constructor call whose
    operator declines returns normally and creates nothing, one with no
    console input at all raises [EOFError] out of [input], and one whose
    operator confirms for a path that cannot be opened for writing raises
    [OSError]; none ends the process through [exit]. *)
Lemma construct_missing_file_no_abort :
  fst (Configure.__init__ "c.ini" "UTF-8" (console ["n"])) = Ret tt /\
  fs (snd (Configure.__init__ "c.ini" "UTF-8" (console ["n"]))) !! "c.ini"
  = None /\
  fst (Configure.__init__ "c.ini" "UTF-8" (console [])) = Raise EOFError /\
  fst (Configure.__init__ EmptyString "UTF-8" (console ["y"])) = Raise OSError.
Proof. repeat split; vm_compute; reflexivity. Qed.

(** ** [read_json] on a key that is not there *)

Lemma read_json_absent_general {J : Type} (json_loads : string -> result J)
    (w w1 : world) (section key : string) :
  Configure._reload "UTF-8" true w = (Ret tt, w1) ->
  absent_from (_config w1) section key ->
  fst (Configure.read_json json_loads section key w) = Raise TypeError.
Proof.
  intros R Habs.
  destruct (read_conf_absent w w1 section key None true R Habs)
    as (w2 & Hconf & _).
  unfold Configure.read_json. rewrite (bind_eq_ret _ _ _ _ _ Hconf).
  destruct (negb _ || negb _); reflexivity.
Qed.

(** C2 fails on the code. For a key absent from the store [_read_conf]
    returns [None], [json.loads(None)] raises [TypeError], and [read_json]
    catches [JSONDecodeError] only: the exception reaches the caller,
    whatever the JSON parser is. *)
Theorem read_json_absent_raises {J : Type} (json_loads : string -> result J) :
  fst (Configure.read_json json_loads "sec" "k" (disk_with "c.ini" "[sec]"))
  = Raise TypeError.
Proof.
  apply (read_json_absent_general json_loads (disk_with "c.ini" "[sec]")
           (snd (Configure._reload "UTF-8" true (disk_with "c.ini" "[sec]")))).
  - vm_compute. reflexivity.
  - exists NoOptionError. split; vm_compute; reflexivity.
Qed.

(** ** The encoding of reloads *)

Lemma reads_utf8_pure {A} (c : M A) :
  (forall w, trace (snd (c w)) = trace w) -> reads_utf8 c.
Proof.
  intros H w. exists []. rewrite H, app_nil_r. split; [reflexivity | constructor].
Qed.

Lemma reads_utf8_emit (e : event) : utf8_read e -> reads_utf8 (emit e).
Proof. intros He w. exists [e]. split; [reflexivity | repeat constructor; exact He]. Qed.

Lemma reads_utf8_bind {A B} (c : M A) (k : A -> M B) :
  reads_utf8 c -> (forall a, reads_utf8 (k a)) -> reads_utf8 (bind c k).
Proof.
  intros Hc Hk w. destruct (Hc w) as (n1 & E1 & F1). unfold bind.
  destruct (c w) as [[a | e | n] w1]; simpl in *; eauto.
  destruct (Hk a w1) as (n2 & E2 & F2).
  exists (n1 ++ n2). rewrite E2, E1, app_assoc. split; [reflexivity |].
  apply Forall_app. split; assumption.
Qed.

Lemma reads_utf8_try {A} (c : M A) (h : exn -> option (M A)) :
  reads_utf8 c -> (forall e handler, h e = Some handler -> reads_utf8 handler) ->
  reads_utf8 (try_except c h).
Proof.
  intros Hc Hh w. destruct (Hc w) as (n1 & E1 & F1). unfold try_except.
  destruct (c w) as [[a | e | n] w1]; simpl in *; eauto.
  destruct (h e) as [handler|] eqn:E; simpl; eauto.
  destruct (Hh e handler E w1) as (n2 & E2 & F2).
  exists (n1 ++ n2). rewrite E2, E1, app_assoc. split; [reflexivity |].
  apply Forall_app. split; assumption.
Qed.

Lemma reads_utf8_update f : reads_utf8 (update f).
Proof.
  apply reads_utf8_pure. intros w. unfold update.
  destruct (f (_config w)); reflexivity.
Qed.

Lemma reads_utf8_lift {A} (f : ConfigParser.t -> result A) : reads_utf8 (lift f).
Proof. apply reads_utf8_pure. reflexivity. Qed.

Lemma reads_utf8_write_file path text : reads_utf8 (write_file path text).
Proof.
  intros w. unfold write_file. destruct (writable w path).
  - exists [OpenWrite path]. split; [reflexivity | repeat constructor].
  - exists []. split; [symmetry; apply app_nil_r | constructor].
Qed.

Ltac utf8_step :=
  first
    [ apply reads_utf8_bind; [| intros ?]
    | apply reads_utf8_try;
      [| let e := fresh "e" in let H := fresh "H" in
         intros e ? H; destruct e; simpl in H; try discriminate H;
         try (destruct (Configure.absent _); try discriminate H);
         inversion H; subst; clear H ]
    | apply reads_utf8_update
    | apply reads_utf8_lift
    | apply reads_utf8_write_file
    | apply reads_utf8_emit; exact I
    | apply reads_utf8_pure; reflexivity
    | match goal with
      | |- reads_utf8 (if ?b then _ else _) => destruct b
      | |- reads_utf8 (match ?x with _ => _ end) => destruct x
      end ].

Lemma reads_utf8_parser_read path : reads_utf8 (parser_read path "UTF-8").
Proof.
  intros w. unfold parser_read. destruct (fs w !! path) as [text|].
  - revert w. change (reads_utf8 (emit (OpenRead path "UTF-8") ;;
                        update (fun cfg => ConfigParser.read_text cfg text))).
    apply reads_utf8_bind; [apply reads_utf8_emit; reflexivity | intros _].
    apply reads_utf8_update.
  - exists []. rewrite app_nil_r. split; [reflexivity | constructor].
Qed.

Lemma reads_utf8_reload : reads_utf8 (Configure._reload "UTF-8" true).
Proof.
  unfold Configure._reload, log.
  utf8_step; [utf8_step |]. utf8_step; [utf8_step |].
  destruct a0; [apply reads_utf8_parser_read |].
  repeat utf8_step.
Qed.

Lemma reads_utf8_resort section kvs : reads_utf8 (Configure.resort section kvs).
Proof.
  induction kvs as [|[k v] kvs IH]; simpl; [utf8_step |].
  utf8_step.
  - apply reads_utf8_pure. intros w.
    destruct (ConfigParser.remove_option (_config w) section k) as [[? ?]| |];
      reflexivity.
  - utf8_step; [utf8_step | exact IH].
Qed.

Lemma reads_utf8_save_sections names : reads_utf8 (Configure.save_sections names).
Proof.
  induction names as [|s names IH]; simpl; [utf8_step |].
  utf8_step; [utf8_step |]. utf8_step; [apply reads_utf8_resort | exact IH].
Qed.

Lemma reads_utf8_save : reads_utf8 Configure._save.
Proof.
  unfold Configure._save.
  utf8_step; [utf8_step |]. utf8_step; [apply reads_utf8_save_sections |].
  repeat utf8_step.
Qed.

Lemma reads_utf8_write section key value store :
  reads_utf8 (Configure.write section key value store).
Proof.
  unfold Configure.write, log.
  utf8_step; [apply reads_utf8_reload |].
  utf8_step; [repeat utf8_step |].
  utf8_step; [repeat utf8_step |].
  utf8_step; [utf8_step |].
  destruct store; [apply reads_utf8_save | utf8_step].
Qed.

Lemma reads_utf8_read_conf section key default_val required :
  reads_utf8 (Configure._read_conf section key default_val required).
Proof.
  unfold Configure._read_conf, log.
  utf8_step; [apply reads_utf8_reload |].
  repeat utf8_step.
Qed.

Lemma reads_utf8_store_if_absent section key value :
  reads_utf8 (Configure.store_if_absent section key value).
Proof.
  unfold Configure.store_if_absent.
  utf8_step; [repeat utf8_step | ..];
    (destruct value; [apply reads_utf8_write | utf8_step]).
Qed.

(** C10. The encoding given to the constructor is used for the first load
    only: the constructor opens an existing file with that encoding, and
    every file [read], [read_bool], [read_int], [read_float], [read_json]
    and [write] open for reading is opened as UTF-8, whatever encoding the
    object was constructed with. *)
Theorem reload_decodes_utf8 {F J : Type}
    (float_of_str : string -> option F) (str_float : F -> string)
    (json_loads : string -> result J)
    (section key value : string) (required store : bool)
    (ds : option string) (db : option bool) (di : option Z) (df : option F) :
  (forall w path encoding,
     is_Some (fs w !! path) ->
     trace (snd (Configure.__init__ path encoding w))
     = trace w ++ [OpenRead path encoding]) /\
  reads_utf8 (Configure.read section key ds required) /\
  reads_utf8 (Configure.read_bool section key db required) /\
  reads_utf8 (Configure.read_int section key di required) /\
  reads_utf8 (Configure.read_float float_of_str str_float section key df
                required) /\
  reads_utf8 (Configure.read_json json_loads section key) /\
  reads_utf8 (Configure.write section key value store).
Proof.
  split.
  { intros w path encoding [text Htext].
    unfold Configure.__init__, Configure._reload, bind, self_path. simpl.
    rewrite (bool_decide_is_Some_Some _ _ Htext).
    unfold parser_read. simpl. rewrite Htext.
    unfold bind, emit, update. simpl.
    destruct (ConfigParser.read_text ConfigParser.empty text); reflexivity. }
  unfold Configure.read, Configure.read_bool, Configure.read_int,
    Configure.read_float, Configure.read_json, Configure.type_warning, log.
  repeat split;
    try apply reads_utf8_write;
    (utf8_step; [apply reads_utf8_read_conf |]);
    repeat first [ apply reads_utf8_store_if_absent | utf8_step ].
Qed.

Lemma reload_decodes_utf8_witness :
  trace (snd (Configure.__init__ "c.ini" "latin-1" (disk_with "c.ini" "[s]")))
  = [OpenRead "c.ini" "latin-1"] /\
  trace (snd (Configure.read "s" "k" None true
                (snd (Configure.__init__ "c.ini" "latin-1"
                        (disk_with "c.ini" "[s]")))))
  = [OpenRead "c.ini" "latin-1"; OpenRead "c.ini" "UTF-8";
     Log ERROR "no value for s.k";
     Log ERROR "this field cannot to be set None"].
Proof.
  destruct (reload_decodes_utf8 (F:=Z) (J:=Z) (fun _ => None) (fun _ => "0")
              (fun _ => Raise JSONDecodeError) "s" "k" "v" true true
              None None None None)
    as [H _].
  split.
  - apply (H (disk_with "c.ini" "[s]") "c.ini" "latin-1").
    exists "[s]". reflexivity.
  - vm_compute. reflexivity.
Defined.

(** ** Ordered dictionaries: facts *)

Section DictFacts.
Context {V : Type}.
Implicit Types (d : OrderedDict.t V) (k : string) (v : V).

Lemma dict_get_none d k :
  OrderedDict.get d k = None <-> ~ In k (OrderedDict.keys d).
Proof.
  induction d as [|[k' v'] d IH]; simpl.
  - split; [intros _ [] | reflexivity].
  - destruct (String.eqb_spec k' k) as [-> | Hne].
    + split; [discriminate | intros H; exfalso; apply H; left; reflexivity].
    + rewrite IH. split.
      * intros H [E | Hin]; [exact (Hne E) | exact (H Hin)].
      * intros H Hin. apply H. right. exact Hin.
Qed.

Lemma dict_get_in d k v :
  OrderedDict.get d k = Some v -> In (k, v) d.
Proof.
  induction d as [|[k' v'] d IH]; simpl; [discriminate |].
  destruct (String.eqb_spec k' k) as [-> | Hne].
  - intros [= ->]. left. reflexivity.
  - intros H. right. apply IH, H.
Qed.

Lemma dict_in_get d k v :
  List.NoDup (OrderedDict.keys d) -> In (k, v) d -> OrderedDict.get d k = Some v.
Proof.
  induction d as [|[k' v'] d IH]; simpl; [intros _ [] |].
  intros Hnd [E | Hin].
  - injection E as -> ->. rewrite String.eqb_refl. reflexivity.
  - inversion Hnd as [|? ? Hk Hd]; subst.
    destruct (String.eqb_spec k' k) as [-> | Hne].
    + exfalso. apply Hk. change k with (fst (k, v)). apply in_map, Hin.
    + apply IH; assumption.
Qed.

Lemma dict_get_set_eq d k v : OrderedDict.get (OrderedDict.set d k v) k = Some v.
Proof.
  induction d as [|[k' v'] d IH]; simpl.
  - rewrite String.eqb_refl. reflexivity.
  - destruct (String.eqb_spec k' k) as [-> | Hne]; simpl.
    + rewrite String.eqb_refl. reflexivity.
    + destruct (String.eqb_spec k' k); [contradiction | exact IH].
Qed.

Lemma dict_get_set_ne d k k2 v :
  k <> k2 -> OrderedDict.get (OrderedDict.set d k v) k2 = OrderedDict.get d k2.
Proof.
  intros Hne. induction d as [|[k' v'] d IH]; simpl.
  - destruct (String.eqb_spec k k2); [contradiction | reflexivity].
  - destruct (String.eqb_spec k' k) as [-> | Hne']; simpl.
    + destruct (String.eqb_spec k k2); [contradiction | reflexivity].
    + rewrite IH. reflexivity.
Qed.

Lemma dict_set_set d k v1 v2 :
  OrderedDict.set (OrderedDict.set d k v1) k v2 = OrderedDict.set d k v2.
Proof.
  induction d as [|[k' v'] d IH]; simpl.
  - rewrite String.eqb_refl. reflexivity.
  - destruct (String.eqb_spec k' k) as [-> | Hne]; simpl.
    + rewrite String.eqb_refl. reflexivity.
    + destruct (String.eqb_spec k' k); [contradiction |]. rewrite IH. reflexivity.
Qed.

Lemma dict_set_fresh d k v :
  OrderedDict.get d k = None -> OrderedDict.set d k v = d ++ [(k, v)].
Proof.
  induction d as [|[k' v'] d IH]; simpl; [reflexivity |].
  destruct (String.eqb_spec k' k); [discriminate |].
  intros H. rewrite (IH H). reflexivity.
Qed.

Lemma dict_set_same d k v :
  OrderedDict.get d k = Some v -> OrderedDict.set d k v = d.
Proof.
  induction d as [|[k' v'] d IH]; simpl; [discriminate |].
  destruct (String.eqb_spec k' k) as [-> | Hne].
  - intros [= ->]. reflexivity.
  - intros H. rewrite (IH H). reflexivity.
Qed.

Lemma dict_keys_set_present d k v :
  OrderedDict.get d k <> None ->
  OrderedDict.keys (OrderedDict.set d k v) = OrderedDict.keys d.
Proof.
  induction d as [|[k' v'] d IH]; simpl; [intros H; contradiction |].
  destruct (String.eqb_spec k' k) as [-> | Hne]; simpl; [reflexivity |].
  intros H. rewrite (IH H). reflexivity.
Qed.

Lemma dict_del_fresh d k : OrderedDict.get d k = None -> OrderedDict.del d k = d.
Proof.
  induction d as [|[k' v'] d IH]; simpl; [reflexivity |].
  destruct (String.eqb_spec k' k); [discriminate |].
  intros H. rewrite (IH H). reflexivity.
Qed.

Lemma dict_get_app d1 d2 k :
  OrderedDict.get (d1 ++ d2) k
  = match OrderedDict.get d1 k with
    | Some v => Some v
    | None => OrderedDict.get d2 k
    end.
Proof.
  induction d1 as [|[k' v'] d1 IH]; simpl; [reflexivity |].
  destruct (String.eqb k' k); [reflexivity | exact IH].
Qed.

Lemma dict_del_app d1 d2 k :
  OrderedDict.get d1 k <> None ->
  OrderedDict.del (d1 ++ d2) k = OrderedDict.del d1 k ++ d2.
Proof.
  induction d1 as [|[k' v'] d1 IH]; simpl; [intros H; contradiction |].
  destruct (String.eqb k' k); [reflexivity |].
  intros H. rewrite (IH H). reflexivity.
Qed.

Lemma dict_keys_del_incl d k x :
  In x (OrderedDict.keys (OrderedDict.del d k)) -> In x (OrderedDict.keys d).
Proof.
  induction d as [|[k' v'] d IH]; simpl; [tauto |].
  destruct (String.eqb k' k); simpl; [tauto |].
  intros [E | H]; [left; exact E | right; exact (IH H)].
Qed.

Lemma dict_del_gone d k :
  List.NoDup (OrderedDict.keys d) -> OrderedDict.get (OrderedDict.del d k) k = None.
Proof.
  induction d as [|[k' v'] d IH]; simpl; [reflexivity |].
  intros Hnd. inversion Hnd as [|? ? Hk Hd]; subst.
  destruct (String.eqb_spec k' k) as [-> | Hne]; simpl.
  - apply dict_get_none. exact Hk.
  - destruct (String.eqb_spec k' k); [contradiction | apply IH, Hd].
Qed.

Lemma dict_del_nodup d k :
  List.NoDup (OrderedDict.keys d) -> List.NoDup (OrderedDict.keys (OrderedDict.del d k)).
Proof.
  induction d as [|[k' v'] d IH]; simpl; [constructor |].
  intros Hnd. inversion Hnd as [|? ? Hk Hd]; subst.
  destruct (String.eqb k' k); simpl; [exact Hd |].
  constructor; [| apply IH, Hd].
  intros Hin. apply Hk. eapply dict_keys_del_incl, Hin.
Qed.

Lemma dict_keys_set d k v x :
  In x (OrderedDict.keys (OrderedDict.set d k v)) <->
  x = k \/ In x (OrderedDict.keys d).
Proof.
  induction d as [|[k' v'] d IH]; simpl.
  - intuition.
  - destruct (String.eqb_spec k' k) as [-> | Hne]; simpl.
    + intuition.
    + rewrite IH. intuition.
Qed.

Lemma dict_set_nodup d k v :
  List.NoDup (OrderedDict.keys d) -> List.NoDup (OrderedDict.keys (OrderedDict.set d k v)).
Proof.
  induction d as [|[k' v'] d IH]; simpl.
  - intros _. constructor; [intros [] | constructor].
  - intros Hnd. inversion Hnd as [|? ? Hk Hd]; subst.
    destruct (String.eqb_spec k' k) as [-> | Hne]; simpl.
    + exact Hnd.
    + constructor; [| apply IH, Hd].
      rewrite dict_keys_set. intros [E | Hin]; [exact (Hne E) | exact (Hk Hin)].
Qed.

End DictFacts.

(** ** Sorting by key *)



Lemma insert_item_perm x l : Permutation (insert_item x l) (x :: l).
Proof.
  induction l as [|y l IH]; simpl; [reflexivity |].
  destruct (String.leb (fst x) (fst y)); [reflexivity |].
  rewrite IH. apply perm_swap.
Qed.

Lemma sorted_perm l : Permutation (sorted l) l.
Proof.
  induction l as [|x l IH]; simpl; [reflexivity |].
  rewrite insert_item_perm, IH. reflexivity.
Qed.



Lemma sorted_keys_perm l :
  Permutation (OrderedDict.keys (sorted l)) (OrderedDict.keys l).
Proof. unfold OrderedDict.keys. apply Permutation_map, sorted_perm. Qed.

(** ** [_save]: every section ends up holding its items in key order *)

Lemma dict_del_app_r {V} (d1 d2 : OrderedDict.t V) k :
  OrderedDict.get d2 k = None ->
  OrderedDict.del (d1 ++ d2) k = OrderedDict.del d1 k ++ d2.
Proof.
  intros H. induction d1 as [|[k' v'] d1 IH]; simpl.
  - apply dict_del_fresh, H.
  - destruct (String.eqb k' k); [reflexivity | rewrite IH; reflexivity].
Qed.

Lemma resort_steps kvs : forall rem done,
  List.NoDup (OrderedDict.keys kvs) ->
  List.NoDup (OrderedDict.keys rem) ->
  (forall x, In x (OrderedDict.keys rem) -> In x (OrderedDict.keys kvs)) ->
  (forall x, In x (OrderedDict.keys done) -> ~ In x (OrderedDict.keys kvs)) ->
  fold_left resort_step kvs (rem ++ done) = done ++ kvs.
Proof.
  induction kvs as [|[k v] kvs IH]; intros rem done Hkvs Hrem Hsub Hdis; simpl.
  - destruct rem as [|[k0 v0] rem]; [rewrite app_nil_r; reflexivity |].
    destruct (Hsub k0). left. reflexivity.
  - simpl in Hkvs. inversion Hkvs as [|? ? Hk Hkvs']; subst.
    assert (Hdk : OrderedDict.get done k = None).
    { apply dict_get_none. intros Hin. apply (Hdis k Hin). left. reflexivity. }
    unfold resort_step at 2. simpl.
    rewrite (dict_del_app_r _ _ _ Hdk).
    assert (Hgone : OrderedDict.get (OrderedDict.del rem k ++ done) k = None).
    { rewrite dict_get_app, (dict_del_gone _ _ Hrem). exact Hdk. }
    rewrite (dict_set_fresh _ _ _ Hgone), <- app_assoc.
    rewrite IH.
    + rewrite <- app_assoc. reflexivity.
    + exact Hkvs'.
    + apply dict_del_nodup, Hrem.
    + intros x Hx.
      destruct (Hsub x (dict_keys_del_incl _ _ _ Hx)) as [E | Hin];
        [| exact Hin].
      simpl in E. subst x. exfalso.
      pose proof (dict_del_gone _ k Hrem) as Hg.
      apply dict_get_none in Hg. exact (Hg Hx).
    + intros x Hx. unfold OrderedDict.keys in Hx.
      rewrite map_app in Hx. apply in_app_or in Hx.
      destruct Hx as [Hx | [E | []]].
      * intros Hin. apply (Hdis x Hx). right. exact Hin.
      * simpl in E. subst x. exact Hk.
Qed.

Lemma resort_steps_all d kvs :
  List.NoDup (OrderedDict.keys kvs) ->
  List.NoDup (OrderedDict.keys d) ->
  (forall x, In x (OrderedDict.keys d) -> In x (OrderedDict.keys kvs)) ->
  fold_left resort_step kvs d = kvs.
Proof.
  intros H1 H2 H3.
  rewrite <- (app_nil_r d). apply (resort_steps kvs d []); auto.
Qed.

Lemma plain_section_test s :
  plain_section s ->
  negb (Text.truthy s) || String.eqb s ConfigParser.default_section = false.
Proof.
  intros [H1 H2].
  assert (String.eqb s ConfigParser.default_section = false) as ->
    by (apply String.eqb_neq, H2).
  destruct s; [contradiction | reflexivity].
Qed.

Lemma remove_option_section cfg s k d :
  plain_section s ->
  OrderedDict.get (ConfigParser.sections cfg) s = Some d ->
  Text.lower k = k ->
  exists b,
    ConfigParser.remove_option cfg s k
    = Ret (b, ConfigParser.Store (ConfigParser.defaults cfg)
                (OrderedDict.set (ConfigParser.sections cfg) s
                   (OrderedDict.del d k))).
Proof.
  intros Hs Hd Hk. unfold ConfigParser.remove_option, ConfigParser.optionxform.
  rewrite (plain_section_test _ Hs), Hd, Hk.
  unfold OrderedDict.mem.
  destruct (OrderedDict.get d k) eqn:E; eexists; [reflexivity |].
  rewrite (dict_del_fresh _ _ E), (dict_set_same _ _ _ Hd).
  destruct cfg; reflexivity.
Qed.

Lemma set_section cfg cfg' s k v d :
  plain_section s ->
  OrderedDict.get (ConfigParser.sections cfg) s = Some d ->
  ConfigParser.set cfg s k v = Ret cfg' ->
  cfg' = ConfigParser.Store (ConfigParser.defaults cfg)
           (OrderedDict.set (ConfigParser.sections cfg) s
              (OrderedDict.set d (Text.lower k) v)).
Proof.
  intros Hs Hd. unfold ConfigParser.set, ConfigParser.optionxform.
  assert (Hv : forall r,
             (if Text.truthy v then ConfigParser.before_set v else Ret v) = r ->
             r = Ret v \/ r = Raise ValueError).
  { intros r <-. unfold ConfigParser.before_set.
    destruct (Text.truthy v); [| left; reflexivity].
    destruct (Text.has_char _ _); [right | left]; reflexivity. }
  destruct (Hv _ eq_refl) as [-> | ->]; simpl; [| discriminate].
  rewrite (plain_section_test _ Hs), Hd. intros [= <-]. reflexivity.
Qed.

Lemma resort_run s kvs : forall w w' d,
  plain_section s ->
  OrderedDict.get (ConfigParser.sections (_config w)) s = Some d ->
  Forall (fun kv => Text.lower (fst kv) = fst kv) kvs ->
  Configure.resort s kvs w = (Ret tt, w') ->
  w' = with_config w
         (ConfigParser.Store (ConfigParser.defaults (_config w))
            (OrderedDict.set (ConfigParser.sections (_config w)) s
               (fold_left resort_step kvs d))).
Proof.
  induction kvs as [|[k v] kvs IH]; intros w w' d Hs Hd Hlow; simpl.
  - intros [= <-]. rewrite (dict_set_same _ _ _ Hd).
    destruct w as [[? ?] ? ? ? ? ?]; reflexivity.
  - inversion Hlow as [|? ? Hk Hlow']; subst. simpl in Hk.
    destruct (remove_option_section _ s k d Hs Hd Hk) as [b Hrm].
    unfold bind at 1. rewrite Hrm.
    unfold bind at 1. unfold update.
    simpl _config.
    set (cfg1 := ConfigParser.Store _ _) in *.
    assert (Hd1 : OrderedDict.get (ConfigParser.sections cfg1) s
                  = Some (OrderedDict.del d k))
      by apply dict_get_set_eq.
    destruct (ConfigParser.set cfg1 s k v) as [cfg2 | e | n] eqn:Hset;
      try discriminate.
    pose proof (set_section _ _ _ _ _ _ Hs Hd1 Hset) as ->.
    rewrite Hk. simpl ConfigParser.sections. rewrite dict_set_set.
    intros Hrun.
    apply (IH _ _ (OrderedDict.set (OrderedDict.del d k) k v)) in Hrun;
      [| exact Hs | apply dict_get_set_eq | exact Hlow'].
    rewrite Hrun. unfold with_config. simpl. rewrite dict_set_set.
    reflexivity.
Qed.

(** *** Invariants of the parser's data *)

Lemma update_keys {V} (e : OrderedDict.t V) : forall (d : OrderedDict.t V) x,
  In x (OrderedDict.keys (OrderedDict.update d e)) <->
  In x (OrderedDict.keys d) \/ In x (OrderedDict.keys e).
Proof.
  unfold OrderedDict.update.
  induction e as [|[k v] e IH]; intros d x; simpl; [tauto |].
  rewrite IH, dict_keys_set. intuition.
Qed.

Lemma update_nodup {V} (e : OrderedDict.t V) : forall (d : OrderedDict.t V),
  List.NoDup (OrderedDict.keys d) ->
  List.NoDup (OrderedDict.keys (OrderedDict.update d e)).
Proof.
  unfold OrderedDict.update.
  induction e as [|[k v] e IH]; intros d Hd; simpl; [exact Hd |].
  apply IH, dict_set_nodup, Hd.
Qed.

Lemma update_wf {V} (d e : OrderedDict.t V) :
  wf_dict d -> wf_dict e -> wf_dict (OrderedDict.update d e).
Proof.
  intros [Hd1 Hd2] [He1 He2]. split; [apply update_nodup, Hd1 |].
  rewrite List.Forall_forall in *. intros x Hx.
  apply update_keys in Hx. destruct Hx; auto.
Qed.

Lemma map_result_keys (g : string * string -> result string) l : forall kvs,
  ConfigParser.map_result
    (fun kv => let* v := g kv in Ret (fst kv, v)) l = Ret kvs ->
  OrderedDict.keys kvs = OrderedDict.keys l.
Proof.
  induction l as [|kv l IH]; intros kvs; simpl.
  - intros [= <-]. reflexivity.
  - destruct (g kv) as [v| |]; simpl; try discriminate.
    destruct (ConfigParser.map_result _ l) as [bs| |]; simpl; try discriminate.
    intros [= <-]. simpl. rewrite (IH bs eq_refl). reflexivity.
Qed.

Lemma items_keys cfg s d kvs :
  OrderedDict.get (ConfigParser.sections cfg) s = Some d ->
  ConfigParser.items cfg s = Ret kvs ->
  OrderedDict.keys kvs
  = OrderedDict.keys (OrderedDict.update (ConfigParser.defaults cfg) d).
Proof.
  intros Hd. unfold ConfigParser.items. rewrite Hd. simpl.
  apply map_result_keys.
Qed.

Lemma wf_dict_perm {V W} (d : OrderedDict.t V) (e : OrderedDict.t W) :
  Permutation (OrderedDict.keys d) (OrderedDict.keys e) ->
  wf_dict d -> wf_dict e.
Proof.
  intros P [H1 H2]. split.
  - eapply Permutation_NoDup; eassumption.
  - eapply Permutation_Forall; eassumption.
Qed.

Ltac solve_nodup :=
  repeat (apply List.NoDup_cons; [simpl; intuition discriminate |]);
  apply List.NoDup_nil.




Ltac solve_clean_dict :=
  split; [solve_nodup
         | repeat (apply List.Forall_cons; [split; reflexivity |]);
           apply List.Forall_nil].

Ltac solve_clean_parser :=
  split; [solve_clean_dict |];
  split; [solve_nodup |];
  repeat (apply List.Forall_cons; [split; [reflexivity | solve_clean_dict] |]);
  apply List.Forall_nil.

(** ** Text: facts used by the reader *)

Arguments String.append : simpl nomatch.

Section TextFacts.
Import Text.

Lemma app_nil_r_s (s : string) : s +:+ EmptyString = s.
Proof. induction s as [|c s IH]; simpl; [reflexivity | rewrite IH; reflexivity]. Qed.

Lemma app_assoc_s (a b c : string) : (a +:+ b) +:+ c = a +:+ (b +:+ c).
Proof. induction a as [|x a IH]; simpl; [reflexivity | rewrite IH; reflexivity]. Qed.

Lemma has_char_app c a b : has_char c (a +:+ b) = has_char c a || has_char c b.
Proof.
  induction a as [|x a IH]; simpl; [reflexivity |].
  rewrite IH. apply orb_assoc.
Qed.

(** A text made of lines is split back into these lines. *)
Lemma split_lf_line (l rest : string) :
  has_char nl l = false ->
  split_lf (l +:+ String nl rest) = l :: split_lf rest.
Proof.
  induction l as [|c l IH]; simpl.
  - intros _. reflexivity.
  - intros H. apply orb_false_iff in H. destruct H as [Hc Hl].
    rewrite Hc, (IH Hl). reflexivity.
Qed.

Lemma rstrip_app_kept (p q : string) :
  rstrip q <> EmptyString -> rstrip (p +:+ q) = p +:+ rstrip q.
Proof.
  intros Hq. induction p as [|c p IH]; simpl; [reflexivity |].
  rewrite IH. destruct (p +:+ rstrip q) eqn:E; [| reflexivity].
  destruct p; simpl in E; [contradiction | discriminate].
Qed.

Lemma rstrip_app_blank (p q : string) :
  rstrip q = EmptyString -> rstrip (p +:+ q) = rstrip p.
Proof.
  intros Hq. induction p as [|c p IH]; simpl; [exact Hq |].
  rewrite IH. reflexivity.
Qed.

Lemma rstrip_cons_kept (c : ascii) (s : string) :
  is_space c = false -> rstrip (String c s) = String c (rstrip s).
Proof.
  intros Hc. simpl. destruct (rstrip s); [rewrite Hc |]; reflexivity.
Qed.

Lemma lstrip_fixed_app (k x : string) :
  k <> EmptyString -> lstrip k = k -> lstrip (k +:+ x) = k +:+ x.
Proof.
  destruct k as [|c k]; [contradiction |]. intros _. simpl.
  destruct (is_space c) eqn:E; [| reflexivity].
  intros H. exfalso.
  assert (Hlen : forall s, String.length (lstrip s) <= String.length s).
  { clear. induction s as [|a s IH]; simpl; [lia |].
    destruct (is_space a); simpl; lia. }
  pose proof (Hlen k) as Hk. rewrite H in Hk. simpl in Hk. lia.
Qed.

Lemma lstrip_fixed_head (k : string) :
  k <> EmptyString -> lstrip k = k ->
  exists c k', k = String c k' /\ is_space c = false.
Proof.
  destruct k as [|c k]; [contradiction |]. intros _ H.
  exists c, k. split; [reflexivity |].
  destruct (is_space c) eqn:E; [| reflexivity].
  exfalso. simpl in H. rewrite E in H.
  assert (Hlen : forall s, String.length (lstrip s) <= String.length s).
  { clear. induction s as [|a s IH]; simpl; [lia |].
    destruct (is_space a); simpl; lia. }
  pose proof (Hlen k) as Hk. rewrite H in Hk. simpl in Hk. lia.
Qed.

Lemma first_nonspace_head (c : ascii) (s : string) :
  is_space c = false -> first_nonspace (String c s) = 0.
Proof. intros H. unfold first_nonspace. simpl. rewrite H. reflexivity. Qed.

Lemma before_last_app (c : ascii) (s : string) :
  before_last c (s +:+ String c EmptyString) = Some s.
Proof.
  induction s as [|a s IH]; simpl.
  - unfold eqc. rewrite Ascii.eqb_refl. reflexivity.
  - rewrite IH. reflexivity.
Qed.

Lemma split_first_app (p : ascii -> bool) (a : string) (c : ascii) (b : string) :
  (forall x, has_char x a = true -> p x = false) -> p c = true ->
  split_first p (a +:+ String c b) = Some (a, b).
Proof.
  intros Ha Hc. induction a as [|x a IH]; simpl.
  - rewrite Hc. reflexivity.
  - rewrite (Ha x).
    + rewrite IH; [reflexivity |].
      intros y Hy. apply Ha. simpl. rewrite Hy. apply orb_true_r.
    + simpl. unfold eqc. rewrite Ascii.eqb_refl. reflexivity.
Qed.

Lemma split_first_none (p : ascii -> bool) (a : string) :
  (forall x, has_char x a = true -> p x = false) -> split_first p a = None.
Proof.
  intros Ha. induction a as [|x a IH]; simpl; [reflexivity |].
  rewrite (Ha x).
  - rewrite IH; [reflexivity |].
    intros y Hy. apply Ha. simpl. rewrite Hy. apply orb_true_r.
  - simpl. unfold eqc. rewrite Ascii.eqb_refl. reflexivity.
Qed.

Lemma has_char_eqc (c x : ascii) (s : string) :
  has_char c s = false -> has_char x s = true -> eqc x c = false.
Proof.
  intros Hc Hx. unfold eqc.
  destruct (Ascii.eqb_spec x c) as [-> | Hne]; [congruence | reflexivity].
Qed.

End TextFacts.

(** ** Names and values the INI text keeps as they are *)

Section Clean.
Import Text.

Lemma clean_value_facts v :
  clean_value v ->
  has_char nl v = false /\ has_char "%"%char v = false /\
  lstrip v = v /\ rstrip v = v.
Proof.
  unfold clean_value, clean_valueb. intros H.
  repeat (apply andb_true_iff in H; destruct H as [H ?]).
  repeat match goal with
         | X : negb _ = true |- _ => apply negb_true_iff in X
         | X : String.eqb _ _ = true |- _ => apply String.eqb_eq in X
         end.
  auto.
Qed.

Lemma clean_key_facts k :
  clean_key k ->
  k <> EmptyString /\ lower k = k /\ has_char nl k = false /\
  (forall x, has_char x k = true -> ConfigParser.is_delimiter x = false) /\
  lstrip k = k /\ rstrip k = k /\
  starts_with_char "#"%char k = false /\ starts_with_char ";"%char k = false /\
  starts_with_char "["%char k = false.
Proof.
  unfold clean_key, clean_keyb. intros H.
  repeat (apply andb_true_iff in H; destruct H as [H ?]).
  repeat match goal with
         | X : negb _ = true |- _ => apply negb_true_iff in X
         | X : String.eqb _ _ = true |- _ => apply String.eqb_eq in X
         end.
  repeat split; auto.
  - intros ->. discriminate.
  - intros x Hx. unfold ConfigParser.is_delimiter.
    rewrite (has_char_eqc "="%char x k), (has_char_eqc ":"%char x k); auto.
Qed.

Lemma clean_value_no_cr v : clean_value v -> has_char cr v = false.
Proof.
  unfold clean_value, clean_valueb. intros H.
  repeat (apply andb_true_iff in H; destruct H as [H ?]).
  repeat match goal with
         | X : negb _ = true |- _ => apply negb_true_iff in X
         end.
  assumption.
Qed.

Lemma clean_key_no_cr k : clean_key k -> has_char cr k = false.
Proof.
  unfold clean_key, clean_keyb. intros H.
  repeat (apply andb_true_iff in H; destruct H as [H ?]).
  repeat match goal with
         | X : negb _ = true |- _ => apply negb_true_iff in X
         end.
  assumption.
Qed.

Lemma clean_section_no_cr s : clean_section s -> has_char cr s = false.
Proof.
  unfold clean_section, clean_sectionb. intros H.
  repeat (apply andb_true_iff in H; destruct H as [H ?]).
  repeat match goal with
         | X : negb _ = true |- _ => apply negb_true_iff in X
         end.
  assumption.
Qed.

Lemma clean_section_facts s :
  clean_section s ->
  plain_section s /\ has_char nl s = false.
Proof.
  unfold clean_section, clean_sectionb. intros H.
  repeat (apply andb_true_iff in H; destruct H as [H ?]).
  repeat match goal with
         | X : negb _ = true |- _ => apply negb_true_iff in X
         end.
  split; [split |]; auto.
  - intros ->. discriminate.
  - apply String.eqb_neq. assumption.
Qed.

End Clean.

(** ** The reader on the lines the writer produces *)

Section ReaderLines.
Import Text ConfigParser.

Lemma lstrip_cons_kept (c : ascii) (s : string) :
  is_space c = false -> lstrip (String c s) = String c s.
Proof. intros H. simpl. rewrite H. reflexivity. Qed.

Lemma header_line_strip s : strip (header_line s) = header_line s.
Proof.
  change (header_line s) with (String "["%char (s +:+ "]")).
  unfold strip. rewrite lstrip_cons_kept by reflexivity.
  rewrite rstrip_cons_kept by reflexivity.
  rewrite rstrip_app_kept by discriminate. reflexivity.
Qed.

Lemma header_line_header s : s <> EmptyString -> sect_header (header_line s) = Some s.
Proof.
  intros Hs. change (header_line s) with (String "["%char (s +:+ "]")).
  unfold sect_header. change (eqc "["%char "["%char) with true.
  cbv iota. rewrite before_last_app. destruct s; [contradiction | reflexivity].
Qed.

Lemma ltb_0 n : (n <? 0) = false.
Proof. destruct n; reflexivity. Qed.

Lemma read_line_entry ps line value :
  is_comment line = false -> strip line = value -> truthy value = true ->
  first_nonspace line = 0 ->
  read_line ps line = read_entry ps value 0.
Proof.
  intros Hc Hs Ht Hf. unfold read_line. rewrite Hc, Hs, Ht, Hf, ltb_0. simpl.
  destruct (p_cursect ps); [| reflexivity].
  destruct (opt_truthy (p_optname ps)); reflexivity.
Qed.

Lemma read_header_existing ps s :
  s <> EmptyString ->
  OrderedDict.mem (sections (p_store ps)) s = true ->
  in_strings s (p_added_sections ps) = false ->
  read_line ps (header_line s)
  = Ret (PState (p_store ps) (Some (InSection s)) None 0
           (s :: p_added_sections ps) (p_added_options ps) (p_error ps)).
Proof.
  intros Hs Hmem Hadd.
  rewrite (read_line_entry ps _ (header_line s)).
  - unfold read_entry. rewrite (header_line_header s Hs), Hmem, Hadd.
    reflexivity.
  - unfold is_comment. rewrite header_line_strip. reflexivity.
  - apply header_line_strip.
  - reflexivity.
  - reflexivity.
Qed.

Lemma read_header_default ps :
  OrderedDict.mem (sections (p_store ps)) default_section = false ->
  read_line ps (header_line default_section)
  = Ret (PState (p_store ps) (Some InDefaults) None 0
           (p_added_sections ps) (p_added_options ps) (p_error ps)).
Proof.
  intros Hmem.
  rewrite (read_line_entry ps _ (header_line default_section));
    try reflexivity.
  unfold read_entry.
  rewrite (header_line_header default_section) by discriminate.
  rewrite Hmem. reflexivity.
Qed.

Lemma item_value v :
  clean_value v -> strip (lstrip (rstrip (String " "%char v))) = v.
Proof.
  intros Hv. destruct (clean_value_facts v Hv) as (_ & _ & Hl & Hr).
  destruct v as [|c v]; [reflexivity |].
  assert (E : rstrip (String " "%char (String c v)) = String " "%char (String c v)).
  { change (rstrip (String " "%char (String c v)))
      with (match rstrip (String c v) with
            | EmptyString => EmptyString
            | r => String " "%char r
            end).
    rewrite Hr. reflexivity. }
  rewrite E. change (lstrip (String " "%char (String c v))) with (lstrip (String c v)).
  rewrite Hl. unfold strip. rewrite Hl, Hr. reflexivity.
Qed.

Lemma item_line_strip k v :
  clean_key k ->
  strip (item_line (k, v))
  = (k +:+ " ") +:+ String "="%char (rstrip (String " "%char v)).
Proof.
  intros Hk. destruct (clean_key_facts k Hk) as (Hne & _ & _ & _ & Hl & _).
  unfold item_line, strip. simpl fst. simpl snd.
  rewrite (lstrip_fixed_app k _ Hne Hl).
  change (k +:+ " = " +:+ v)
    with (k +:+ (" " +:+ String "="%char (String " "%char v))).
  rewrite <- app_assoc_s.
  rewrite rstrip_app_kept.
  - rewrite rstrip_cons_kept by reflexivity. reflexivity.
  - rewrite rstrip_cons_kept by reflexivity. discriminate.
Qed.

Lemma read_item ps c k v :
  p_cursect ps = Some c -> clean_key k -> clean_value v ->
  in_pairs (sectname_of c, k) (p_added_options ps) = false ->
  read_line ps (item_line (k, v))
  = Ret (PState (cur_set (p_store ps) c k (PList [v])) (Some c) (Some k) 0
           (p_added_sections ps)
           ((sectname_of c, k) :: p_added_options ps) (p_error ps)).
Proof.
  intros Hc Hk Hv Hadd.
  destruct (clean_key_facts k Hk)
    as (Hne & Hlow & _ & Hdel & Hl & Hr & H1 & H2 & H3).
  destruct (lstrip_fixed_head k Hne Hl) as (a & k' & Ek & Ha).
  pose proof (item_line_strip k v Hk) as Hs.
  rewrite (read_line_entry ps _ ((k +:+ " ") +:+ String "="%char
                                   (rstrip (String " "%char v)))).
  - unfold read_entry.
    assert (Hh : sect_header ((k +:+ " ") +:+ String "="%char
                                (rstrip (String " "%char v))) = None).
    { rewrite Ek in *. simpl in H3. simpl. rewrite H3. reflexivity. }
    rewrite Hh, Hc. unfold opt_match.
    rewrite (split_first_app is_delimiter (k +:+ " ")).
    + rewrite (rstrip_app_blank k " ") by reflexivity.
      rewrite Hr, Hr. unfold optionxform. rewrite Hlow, Hadd.
      rewrite (item_value v Hv).
      assert (Ht : truthy k = true) by (rewrite Ek; reflexivity).
      rewrite Ht. simpl. rewrite orb_false_r. reflexivity.
    + intros x Hx. rewrite has_char_app in Hx.
      apply orb_true_iff in Hx. destruct Hx as [Hx | Hx]; [apply Hdel, Hx |].
      change (has_char x " ") with (eqc " "%char x || false) in Hx.
      rewrite orb_false_r in Hx. unfold eqc in Hx.
      apply Ascii.eqb_eq in Hx. subst x. reflexivity.
    + reflexivity.
  - unfold is_comment. rewrite Hs. rewrite Ek in *. simpl in H1, H2. simpl.
    rewrite H1, H2. reflexivity.
  - exact Hs.
  - rewrite Ek. reflexivity.
  - unfold item_line. simpl fst. rewrite Ek. apply first_nonspace_head, Ha.
Qed.

Lemma read_blank_after ps c k l :
  p_cursect ps = Some c -> p_optname ps = Some k -> k <> EmptyString ->
  OrderedDict.get (cur_dict (p_store ps) c) k = Some (PList l) ->
  read_line ps EmptyString
  = Ret (PState (cur_set (p_store ps) c k (PList (l ++ [EmptyString])))
           (Some c) (Some k) (p_indent ps) (p_added_sections ps)
           (p_added_options ps) (p_error ps)).
Proof.
  intros Hc Ho Hk Hg. unfold read_line. simpl.
  rewrite Hc, Ho. unfold opt_truthy.
  destruct k; [contradiction |]. simpl.
  unfold cur_append. rewrite Hg. reflexivity.
Qed.

Lemma read_blank_none ps :
  p_optname ps = None -> read_line ps EmptyString = Ret ps.
Proof.
  intros Ho. unfold read_line. simpl. rewrite Ho.
  destruct (p_cursect ps); reflexivity.
Qed.

End ReaderLines.

(** ** Dictionaries related value by value *)

Section RelDict.
Context {V W : Type} (R : V -> W -> Prop).

Lemma rel_get pd d k v :
  rel_dict R pd d -> OrderedDict.get d k = Some v ->
  exists pv, OrderedDict.get pd k = Some pv /\ R pv v.
Proof.
  induction 1 as [|[k1 pv1] [k2 v2] pd d [Hk Hv] _ IH]; simpl;
    [discriminate |].
  simpl in Hk, Hv. subst k2.
  destruct (String.eqb k1 k); [| exact IH].
  intros [= <-]. eauto.
Qed.

Lemma rel_get_none pd d k :
  rel_dict R pd d -> OrderedDict.get d k = None ->
  OrderedDict.get pd k = None.
Proof.
  induction 1 as [|[k1 pv1] [k2 v2] pd d [Hk Hv] _ IH]; simpl;
    [reflexivity |].
  simpl in Hk. subst k2.
  destruct (String.eqb k1 k); [discriminate | exact IH].
Qed.

Lemma rel_set pd d k v pv :
  rel_dict R pd d -> OrderedDict.get d k = Some v -> R pv v ->
  rel_dict R (OrderedDict.set pd k pv) d.
Proof.
  intros H Hg Hr. revert Hg.
  induction H as [|[k1 pv1] [k2 v2] pd d [Hk Hv] Hrest IH]; simpl;
    [discriminate |].
  simpl in Hk, Hv. subst k2.
  destruct (String.eqb k1 k).
  - intros [= <-]. constructor; [split; [reflexivity | exact Hr] | exact Hrest].
  - intros Hg. constructor; [split; [reflexivity | exact Hv] | exact (IH Hg)].
Qed.

End RelDict.

Section StoreRep.
Import Text ConfigParser.

Lemma to_pval_rep d : dict_rep (to_pval d) d.
Proof.
  induction d as [|[k v] d IH]; simpl; constructor; [| exact IH].
  split; [reflexivity | left; reflexivity].
Qed.

Lemma start_state_rep cfg : store_rep (p_store (start_state cfg)) cfg.
Proof.
  unfold start_state, store_rep. simpl. split; [apply to_pval_rep |].
  induction (sections cfg) as [|[s d] l IH]; simpl; constructor; [| exact IH].
  split; [reflexivity | apply to_pval_rep].
Qed.

Lemma cur_dict_rep st cfg c d :
  store_rep st cfg -> cfg_dict cfg c = Some d -> dict_rep (cur_dict st c) d.
Proof.
  intros [HD HS] Hc. destruct c as [|n]; simpl in *.
  - injection Hc as <-. exact HD.
  - destruct (rel_get _ _ _ _ _ HS Hc) as (pd & -> & Hpd). exact Hpd.
Qed.

Lemma cur_set_rep st cfg c d k v pv :
  store_rep st cfg -> cfg_dict cfg c = Some d ->
  OrderedDict.get d k = Some v -> val_rep pv v ->
  store_rep (cur_set st c k pv) cfg.
Proof.
  intros Hrep Hc Hg Hv.
  pose proof (cur_dict_rep _ _ _ _ Hrep Hc) as Hcd.
  destruct Hrep as [HD HS]. destruct c as [|n]; simpl in *.
  - injection Hc as <-. split; [| exact HS].
    eapply rel_set; eassumption.
  - split; [exact HD |].
    eapply rel_set; [exact HS | exact Hc |].
    eapply rel_set; eassumption.
Qed.

Lemma cur_get_set st c k pv :
  OrderedDict.get (cur_dict (cur_set st c k pv) c) k = Some pv.
Proof.
  destruct c as [|n]; simpl.
  - apply dict_get_set_eq.
  - rewrite dict_get_set_eq. apply dict_get_set_eq.
Qed.

Lemma join_dict_rep pd d :
  dict_rep pd d -> Forall (fun kv => rstrip (snd kv) = snd kv) d ->
  join_dict pd = d.
Proof.
  induction 1 as [|[k1 pv] [k2 v] pd d [Hk Hv] _ IH]; simpl;
    [reflexivity |].
  intros Hall. inversion Hall as [|? ? Hr Hall']; subst.
  simpl in Hk, Hv, Hr. subst k2. rewrite (IH Hall'). f_equal. f_equal.
  destruct Hv as [-> | [-> | ->]]; simpl.
  - reflexivity.
  - rewrite app_nil_r_s || idtac. exact Hr.
  - change (rstrip (v +:+ NL +:+ EmptyString) = v).
    change (NL +:+ EmptyString) with NL.
    rewrite rstrip_app_blank by reflexivity. exact Hr.
Qed.

End StoreRep.

Section ReaderSections.
Import Text ConfigParser.

Lemma in_pairs_cons x y l :
  in_pairs x (y :: l)
  = (String.eqb (fst x) (fst y) && String.eqb (snd x) (snd y)) || in_pairs x l.
Proof. reflexivity. Qed.

Lemma read_items (rest : list string) cfg c d : forall todo ps,
  p_cursect ps = Some c -> cfg_dict cfg c = Some d ->
  store_rep (p_store ps) cfg -> opt_ok ps c d ->
  Forall (clean_item d) todo ->
  List.NoDup (OrderedDict.keys todo) ->
  (forall k, In k (OrderedDict.keys todo) ->
             in_pairs (sectname_of c, k) (p_added_options ps) = false) ->
  exists ps',
    read_lines ps (map item_line todo ++ rest) = read_lines ps' rest /\
    p_cursect ps' = Some c /\ store_rep (p_store ps') cfg /\ opt_ok ps' c d /\
    p_error ps' = p_error ps /\
    p_added_sections ps' = p_added_sections ps /\
    (forall s k, in_pairs (s, k) (p_added_options ps') = true ->
       in_pairs (s, k) (p_added_options ps) = true \/ s = sectname_of c).
Proof.
  induction todo as [|[k v] todo IH]; intros ps Hc Hd Hrep Hopt Hall Hnd Hfresh.
  - exists ps. simpl.
    repeat (split; [first [reflexivity | assumption] |]).
    intros s k H. left. exact H.
  - inversion Hall as [|? ? [Hg [Hk Hv]] Hall']; subst. simpl in Hg, Hk, Hv.
    simpl in Hnd. inversion Hnd as [|? ? Hnk Hnd']; subst.
    simpl map. simpl app. simpl read_lines.
    rewrite (read_item ps c k v Hc Hk Hv)
      by (apply Hfresh; left; reflexivity).
    simpl rbind.
    set (ps1 := PState _ _ _ _ _ _ _).
    destruct (IH ps1) as (ps' & Hrun & Hc' & Hrep' & Hopt' & He & Hs & Ho).
    + reflexivity.
    + exact Hd.
    + simpl. eapply cur_set_rep; eauto. right. left. reflexivity.
    + unfold opt_ok. simpl. split.
      * exact (proj1 (clean_key_facts k Hk)).
      * exists v. split; [apply cur_get_set | exact Hg].
    + exact Hall'.
    + exact Hnd'.
    + intros k' Hk'. simpl p_added_options. rewrite in_pairs_cons. simpl fst.
      simpl snd. rewrite Hfresh by (right; exact Hk').
      rewrite orb_false_r. apply andb_false_iff. right.
      apply String.eqb_neq. intros ->. exact (Hnk Hk').
    + exists ps'. split; [exact Hrun |].
      repeat (split; [first [reflexivity | assumption] |]).
      intros s k0 Hin. destruct (Ho s k0 Hin) as [H1 | H1]; [| right; exact H1].
      change (p_added_options ps1)
        with ((sectname_of c, k) :: p_added_options ps) in H1.
      rewrite in_pairs_cons in H1.
      apply orb_true_iff in H1. destruct H1 as [H1 | H1]; [| left; exact H1].
      right. apply andb_true_iff in H1. destruct H1 as [H1 _].
      apply String.eqb_eq in H1. exact H1.
Qed.

(** The blank line closing a section. *)
Lemma read_closing_blank ps cfg c d :
  p_cursect ps = Some c -> cfg_dict cfg c = Some d ->
  store_rep (p_store ps) cfg -> opt_ok ps c d ->
  exists ps',
    read_line ps EmptyString = Ret ps' /\
    store_rep (p_store ps') cfg /\ p_error ps' = p_error ps /\
    p_added_sections ps' = p_added_sections ps /\
    p_added_options ps' = p_added_options ps.
Proof.
  intros Hc Hd Hrep Hopt. unfold opt_ok in Hopt.
  destruct (p_optname ps) as [k|] eqn:Ho.
  - destruct Hopt as (Hk & v & Hg & Hv).
    rewrite (read_blank_after ps c k [v] Hc Ho Hk Hg).
    eexists. split; [reflexivity |]. simpl.
    split; [| repeat split].
    eapply cur_set_rep; eauto. right. right. reflexivity.
  - rewrite (read_blank_none ps Ho). exists ps.
    split; [reflexivity |]. split; [exact Hrep | repeat split].
Qed.

End ReaderSections.

Section ReaderFile.
Import Text ConfigParser.

Arguments section_lines : simpl never.

Lemma clean_dict_items d : clean_dict d -> Forall (clean_item d) d.
Proof.
  intros [Hnd Hall]. apply List.Forall_forall. intros [k v] Hin.
  pose proof (proj1 (List.Forall_forall _ _) Hall _ Hin) as [Hk Hv].
  split; [apply dict_in_get; assumption | split; assumption].
Qed.

Lemma read_section_body (rest : list string) cfg c d ps :
  p_cursect ps = Some c -> p_optname ps = None ->
  cfg_dict cfg c = Some d -> store_rep (p_store ps) cfg -> clean_dict d ->
  (forall k, in_pairs (sectname_of c, k) (p_added_options ps) = false) ->
  exists ps',
    read_lines ps (map item_line d ++ [EmptyString] ++ rest)
    = read_lines ps' rest /\
    store_rep (p_store ps') cfg /\ p_error ps' = p_error ps /\
    p_added_sections ps' = p_added_sections ps /\
    (forall s k, in_pairs (s, k) (p_added_options ps') = true ->
       in_pairs (s, k) (p_added_options ps) = true \/ s = sectname_of c).
Proof.
  intros Hc Ho Hd Hrep Hclean Hfresh.
  destruct (read_items ([EmptyString] ++ rest) cfg c d d ps)
    as (ps1 & Hrun & Hc1 & Hrep1 & Hopt1 & He1 & Hs1 & Ho1); auto.
  - unfold opt_ok. rewrite Ho. exact I.
  - apply clean_dict_items, Hclean.
  - exact (proj1 Hclean).
  - destruct (read_closing_blank ps1 cfg c d Hc1 Hd Hrep1 Hopt1)
      as (ps2 & Hblank & Hrep2 & He2 & Hs2 & Ho2).
    exists ps2. rewrite Hrun. simpl. rewrite Hblank. simpl.
    split; [reflexivity |]. split; [exact Hrep2 |].
    split; [congruence |]. split; [congruence |].
    rewrite Ho2. exact Ho1.
Qed.

Lemma read_sections (rest : list string) cfg : forall secs ps,
  store_rep (p_store ps) cfg ->
  Forall (fun sd =>
            OrderedDict.get (sections cfg) (fst sd) = Some (snd sd) /\
            clean_section (fst sd) /\ clean_dict (snd sd)) secs ->
  List.NoDup (OrderedDict.keys secs) ->
  (forall s, In s (OrderedDict.keys secs) -> fresh_for ps s) ->
  exists ps',
    read_lines ps
      (concat (map (fun sd => section_lines (fst sd) (snd sd)) secs) ++ rest)
    = read_lines ps' rest /\
    store_rep (p_store ps') cfg /\ p_error ps' = p_error ps.
Proof.
  induction secs as [|[s d] secs IH]; intros ps Hrep Hall Hnd Hfresh.
  - exists ps. simpl. auto.
  - inversion Hall as [|? ? (Hg & Hs & Hd) Hall']; subst.
    simpl in Hg, Hs, Hd. simpl in Hnd.
    inversion Hnd as [|? ? Hns Hnd']; subst.
    destruct (clean_section_facts s Hs) as [[Hne Hdef] _].
    destruct (Hfresh s (or_introl eq_refl)) as [Hfs Hfo].
    simpl concat. simpl fst. simpl snd. unfold section_lines at 1.
    simpl app. simpl read_lines.
    rewrite read_header_existing; [| exact Hne | | exact Hfs].
    2: { unfold OrderedDict.mem.
         destruct (rel_get _ _ _ _ _ (proj2 Hrep) Hg) as (pd & -> & _).
         reflexivity. }
    simpl rbind. set (ps1 := PState _ _ _ _ _ _ _).
    rewrite <- !app_assoc.
    destruct (read_section_body
                (concat (map (fun sd => section_lines (fst sd) (snd sd)) secs)
                 ++ rest) cfg (InSection s) d ps1)
      as (ps2 & Hrun & Hrep2 & He2 & Hs2 & Ho2); auto.
    destruct (IH ps2 Hrep2 Hall' Hnd') as (ps3 & Hrun3 & Hrep3 & He3).
    + intros s2 Hs2in. destruct (Hfresh s2 (or_intror Hs2in)) as [Hf1 Hf2].
      assert (Hne2 : s2 <> s) by (intros ->; exact (Hns Hs2in)).
      split.
      * rewrite Hs2. simpl. rewrite Hf1, orb_false_r.
        apply String.eqb_neq. exact Hne2.
      * intros k. destruct (in_pairs (s2, k) (p_added_options ps2)) eqn:E;
          [| reflexivity].
        destruct (Ho2 s2 k E) as [H | H]; [| contradiction].
        simpl in H. rewrite Hf2 in H. discriminate.
    + exists ps3. split; [| split; [exact Hrep3 |]].
      * etransitivity; [exact Hrun | exact Hrun3].
      * rewrite He3, He2. reflexivity.
Qed.

End ReaderFile.

Section WriterLines.
Import Text ConfigParser.

Lemma concat_cons_s (x : string) (l : list string) :
  String.concat EmptyString (x :: l) = x +:+ String.concat EmptyString l.
Proof. destruct l; simpl; [rewrite app_nil_r_s |]; reflexivity. Qed.

Lemma concat_app_s (l1 l2 : list string) :
  String.concat EmptyString (l1 ++ l2)
  = String.concat EmptyString l1 +:+ String.concat EmptyString l2.
Proof.
  induction l1 as [|x l1 IH]; [reflexivity |].
  rewrite <- app_comm_cons, !concat_cons_s, IH, app_assoc_s. reflexivity.
Qed.

Lemma text_of_cons (l : string) (ls : list string) :
  text_of (l :: ls) = l +:+ String nl (text_of ls).
Proof.
  unfold text_of. rewrite map_cons, concat_cons_s, app_assoc_s. reflexivity.
Qed.

Lemma text_of_app (l1 l2 : list string) :
  text_of (l1 ++ l2) = text_of l1 +:+ text_of l2.
Proof. unfold text_of. rewrite map_app. apply concat_app_s. Qed.

Lemma split_lf_text_of (lines : list string) :
  Forall (fun l => has_char nl l = false) lines ->
  split_lf (text_of lines) = lines.
Proof.
  induction 1 as [|l ls Hl _ IH]; [reflexivity |].
  rewrite text_of_cons, (split_lf_line _ _ Hl), IH. reflexivity.
Qed.

Lemma indent_newlines_id v : has_char nl v = false -> indent_newlines v = v.
Proof.
  induction v as [|c v IH]; simpl; [reflexivity |].
  intros H. apply orb_false_iff in H. destruct H as [Hc Hv].
  rewrite Hc, (IH Hv). reflexivity.
Qed.

Lemma write_items_lines d :
  Forall (fun kv => has_char nl (snd kv) = false) d ->
  String.concat EmptyString (map write_item d) = text_of (map item_line d).
Proof.
  induction 1 as [|[k v] d Hv _ IH]; [reflexivity |].
  simpl map. rewrite concat_cons_s, text_of_cons, IH.
  unfold write_item, item_line. simpl fst. simpl snd. simpl in Hv.
  rewrite (indent_newlines_id v Hv), !app_assoc_s. reflexivity.
Qed.

Lemma write_section_lines name d :
  Forall (fun kv => has_char nl (snd kv) = false) d ->
  write_section name d = text_of (section_lines name d).
Proof.
  intros Hd. unfold write_section, section_lines.
  rewrite text_of_cons, text_of_app, (write_items_lines d Hd).
  unfold header_line. rewrite !app_assoc_s. reflexivity.
Qed.

Lemma clean_dict_no_nl d :
  clean_dict d -> Forall (fun kv => has_char nl (snd kv) = false) d.
Proof.
  intros [_ H]. eapply Forall_impl; [exact H |].
  intros kv [_ Hv]. exact (proj1 (clean_value_facts _ Hv)).
Qed.

Lemma write_lines cfg : clean_parser cfg -> write cfg = text_of (all_lines cfg).
Proof.
  intros (HD & _ & HS). unfold write, all_lines. rewrite text_of_app.
  f_equal.
  - destruct (defaults cfg) eqn:E; [reflexivity |].
    rewrite <- E in *. apply write_section_lines, clean_dict_no_nl, HD.
  - induction HS as [|[s d] l [_ Hd] _ IH]; [reflexivity |].
    rewrite !map_cons, List.concat_cons, concat_cons_s, text_of_app, IH.
    simpl fst. simpl snd.
    rewrite (write_section_lines s d (clean_dict_no_nl d Hd)). reflexivity.
Qed.

End WriterLines.

Section RoundTrip.
Import Text ConfigParser.

Arguments section_lines : simpl never.

Lemma section_lines_no_nl name d :
  has_char nl name = false -> clean_dict d ->
  Forall (fun l => has_char nl l = false) (section_lines name d).
Proof.
  intros Hn [_ Hd]. unfold section_lines. constructor.
  - unfold header_line. rewrite !has_char_app, Hn. reflexivity.
  - apply Forall_app. split; [| repeat constructor].
    apply List.Forall_forall. intros l Hl.
    apply in_map_iff in Hl. destruct Hl as ([k v] & <- & Hin).
    pose proof (proj1 (List.Forall_forall _ _) Hd _ Hin) as [Hk Hv].
    simpl in Hk, Hv.
    destruct (clean_key_facts k Hk) as (_ & _ & Hkn & _).
    destruct (clean_value_facts v Hv) as (Hvn & _).
    unfold item_line. simpl fst. simpl snd.
    rewrite !has_char_app, Hkn, Hvn. reflexivity.
Qed.

Lemma all_lines_no_nl cfg :
  clean_parser cfg -> Forall (fun l => has_char nl l = false) (all_lines cfg).
Proof.
  intros (HD & _ & HS). unfold all_lines. apply Forall_app. split.
  - destruct (defaults cfg) eqn:E; [constructor |]. rewrite <- E in *.
    apply section_lines_no_nl; [reflexivity | exact HD].
  - induction HS as [|[s d] l [Hs Hd] _ IH]; [constructor |].
    rewrite map_cons, List.concat_cons. apply Forall_app. split; [| exact IH].
    apply section_lines_no_nl; [| exact Hd].
    exact (proj2 (clean_section_facts s Hs)).
Qed.

Lemma section_lines_no_cr name d :
  has_char cr name = false -> clean_dict d ->
  Forall (fun l => has_char cr l = false) (section_lines name d).
Proof.
  intros Hn [_ Hd]. unfold section_lines. constructor.
  - unfold header_line. rewrite !has_char_app, Hn. reflexivity.
  - apply Forall_app. split; [| repeat constructor].
    apply List.Forall_forall. intros l Hl.
    apply in_map_iff in Hl. destruct Hl as ([k v] & <- & Hin).
    pose proof (proj1 (List.Forall_forall _ _) Hd _ Hin) as [Hk Hv].
    simpl in Hk, Hv.
    unfold item_line. simpl fst. simpl snd.
    rewrite !has_char_app, (clean_key_no_cr k Hk), (clean_value_no_cr v Hv).
    reflexivity.
Qed.

Lemma all_lines_no_cr cfg :
  clean_parser cfg -> Forall (fun l => has_char cr l = false) (all_lines cfg).
Proof.
  intros (HD & _ & HS). unfold all_lines. apply Forall_app. split.
  - destruct (defaults cfg) eqn:E; [constructor |]. rewrite <- E in *.
    apply section_lines_no_cr; [reflexivity | exact HD].
  - induction HS as [|[s d] l [Hs Hd] _ IH]; [constructor |].
    rewrite map_cons, List.concat_cons. apply Forall_app. split; [| exact IH].
    apply section_lines_no_cr; [| exact Hd].
    exact (clean_section_no_cr s Hs).
Qed.

Lemma text_of_no_cr lines :
  Forall (fun l => has_char cr l = false) lines ->
  has_char cr (text_of lines) = false.
Proof.
  induction 1 as [|l ls Hl _ IH]; [reflexivity |].
  rewrite text_of_cons, has_char_app, Hl.
  change (String nl (text_of ls)) with (NL +:+ text_of ls).
  rewrite has_char_app, IH. reflexivity.
Qed.

Lemma universal_newlines_id s :
  has_char cr s = false -> universal_newlines s = s.
Proof.
  induction s as [|c s IH]; [reflexivity |].
  intros H. cbn [has_char] in H. apply orb_false_iff in H.
  destruct H as [Hc Hs]. cbn [universal_newlines]. rewrite Hc, (IH Hs).
  reflexivity.
Qed.

(** A text without carriage returns is read as it is stored. *)
Lemma readlines_text_of lines :
  Forall (fun l => has_char nl l = false) lines ->
  Forall (fun l => has_char cr l = false) lines ->
  readlines (text_of lines) = lines.
Proof.
  intros Hn Hc. unfold readlines.
  rewrite (universal_newlines_id _ (text_of_no_cr _ Hc)).
  apply split_lf_text_of, Hn.
Qed.

Lemma clean_dict_rstrip d :
  clean_dict d -> Forall (fun kv => rstrip (snd kv) = snd kv) d.
Proof.
  intros [_ H]. eapply Forall_impl; [exact H |].
  intros kv [_ Hv]. destruct (clean_value_facts _ Hv) as (_ & _ & _ & Hr).
  exact Hr.
Qed.

Lemma join_store_rep st cfg :
  store_rep st cfg -> clean_parser cfg -> join_multiline_values st = cfg.
Proof.
  intros [HD HS] (HcD & _ & HcS). unfold join_multiline_values.
  rewrite (join_dict_rep _ _ HD (clean_dict_rstrip _ HcD)).
  destruct cfg as [D S]. simpl in *. f_equal.
  clear HD HcD. induction HS as [|[s1 pd] [s2 d] st' S [Hk Hd] _ IH]; simpl;
    [reflexivity |].
  inversion HcS as [|? ? [_ Hc] HcS']; subst. simpl in Hk, Hd, Hc. subst s2.
  rewrite (IH HcS'), (join_dict_rep _ _ Hd (clean_dict_rstrip _ Hc)).
  reflexivity.
Qed.

Lemma clean_sections_lookup cfg :
  clean_parser cfg ->
  Forall (fun sd =>
            OrderedDict.get (sections cfg) (fst sd) = Some (snd sd) /\
            clean_section (fst sd) /\ clean_dict (snd sd)) (sections cfg).
Proof.
  intros (_ & Hnd & HS). apply List.Forall_forall. intros [s d] Hin.
  pose proof (proj1 (List.Forall_forall _ _) HS _ Hin) as [Hs Hd].
  split; [apply dict_in_get; assumption | split; assumption].
Qed.

Lemma clean_no_default_section cfg :
  clean_parser cfg ->
  OrderedDict.get (sections cfg) default_section = None.
Proof.
  intros (_ & _ & HS). apply dict_get_none. intros Hin.
  unfold OrderedDict.keys in Hin. apply in_map_iff in Hin.
  destruct Hin as ([s d] & Hs & Hin). simpl in Hs. subst s.
  pose proof (proj1 (List.Forall_forall _ _) HS _ Hin) as [Hc _].
  destruct (clean_section_facts _ Hc) as [[_ Hne] _]. apply Hne. reflexivity.
Qed.

End RoundTrip.

Section RoundTripMain.
Import Text ConfigParser.

Arguments section_lines : simpl never.

Lemma read_default_section (rest : list string) cfg :
  clean_parser cfg ->
  exists ps1,
    read_lines (start_state cfg)
      ((match defaults cfg with
        | [] => []
        | _ => section_lines default_section (defaults cfg)
        end) ++ rest)
    = read_lines ps1 rest /\
    store_rep (p_store ps1) cfg /\ p_error ps1 = false /\
    p_added_sections ps1 = [] /\
    (forall s k, in_pairs (s, k) (p_added_options ps1) = true ->
                 s = default_section).
Proof.
  intros Hc.
  destruct (defaults cfg) as [|kv D] eqn:E.
  - exists (start_state cfg). simpl.
    split; [reflexivity |]. split; [apply start_state_rep |].
    repeat split. intros s k H. discriminate H.
  - rewrite <- E. unfold section_lines. simpl app. simpl read_lines.
    rewrite read_header_default.
    2: { unfold OrderedDict.mem.
         rewrite (rel_get_none _ _ _ _ (proj2 (start_state_rep cfg))
                    (clean_no_default_section cfg Hc)).
         reflexivity. }
    simpl rbind. set (ps0 := PState _ _ _ _ _ _ _).
    rewrite <- app_assoc.
    destruct (read_section_body rest cfg InDefaults (defaults cfg) ps0)
      as (ps1 & Hrun & Hrep & He & Hs & Ho); try reflexivity.
    + apply start_state_rep.
    + exact (proj1 Hc).
    + exists ps1. split; [exact Hrun |]. split; [exact Hrep |].
      split; [rewrite He; reflexivity |]. split; [rewrite Hs; reflexivity |].
      intros s k H. destruct (Ho s k H) as [H' | H']; [discriminate H' | exact H'].
Qed.

(** Reading back what the writer wrote for a clean parser changes
    nothing. *)
Lemma read_write_roundtrip cfg :
  clean_parser cfg -> read_text cfg (write cfg) = Ret cfg.
Proof.
  intros Hc. unfold read_text.
  rewrite (write_lines cfg Hc),
    (readlines_text_of _ (all_lines_no_nl cfg Hc) (all_lines_no_cr cfg Hc)).
  unfold all_lines.
  destruct (read_default_section
              (concat (map (fun sd => section_lines (fst sd) (snd sd))
                         (sections cfg))) cfg Hc)
    as (ps1 & Hrun1 & Hrep1 & He1 & Hs1 & Ho1).
  rewrite Hrun1.
  destruct (read_sections [] cfg (sections cfg) ps1 Hrep1
              (clean_sections_lookup cfg Hc) (proj1 (proj2 Hc)))
    as (ps2 & Hrun2 & Hrep2 & He2).
  - intros s Hs. split.
    + rewrite Hs1. reflexivity.
    + intros k. destruct (in_pairs (s, k) (p_added_options ps1)) eqn:E;
        [| reflexivity].
      pose proof (Ho1 s k E) as ->. exfalso.
      pose proof (clean_no_default_section cfg Hc) as Hn.
      apply dict_get_none in Hn. exact (Hn Hs).
  - rewrite app_nil_r in Hrun2. rewrite Hrun2. simpl.
    rewrite He2, He1. f_equal. apply join_store_rep; assumption.
Qed.

End RoundTripMain.

(** ** Values without an interpolation sign *)

Section NoInterpolation.
Import Text ConfigParser.

Lemma interpolate_loop_plain deeper lookup n rest accum :
  has_char "%"%char rest = false ->
  interpolate_loop deeper lookup (S n) rest accum = Ret (accum +:+ rest).
Proof.
  intros Hv. destruct rest as [|c v].
  - simpl. rewrite app_nil_r_s. reflexivity.
  - assert (Hs : split_first is_percent (String c v) = None).
    { apply split_first_none. intros x Hx. unfold is_percent.
      eapply has_char_eqc; eassumption. }
    unfold interpolate_loop. change (truthy (String c v)) with true.
    cbv iota. rewrite Hs. reflexivity.
Qed.

Lemma before_get_plain lookup v :
  has_char "%"%char v = false -> before_get lookup v = Ret v.
Proof.
  intros Hv. unfold before_get, MAX_INTERPOLATION_DEPTH.
  unfold interpolate_some at 1. fold interpolate_some.
  apply (interpolate_loop_plain _ lookup _ v EmptyString Hv).
Qed.

Lemma drop_escaped_plain v :
  has_char "%"%char v = false -> drop_escaped v = v.
Proof.
  induction v as [|a v IH]; [reflexivity |].
  intros H. simpl in H. apply orb_false_iff in H. destruct H as [Ha Hv].
  simpl. destruct v as [|b v']; [reflexivity |].
  rewrite Ha. simpl andb. cbv iota. rewrite (IH Hv). reflexivity.
Qed.

Lemma keycre_sub_plain n : forall v,
  has_char "%"%char v = false -> keycre_sub n v = v.
Proof.
  induction n as [|n IH]; intros v Hv; [reflexivity |].
  destruct v as [|a v]; [reflexivity |].
  simpl in Hv. apply orb_false_iff in Hv. destruct Hv as [Ha Hv].
  assert (Hm : keycre_match (String a v) = None).
  { unfold keycre_match. destruct v; [reflexivity |]. rewrite Ha. reflexivity. }
  simpl. simpl in Hm. rewrite Hm, (IH v Hv). reflexivity.
Qed.

Lemma before_set_plain v :
  has_char "%"%char v = false ->
  (if truthy v then before_set v else Ret v) = Ret v.
Proof.
  intros Hv. destruct (truthy v); [| reflexivity].
  unfold before_set.
  rewrite (drop_escaped_plain v Hv), (keycre_sub_plain _ v Hv), Hv.
  reflexivity.
Qed.

Lemma map_result_plain (lookup : string -> option string)
    (l : list (string * string)) :
  Forall (fun kv => has_char "%"%char (snd kv) = false) l ->
  map_result
    (fun kv : string * string =>
       let* v := before_get lookup (snd kv) in Ret (fst kv, v)) l
  = Ret l.
Proof.
  induction 1 as [|[k v] l Hv _ IH]; simpl; [reflexivity |].
  rewrite (before_get_plain lookup v Hv). simpl. rewrite IH. reflexivity.
Qed.

End NoInterpolation.

Lemma forall_set {V} (P : string * V -> Prop) (d : OrderedDict.t V) k v :
  Forall P d -> P (k, v) -> Forall P (OrderedDict.set d k v).
Proof.
  intros Hd Hkv. induction Hd as [|[k' v'] d Hx Hd IH]; simpl.
  - repeat constructor. exact Hkv.
  - destruct (String.eqb_spec k' k) as [-> | Hne].
    + constructor; assumption.
    + constructor; assumption.
Qed.

(** ** Saving a clean parser *)

Section SaveClean.
Import Text ConfigParser.

Lemma clean_dict_set d k v :
  clean_dict d -> clean_key k -> clean_value v ->
  clean_dict (OrderedDict.set d k v).
Proof.
  intros [Hnd Hall] Hk Hv. split; [apply dict_set_nodup, Hnd |].
  apply forall_set; [exact Hall | split; assumption].
Qed.

Lemma clean_dict_update e : forall d,
  clean_dict d -> clean_dict e -> clean_dict (OrderedDict.update d e).
Proof.
  unfold OrderedDict.update.
  induction e as [|[k v] e IH]; intros d Hd [Hnd He]; simpl; [exact Hd |].
  inversion He as [|? ? [Hk Hv] He']; subst. simpl in Hk, Hv.
  simpl in Hnd. inversion Hnd as [|? ? _ Hnd']; subst.
  apply IH; [apply clean_dict_set; assumption | split; assumption].
Qed.

Lemma clean_dict_sorted l : clean_dict l -> clean_dict (sorted l).
Proof.
  intros [Hnd Hall]. split.
  - eapply Permutation_NoDup; [symmetry; apply sorted_keys_perm | exact Hnd].
  - eapply Permutation_Forall; [symmetry; apply sorted_perm | exact Hall].
Qed.

Lemma clean_dict_plain d :
  clean_dict d -> Forall (fun kv => has_char "%"%char (snd kv) = false) d.
Proof.
  intros [_ H]. eapply Forall_impl; [exact H |].
  intros kv [_ Hv]. destruct (clean_value_facts _ Hv) as (_ & Hp & _).
  exact Hp.
Qed.

Lemma clean_dict_lower d :
  clean_dict d -> Forall (fun kv => lower (fst kv) = fst kv) d.
Proof.
  intros [_ H]. eapply Forall_impl; [exact H |].
  intros kv [Hk _]. destruct (clean_key_facts _ Hk) as (_ & Hl & _).
  exact Hl.
Qed.

Lemma clean_plain_dict d : clean_dict d -> plain_dict d.
Proof.
  intros Hd. split; [split; [exact (proj1 Hd) |] | exact (clean_dict_plain d Hd)].
  apply List.Forall_forall. intros k Hk. apply in_map_iff in Hk.
  destruct Hk as (kv & <- & Hin).
  exact (proj1 (List.Forall_forall _ _) (clean_dict_lower d Hd) kv Hin).
Qed.

Lemma forall_update {V} (P : string * V -> Prop) (e : OrderedDict.t V) :
  forall d, Forall P d -> Forall P e -> Forall P (OrderedDict.update d e).
Proof.
  unfold OrderedDict.update.
  induction e as [|[k v] e IH]; intros d Hd He; simpl; [exact Hd |].
  inversion He as [|? ? Hkv He']; subst.
  apply IH; [apply forall_set; assumption | exact He'].
Qed.

Lemma plain_dict_update d e :
  plain_dict d -> plain_dict e -> plain_dict (OrderedDict.update d e).
Proof.
  intros [Hd1 Hd2] [He1 He2]. split; [apply update_wf; assumption |].
  apply forall_update; assumption.
Qed.

Lemma plain_dict_sorted l : plain_dict l -> plain_dict (sorted l).
Proof.
  intros [Hw Hp]. split.
  - eapply wf_dict_perm; [| exact Hw]. symmetry. apply sorted_keys_perm.
  - eapply Permutation_Forall; [symmetry; apply sorted_perm | exact Hp].
Qed.

Lemma plain_dict_lower d :
  plain_dict d -> Forall (fun kv => lower (fst kv) = fst kv) d.
Proof.
  intros [[_ Hl] _]. apply List.Forall_forall. intros kv Hin.
  apply (proj1 (List.Forall_forall _ _) Hl). apply in_map, Hin.
Qed.

Lemma items_plain cfg s d :
  OrderedDict.get (sections cfg) s = Some d ->
  plain_dict (defaults cfg) -> plain_dict d ->
  items cfg s = Ret (OrderedDict.update (defaults cfg) d).
Proof.
  intros Hg HD Hd. unfold items. rewrite Hg. simpl.
  apply map_result_plain. exact (proj2 (plain_dict_update _ _ HD Hd)).
Qed.

Lemma set_section_plain cfg s k v d :
  plain_section s -> OrderedDict.get (sections cfg) s = Some d ->
  has_char "%"%char v = false ->
  ConfigParser.set cfg s k v
  = Ret (Store (defaults cfg)
           (OrderedDict.set (sections cfg) s (OrderedDict.set d (lower k) v))).
Proof.
  intros Hs Hd Hv. unfold ConfigParser.set.
  rewrite (before_set_plain v Hv). simpl.
  rewrite (plain_section_test s Hs), Hd. reflexivity.
Qed.

Lemma resort_returns s kvs : forall w d,
  plain_section s ->
  OrderedDict.get (sections (_config w)) s = Some d ->
  Forall (fun kv => lower (fst kv) = fst kv) kvs ->
  Forall (fun kv => has_char "%"%char (snd kv) = false) kvs ->
  exists w', Configure.resort s kvs w = (Ret tt, w').
Proof.
  induction kvs as [|[k v] kvs IH]; intros w d Hs Hd Hlow Hpl; simpl.
  - eexists. reflexivity.
  - inversion Hlow as [|? ? Hk Hlow']; subst.
    inversion Hpl as [|? ? Hv Hpl']; subst. simpl in Hk, Hv.
    destruct (remove_option_section _ s k d Hs Hd Hk) as [b Hrm].
    unfold bind at 1. rewrite Hrm.
    unfold bind at 1. unfold update. simpl _config.
    set (cfg1 := Store _ _).
    assert (Hd1 : OrderedDict.get (sections cfg1) s
                  = Some (OrderedDict.del d k)) by apply dict_get_set_eq.
    rewrite (set_section_plain cfg1 s k v _ Hs Hd1 Hv).
    eapply IH; [exact Hs | | exact Hlow' | exact Hpl'].
    simpl. apply dict_get_set_eq.
Qed.

End SaveClean.

Section SaveCleanRun.
Import Text ConfigParser.

Lemma resort_plain w s d :
  plain_section s ->
  OrderedDict.get (sections (_config w)) s = Some d ->
  plain_dict (defaults (_config w)) -> plain_dict d ->
  Configure.resort s (sorted (OrderedDict.update (defaults (_config w)) d)) w
  = (Ret tt,
     with_config w
       (Store (defaults (_config w))
          (OrderedDict.set (sections (_config w)) s
             (sorted (OrderedDict.update (defaults (_config w)) d))))).
Proof.
  intros Hs Hd HD Hcd.
  set (kvs := OrderedDict.update (defaults (_config w)) d).
  assert (Hk : plain_dict (sorted kvs))
    by (apply plain_dict_sorted, plain_dict_update; assumption).
  destruct (resort_returns s (sorted kvs) w d Hs Hd
              (plain_dict_lower _ Hk) (proj2 Hk)) as [w' Hrun].
  rewrite Hrun. f_equal.
  rewrite (resort_run s (sorted kvs) w w' d Hs Hd (plain_dict_lower _ Hk) Hrun).
  rewrite resort_steps_all;
    [reflexivity | exact (proj1 (proj1 Hk)) | exact (proj1 (proj1 Hcd)) |].
  intros x Hx. eapply Permutation_in; [symmetry; apply sorted_keys_perm |].
  apply update_keys. right. exact Hx.
Qed.

Lemma save_sections_plain names : forall w,
  plain_dict (defaults (_config w)) ->
  List.NoDup names ->
  (forall s, In s names ->
     plain_section s /\
     exists d, OrderedDict.get (sections (_config w)) s = Some d /\
               plain_dict d) ->
  exists secs,
    Configure.save_sections names w
    = (Ret tt, with_config w (Store (defaults (_config w)) secs)) /\
    OrderedDict.keys secs = OrderedDict.keys (sections (_config w)) /\
    (forall s d, In s names ->
       OrderedDict.get (sections (_config w)) s = Some d ->
       OrderedDict.get secs s
       = Some (sorted (OrderedDict.update (defaults (_config w)) d))) /\
    (forall s, ~ In s names ->
       OrderedDict.get secs s = OrderedDict.get (sections (_config w)) s).
Proof.
  induction names as [|s names IH]; intros w HD Hnd Hall.
  - exists (sections (_config w)). simpl.
    split; [destruct w as [[? ?] ? ? ? ? ?]; reflexivity |].
    split; [reflexivity |]. split; [intros s d [] | reflexivity].
  - inversion Hnd as [|? ? Hs Hnd']; subst.
    destruct (Hall s (or_introl eq_refl)) as (Hplain & d & Hd & Hcd).
    simpl Configure.save_sections.
    unfold bind at 1. unfold lift at 1.
    rewrite (items_plain _ s d Hd HD Hcd).
    unfold bind at 1. rewrite (resort_plain w s d Hplain Hd HD Hcd).
    set (w1 := with_config w _).
    destruct (IH w1) as (secs & Hrun & Hk & Hin & Hout).
    + exact HD.
    + exact Hnd'.
    + intros s2 H2. destruct (Hall s2 (or_intror H2)) as (Hp2 & d2 & Hd2 & Hc2).
      split; [exact Hp2 |]. exists d2. split; [| exact Hc2].
      simpl. rewrite dict_get_set_ne; [exact Hd2 |].
      intros ->. exact (Hs H2).
    + exists secs. rewrite Hrun. simpl in *.
      split; [reflexivity |]. split.
      { rewrite Hk. apply dict_keys_set_present. rewrite Hd. discriminate. }
      split.
      * intros s2 d2 [<- | H2] Hd2.
        -- rewrite (Hout s Hs), dict_get_set_eq.
           assert (d2 = d) as -> by congruence. reflexivity.
        -- apply Hin; [exact H2 |].
           rewrite dict_get_set_ne; [exact Hd2 |].
           intros ->. exact (Hs H2).
      * intros s2 H2. rewrite (Hout s2); [| tauto].
        apply dict_get_set_ne. intros ->. apply H2. left. reflexivity.
Qed.

End SaveCleanRun.

Section SaveCleanWorld.
Import Text ConfigParser.

Lemma clean_parser_section cfg s d :
  clean_parser cfg -> OrderedDict.get (sections cfg) s = Some d ->
  clean_section s /\ clean_dict d.
Proof.
  intros (_ & _ & HS) Hg. apply dict_get_in in Hg.
  exact (proj1 (List.Forall_forall _ _) HS _ Hg).
Qed.

Lemma in_keys_get {V} (d : OrderedDict.t V) k :
  In k (OrderedDict.keys d) -> exists v, OrderedDict.get d k = Some v.
Proof.
  intros Hin. destruct (OrderedDict.get d k) eqn:E; [eauto |].
  apply dict_get_none in E. contradiction.
Qed.

Lemma plain_parser_section cfg s d :
  plain_parser cfg -> OrderedDict.get (sections cfg) s = Some d ->
  plain_section s /\ plain_dict d.
Proof.
  intros (_ & _ & HS) Hg. apply dict_get_in in Hg.
  exact (proj1 (List.Forall_forall _ _) HS _ Hg).
Qed.

Lemma clean_plain_parser cfg : clean_parser cfg -> plain_parser cfg.
Proof.
  intros (HD & Hnd & HS). split; [apply clean_plain_dict, HD |].
  split; [exact Hnd |]. eapply Forall_impl; [exact HS |].
  intros sd [Hs Hd]. split; [| apply clean_plain_dict, Hd].
  exact (proj1 (clean_section_facts _ Hs)).
Qed.

(** [_save] on a plain parser whose file can be written returns; every
    section then holds the defaults overlaid with its options, in key
    order, and the file holds the serialized parser. *)
Lemma save_plain (w : world) :
  plain_parser (_config w) -> writable w (configure_path w) = true ->
  exists secs,
    Configure._save w
    = (Ret tt,
       World (Store (defaults (_config w)) secs) (configure_path w)
         (<[configure_path w
            := ConfigParser.write (Store (defaults (_config w)) secs)]> (fs w))
         (writable w) (stdin w) (trace w ++ [OpenWrite (configure_path w)])) /\
    OrderedDict.keys secs = OrderedDict.keys (sections (_config w)) /\
    (forall s d, OrderedDict.get (sections (_config w)) s = Some d ->
       OrderedDict.get secs s
       = Some (sorted (OrderedDict.update (defaults (_config w)) d))).
Proof.
  intros Hc Hw. pose proof Hc as (HD & Hnd & HS).
  destruct (save_sections_plain (section_names (_config w)) w HD Hnd)
    as (secs & Hrun & Hk & Hin & _).
  { intros s Hs. destruct (in_keys_get _ _ Hs) as [d Hd].
    destruct (plain_parser_section _ _ _ Hc Hd) as [Hcs Hcd]. eauto. }
  exists secs. split; [| split; [exact Hk |]].
  - unfold Configure._save. unfold bind at 1. unfold lift at 1.
    unfold bind at 1. rewrite Hrun.
    unfold bind, self_path, lift, write_file, with_config.
    cbn [_config configure_path fs writable stdin trace].
    rewrite Hw. reflexivity.
  - intros s d Hd. apply Hin; [| exact Hd].
    apply dict_get_in in Hd. unfold section_names, OrderedDict.keys.
    change s with (fst (s, d)). apply in_map, Hd.
Qed.

(** On a clean parser the saved parser is clean too. *)
Lemma save_clean (w : world) :
  clean_parser (_config w) -> writable w (configure_path w) = true ->
  exists secs,
    Configure._save w
    = (Ret tt,
       World (Store (defaults (_config w)) secs) (configure_path w)
         (<[configure_path w
            := ConfigParser.write (Store (defaults (_config w)) secs)]> (fs w))
         (writable w) (stdin w) (trace w ++ [OpenWrite (configure_path w)])) /\
    clean_parser (Store (defaults (_config w)) secs) /\
    (forall s d, OrderedDict.get (sections (_config w)) s = Some d ->
       OrderedDict.get secs s
       = Some (sorted (OrderedDict.update (defaults (_config w)) d))).
Proof.
  intros Hc Hw. pose proof Hc as (HD & Hnd & HS).
  destruct (save_plain w (clean_plain_parser _ Hc) Hw)
    as (secs & Hrun & Hk & Hget).
  exists secs. split; [exact Hrun |]. split; [| exact Hget].
  split; [exact HD |]. simpl. split; [rewrite Hk; exact Hnd |].
  apply List.Forall_forall. intros [s d'] Hsd.
  assert (Hnd' : List.NoDup (OrderedDict.keys secs)) by (rewrite Hk; exact Hnd).
  pose proof (dict_in_get _ _ _ Hnd' Hsd) as Hg'.
  assert (Hs : In s (OrderedDict.keys (sections (_config w)))).
  { rewrite <- Hk. change s with (fst (s, d')). apply in_map, Hsd. }
  destruct (in_keys_get _ _ Hs) as [d Hd].
  destruct (clean_parser_section _ _ _ Hc Hd) as [Hcs Hcd].
  rewrite (Hget s d Hd) in Hg'. injection Hg' as <-.
  split; [exact Hcs |].
  apply clean_dict_sorted, clean_dict_update; assumption.
Qed.

(** ** C5: a save sorts the keys *)




End SaveCleanWorld.

Section WriteClean.
Import Text ConfigParser.

Lemma update_get_other {V} (e : OrderedDict.t V) : forall (d : OrderedDict.t V) k,
  ~ In k (OrderedDict.keys e) ->
  OrderedDict.get (OrderedDict.update d e) k = OrderedDict.get d k.
Proof.
  unfold OrderedDict.update.
  induction e as [|[k1 v1] e IH]; intros d k Hk; simpl; [reflexivity |].
  rewrite IH by (intros H; apply Hk; right; exact H).
  apply dict_get_set_ne. intros ->. apply Hk. left. reflexivity.
Qed.

Lemma update_get {V} (e : OrderedDict.t V) : forall (d : OrderedDict.t V) k v,
  List.NoDup (OrderedDict.keys e) -> OrderedDict.get e k = Some v ->
  OrderedDict.get (OrderedDict.update d e) k = Some v.
Proof.
  induction e as [|[k1 v1] e IH]; intros d k v Hnd; simpl; [discriminate |].
  simpl in Hnd. inversion Hnd as [|? ? Hk1 Hnd']; subst.
  destruct (String.eqb_spec k1 k) as [-> | Hne].
  - intros [= ->].
    change (OrderedDict.update d ((k, v) :: e))
      with (OrderedDict.update (OrderedDict.set d k v) e).
    rewrite (update_get_other e _ k Hk1). apply dict_get_set_eq.
  - intros Hg.
    change (OrderedDict.update d ((k1, v1) :: e))
      with (OrderedDict.update (OrderedDict.set d k1 v1) e).
    apply IH; assumption.
Qed.

Lemma sorted_get l k v :
  List.NoDup (OrderedDict.keys l) -> OrderedDict.get l k = Some v ->
  OrderedDict.get (sorted l) k = Some v.
Proof.
  intros Hnd Hg. apply dict_in_get.
  - eapply Permutation_NoDup; [symmetry; apply sorted_keys_perm | exact Hnd].
  - eapply Permutation_in; [symmetry; apply sorted_perm |].
    apply dict_get_in, Hg.
Qed.

Lemma reload_in_sync w :
  in_sync w -> Configure._reload "UTF-8" true w = (Ret tt, reloaded w).
Proof.
  intros (text & Hfs & Hread).
  unfold Configure._reload, bind, self_path. simpl.
  rewrite (bool_decide_is_Some_Some _ _ Hfs).
  unfold parser_read. rewrite Hfs. unfold bind, emit, update. simpl.
  rewrite Hread. destruct w as [[? ?] ? ? ? ? ?]; reflexivity.
Qed.

Lemma in_sync_same w w' : same_store w w' -> in_sync w -> in_sync w'.
Proof.
  intros (Hc & Hp & Hf & _) (text & Hfs & Hread).
  exists text. rewrite Hc, Hp, Hf. split; assumption.
Qed.

Lemma set_value_clean cfg section key value :
  clean_parser cfg -> clean_section section -> clean_key (lower key) ->
  clean_value value -> clean_parser (set_value cfg section key value).
Proof.
  intros Hc Hs Hk Hv. pose proof Hc as (HD & Hnd & HS).
  split; [exact HD |]. simpl. split; [apply dict_set_nodup, Hnd |].
  apply forall_set; [exact HS |]. split; [exact Hs |]. simpl.
  apply clean_dict_set; [| exact Hk | exact Hv].
  destruct (OrderedDict.get (sections cfg) section) as [d|] eqn:E.
  - exact (proj2 (clean_parser_section _ _ _ Hc E)).
  - split; constructor.
Qed.

End WriteClean.

Section WriteCleanRun.
Import Text ConfigParser.

Lemma lower_truthy k : lower k <> EmptyString -> truthy k = true.
Proof. destruct k; [intros H; contradiction | reflexivity]. Qed.

Lemma set_missing_section cfg s k v :
  plain_section s -> OrderedDict.get (sections cfg) s = None ->
  has_char "%"%char v = false ->
  ConfigParser.set cfg s k v = Raise NoSectionError.
Proof.
  intros Hs Hd Hv. unfold ConfigParser.set.
  rewrite (before_set_plain v Hv). simpl.
  rewrite (plain_section_test s Hs), Hd. reflexivity.
Qed.

Lemma add_missing_section cfg s :
  plain_section s -> OrderedDict.get (sections cfg) s = None ->
  add_section cfg s
  = Ret (Store (defaults cfg) (OrderedDict.set (sections cfg) s [])).
Proof.
  intros [_ Hs] Hd. unfold add_section, OrderedDict.mem.
  rewrite Hd. apply String.eqb_neq in Hs. rewrite Hs. reflexivity.
Qed.

Lemma set_or_create_clean w section key value :
  plain_section section -> has_char "%"%char value = false ->
  exists tr,
    set_or_create section key value w
    = (Ret tt, World (set_value (_config w) section key value)
                 (configure_path w) (fs w) (writable w) (stdin w) tr).
Proof.
  intros Hs Hv. unfold set_or_create, try_except, update.
  destruct (OrderedDict.get (sections (_config w)) section) as [d|] eqn:E.
  - rewrite (set_section_plain _ _ key _ d Hs E Hv).
    eexists. unfold set_value. rewrite E. reflexivity.
  - rewrite (set_missing_section _ _ key _ Hs E Hv).
    unfold bind, log, emit. cbn [_config configure_path fs stdin trace].
    rewrite (add_missing_section _ _ Hs E).
    cbn [_config configure_path fs stdin trace].
    rewrite (set_section_plain
               (Store (defaults (_config w))
                  (OrderedDict.set (sections (_config w)) section []))
               _ key _ [] Hs (dict_get_set_eq _ _ _) Hv).
    eexists. unfold set_value. rewrite E.
    cbn [sections defaults]. rewrite dict_set_set. reflexivity.
Qed.

End WriteCleanRun.

Section WriteCleanMain.
Import Text ConfigParser.

Lemma write_steps section key value store :
  Configure.write section key value store
  = (Configure._reload "UTF-8" true ;;
     (if negb (truthy section) || negb (truthy key) then
        log ERROR "Plz specify section/key name!" ;; exit 1%Z
      else ret tt) ;;
     set_or_create section key value ;;
     log INFO ("Set value: " +:+ section +:+ "." +:+ key +:+ " = " +:+ value
               +:+ ".") ;;
     if store then Configure._save else ret tt).
Proof. reflexivity. Qed.

Lemma get_set_value cfg secs section key value :
  clean_parser cfg -> clean_key (lower key) -> clean_value value ->
  OrderedDict.get secs section
  = Some (sorted (OrderedDict.update (defaults cfg)
                    (OrderedDict.set
                       (match OrderedDict.get (sections cfg) section with
                        | Some d => d
                        | None => []
                        end) (lower key) value))) ->
  ConfigParser.get (Store (defaults cfg) secs) section key = Ret value.
Proof.
  intros Hc Hk Hv Hg. unfold ConfigParser.get. cbn [sections defaults].
  unfold OrderedDict.t in *. rewrite Hg. simpl rbind. unfold optionxform, chain_get.
  set (d0 := match OrderedDict.get (sections cfg) section with
             | Some d => d
             | None => []
             end) in *.
  assert (Hd0 : clean_dict d0).
  { unfold d0. destruct (OrderedDict.get (sections cfg) section) eqn:E.
    - exact (proj2 (clean_parser_section _ _ _ Hc E)).
    - split; constructor. }
  assert (Hd1 : clean_dict (OrderedDict.set d0 (lower key) value))
    by (apply clean_dict_set; assumption).
  rewrite (sorted_get _ (lower key) value).
  - apply before_get_plain. exact (proj1 (proj2 (clean_value_facts _ Hv))).
  - apply update_nodup. exact (proj1 (proj1 Hc)).
  - apply update_get; [exact (proj1 Hd1) | apply dict_get_set_eq].
Qed.

(** [write] of a clean value under clean names, on a clean parser in sync
    with its file, which can be written: it returns, the parser stays
    clean and in sync, and the parser holds the value. *)
Lemma write_clean (w : world) (section key value : string) :
  in_sync w -> clean_parser (_config w) ->
  writable w (configure_path w) = true ->
  clean_section section -> clean_key (lower key) -> clean_value value ->
  exists w',
    Configure.write section key value true w = (Ret tt, w') /\
    in_sync w' /\ clean_parser (_config w') /\
    configure_path w' = configure_path w /\
    ConfigParser.get (_config w') section key = Ret value.
Proof.
  intros Hsync Hc Hwr Hs Hk Hv.
  destruct (clean_section_facts _ Hs) as [Hplain _].
  destruct (clean_value_facts _ Hv) as (_ & Hpct & _).
  rewrite write_steps.
  rewrite (bind_eq_ret _ _ _ _ _ (reload_in_sync w Hsync)).
  assert (Ht : negb (truthy section) || negb (truthy key) = false).
  { rewrite (lower_truthy key (proj1 (clean_key_facts _ Hk))).
    destruct section; [destruct Hplain as [H _]; contradiction | reflexivity]. }
  rewrite Ht, bind_ret_l.
  destruct (set_or_create_clean (reloaded w) section key value Hplain Hpct)
    as [tr Hset].
  rewrite (bind_eq_ret _ _ _ _ _ Hset).
  unfold bind at 1. unfold log, emit.
  cbn [_config configure_path fs writable stdin trace reloaded].
  set (w3 := World _ _ _ _ _ _).
  assert (Hc3 : clean_parser (_config w3))
    by (apply set_value_clean; assumption).
  destruct (save_clean w3 Hc3 Hwr) as (secs & Hsave & Hclean & Hget).
  rewrite Hsave. eexists. split; [reflexivity |].
  cbn [_config configure_path fs writable stdin trace w3].
  split; [| split; [exact Hclean | split; [reflexivity |]]].
  - eexists. cbn [_config configure_path fs].
    split; [apply lookup_insert_eq |].
    apply read_write_roundtrip. exact Hclean.
  - cbn [_config w3 set_value defaults] in Hclean, Hget |- *.
    apply (get_set_value (_config w) secs section key value Hc Hk Hv).
    apply Hget. cbn [sections]. apply dict_get_set_eq.
Qed.

End WriteCleanMain.

(** ** C1 and C6: a written value is read back *)

Section ReadBack.
Import Text ConfigParser.

Lemma read_conf_present (w : world) (section key v : string)
    (default_val : option string) (required : bool) :
  in_sync w -> truthy section = true -> truthy key = true ->
  ConfigParser.get (_config w) section key = Ret v ->
  Configure._read_conf section key default_val required w
  = (Ret (Some v), reloaded w).
Proof.
  intros Hsync Hs Hk Hg. unfold Configure._read_conf.
  rewrite (bind_eq_ret _ _ _ _ _ (reload_in_sync w Hsync)).
  rewrite Hs, Hk. change (negb true || negb true) with false. cbv iota.
  unfold bind, try_except, lift, ret. cbn [_config reloaded].
  rewrite Hg. reflexivity.
Qed.

Lemma store_if_present (w : world) (section key v : string)
    (value : option string) :
  ConfigParser.get (_config w) section key = Ret v ->
  Configure.store_if_absent section key value w = (Ret tt, w).
Proof.
  intros Hg. unfold Configure.store_if_absent, try_except, bind, lift, ret.
  rewrite Hg. reflexivity.
Qed.

Lemma read_present (w : world) (section key v : string)
    (default_val : option string) (required : bool) :
  in_sync w -> truthy section = true -> truthy key = true ->
  ConfigParser.get (_config w) section key = Ret v ->
  Configure.read section key default_val required w
  = (Ret (Some v), reloaded w).
Proof.
  intros Hsync Hs Hk Hg. unfold Configure.read.
  rewrite (bind_eq_ret _ _ _ _ _
             (read_conf_present w section key v default_val required
                Hsync Hs Hk Hg)).
  rewrite (bind_eq_ret _ _ _ _ _
             (store_if_present (reloaded w) section key v (Some v) Hg)).
  reflexivity.
Qed.

Lemma clean_names_truthy section key :
  clean_section section -> clean_key (lower key) ->
  truthy section = true /\ truthy key = true.
Proof.
  intros Hs Hk. split.
  - destruct (clean_section_facts _ Hs) as [[H _] _].
    destruct section; [contradiction | reflexivity].
  - apply lower_truthy. exact (proj1 (clean_key_facts _ Hk)).
Qed.

(** C1, amended. On a clean parser in sync with its file, which can be
    opened for writing, for every section name other than [DEFAULT] that
    is not empty and has no line break (line feed or carriage return),
    every key whose lower-case form is a clean key and every one-line
    value without surrounding blanks and without a percent sign:
    [write(section, key, value)] with [store=True] returns, and a [read]
    of the pair with no default then returns exactly that value. *)
Theorem write_read_roundtrip (w : world) (section key value : string) :
  in_sync w -> clean_parser (_config w) ->
  writable w (configure_path w) = true ->
  clean_section section -> clean_key (lower key) -> clean_value value ->
  exists w1 w2,
    Configure.write section key value true w = (Ret tt, w1) /\
    Configure.read section key None true w1 = (Ret (Some value), w2).
Proof.
  intros Hsync Hc Hwr Hs Hk Hv.
  destruct (write_clean w section key value Hsync Hc Hwr Hs Hk Hv)
    as (w1 & Hw & Hsync1 & _ & _ & Hg).
  destruct (clean_names_truthy section key Hs Hk) as [Hts Htk].
  exists w1, (reloaded w1). split; [exact Hw |].
  apply read_present; assumption.
Qed.

Lemma sample_world_in_sync : in_sync sample_world.
Proof.
  exists (ConfigParser.write sample_parser). split; vm_compute; reflexivity.
Qed.

Lemma sample_parser_clean : clean_parser sample_parser.
Proof. unfold sample_parser. solve_clean_parser. Qed.

Lemma write_read_roundtrip_witness :
  exists w1 w2,
    Configure.write "new" "Key" "a value" true sample_world = (Ret tt, w1) /\
    Configure.read "new" "Key" None true w1 = (Ret (Some "a value"), w2).
Proof.
  apply (write_read_roundtrip sample_world "new" "Key" "a value").
  - exact sample_world_in_sync.
  - exact sample_parser_clean.
  - reflexivity.
  - reflexivity.
  - reflexivity.
  - reflexivity.
Defined.

(** C1 as stated fails: a value written with a leading blank is read
    back without it, because the reload before the read takes the value
    from the file and the reader strips it; a value holding a carriage
    return is written as it is, and the reload, which reads the carriage
    return as the end of a line, finds a line that is neither a section
    nor an option and raises. *)
Lemma write_read_strips_blank :
  fst (Configure.write "sec" "k" " x" true sample_world) = Ret tt /\
  fst (Configure.read "sec" "k" None true
         (snd (Configure.write "sec" "k" " x" true sample_world)))
  = Ret (Some "x") /\
  Some "x" <> Some " x" /\
  fst (Configure.write "sec" "k" ("a" +:+ String cr "b") true sample_world)
  = Ret tt /\
  fst (Configure.read "sec" "k" None true
         (snd (Configure.write "sec" "k" ("a" +:+ String cr "b") true
                 sample_world)))
  = Raise ParsingError.
Proof.
  split; [vm_compute; reflexivity |]. split; [vm_compute; reflexivity |].
  split; [discriminate |]. split; vm_compute; reflexivity.
Qed.

(** C6, amended. On a clean parser in sync with its file, which can be
    opened for writing, for every clean section name and key absent from
    the store, [read_int] with default 42 returns 42 and a [read] of the
    pair then returns the string [42]. *)
Theorem read_int_default_persisted (w : world) (section key : string)
    (required : bool) :
  in_sync w -> clean_parser (_config w) ->
  writable w (configure_path w) = true ->
  clean_section section -> clean_key (lower key) ->
  absent_from (_config w) section key ->
  exists w1 w2,
    Configure.read_int section key (Some 42%Z) required w
    = (Ret (Some 42%Z), w1) /\
    Configure.read section key None true w1 = (Ret (Some "42"), w2).
Proof.
  intros Hsync Hc Hwr Hs Hk Habs.
  destruct (clean_names_truthy section key Hs Hk) as [Hts Htk].
  destruct (read_conf_absent w (reloaded w) section key (Some "42") required
              (reload_in_sync w Hsync) Habs) as (w0 & Hconf & Hsame).
  rewrite Hts, Htk in Hconf. change (negb true || negb true) with false in Hconf.
  cbv iota in Hconf.
  assert (Hsync0 : in_sync w0).
  { eapply in_sync_same; [exact Hsame |].
    eapply in_sync_same; [| exact Hsync]. repeat split. }
  assert (Hc0 : clean_parser (_config w0))
    by (rewrite (proj1 Hsame); exact Hc).
  assert (Hwr0 : writable w0 (configure_path w0) = true).
  { destruct Hsame as (_ & Hp & _ & _ & Hwb). rewrite Hwb, Hp. exact Hwr. }
  destruct (write_clean w0 section key "42" Hsync0 Hc0 Hwr0 Hs Hk eq_refl)
    as (w1 & Hw & Hsync1 & _ & _ & Hg).
  exists w1, (reloaded w1). split.
  - unfold Configure.read_int.
    change (str_int 42) with "42".
    rewrite (bind_eq_ret _ _ _ _ _ Hconf).
    change (parse_int "42") with (Some 42%Z). cbv iota.
    rewrite bind_ret_l.
    change (option_map str_int (Some 42%Z)) with (Some "42").
    assert (Hstore : Configure.store_if_absent section key (Some "42") w0
                     = (Ret tt, w1)).
    { destruct Habs as (e & Hget & He).
      unfold Configure.store_if_absent, try_except, bind, lift, ret.
      rewrite (proj1 Hsame). cbn [_config reloaded]. rewrite Hget, He.
      exact Hw. }
    rewrite (bind_eq_ret _ _ _ _ _ Hstore). reflexivity.
  - apply read_present; assumption.
Qed.

Lemma read_int_default_persisted_witness :
  exists w1 w2,
    Configure.read_int "new" "Port" (Some 42%Z) true sample_world
    = (Ret (Some 42%Z), w1) /\
    Configure.read "new" "Port" None true w1 = (Ret (Some "42"), w2).
Proof.
  apply (read_int_default_persisted sample_world "new" "Port" true).
  - exact sample_world_in_sync.
  - exact sample_parser_clean.
  - reflexivity.
  - reflexivity.
  - reflexivity.
  - exists NoSectionError. split; vm_compute; reflexivity.
Defined.

(** C6 as stated fails for some names: with an empty key [_read_conf]
    returns [None] and [int(None, 10)] raises [TypeError]; with a section
    name holding a line break (a line feed, or a carriage return)
    [read_int] returns 42, but the file it saved cannot be read back and
    the next [read] raises. *)
Lemma read_int_default_bad_names :
  fst (Configure.read_int "sec" EmptyString (Some 42%Z) true sample_world)
  = Raise TypeError /\
  fst (Configure.read_int ("a" +:+ NL +:+ "b") "k" (Some 42%Z) true
         sample_world) = Ret (Some 42%Z) /\
  fst (Configure.read ("a" +:+ NL +:+ "b") "k" None true
         (snd (Configure.read_int ("a" +:+ NL +:+ "b") "k" (Some 42%Z) true
                 sample_world)))
  = Raise DuplicateOptionError /\
  fst (Configure.read ("a" +:+ String cr "b") "k" None true
         (snd (Configure.read_int ("a" +:+ String cr "b") "k" (Some 42%Z)
                 true sample_world)))
  = Raise DuplicateOptionError.
Proof. repeat split; vm_compute; reflexivity. Qed.

End ReadBack.

(** ** [export] *)

Section ExportToPath.
Import Text ConfigParser.

(** C7, amended. [export(path, force=False)] on a path that exists
    returns [False] and leaves the disk as it was.  [export(path,
    force=True)] on a path that can be opened for writing returns [True]
    and leaves at the path, whatever was there, the serialized parser:
    for a clean parser, the lines [[name]], [key = value] for each option
    and an empty line, section after section.  On a path that cannot be
    opened for writing the [OSError] of [open] reaches the caller and the
    disk is as it was. *)
Theorem export_spec (w : world) (path : string) :
  (is_Some (fs w !! path) ->
   fst (Configure.export path false w) = Ret false /\
   fs (snd (Configure.export path false w)) = fs w) /\
  (writable w path = true ->
   fst (Configure.export path true w) = Ret true /\
   fs (snd (Configure.export path true w))
   = <[path := ConfigParser.write (_config w)]> (fs w) /\
   (clean_parser (_config w) ->
    fs (snd (Configure.export path true w)) !! path
    = Some (text_of (all_lines (_config w))))) /\
  (writable w path = false ->
   fst (Configure.export path true w) = Raise OSError /\
   fs (snd (Configure.export path true w)) = fs w).
Proof.
  split; [| split].
  - intros [text Htext].
    unfold Configure.export, bind. rewrite path_exists_eq.
    rewrite (bool_decide_is_Some_Some _ _ Htext). simpl. split; reflexivity.
  - intros Hw. unfold Configure.export, bind. rewrite path_exists_eq.
    rewrite andb_false_r. unfold lift, write_file. simpl. rewrite Hw. simpl.
    split; [reflexivity |]. split; [reflexivity |].
    intros Hc. rewrite lookup_insert_eq, (write_lines _ Hc). reflexivity.
  - intros Hw. unfold Configure.export, bind. rewrite path_exists_eq.
    rewrite andb_false_r. unfold lift, write_file. simpl. rewrite Hw. simpl.
    split; reflexivity.
Qed.

Lemma export_spec_witness :
  fst (Configure.export "c.ini" false sample_world) = Ret false /\
  fst (Configure.export "c.ini" true sample_world) = Ret true /\
  fs (snd (Configure.export "c.ini" true
             (with_config sample_world
                (Store [] [("s", [("k", "v")]); ("t", [])])))) !! "c.ini"
  = Some (text_of ["[s]"; "k = v"; EmptyString; "[t]"; EmptyString]).
Proof.
  destruct (export_spec sample_world "c.ini") as (H1 & H2 & _).
  destruct (export_spec
              (with_config sample_world
                 (Store [] [("s", [("k", "v")]); ("t", [])])) "c.ini")
    as (_ & H3 & _).
  split; [| split].
  - apply H1. eexists. reflexivity.
  - apply H2. reflexivity.
  - destruct (H3 eq_refl) as (_ & _ & H). apply H.
    cbn [with_config _config]. solve_clean_parser.
Defined.

(** C7 as stated fails: the empty path cannot be opened for writing, and
    a forced export to it raises instead of returning [True]. *)
Lemma export_unwritable_raises :
  fst (Configure.export EmptyString true sample_world) = Raise OSError /\
  fs (snd (Configure.export EmptyString true sample_world)) = fs sample_world.
Proof. split; vm_compute; reflexivity. Qed.

End ExportToPath.


(** ** The iteration bounds of the interpolation loops are never reached *)

Section Bounds.
Import Text ConfigParser.

Lemma split_first_length p s a b :
  split_first p s = Some (a, b) ->
  String.length s = String.length a + 1 + String.length b.
Proof.
  revert a b. induction s as [|c s IH]; intros a b; simpl; [discriminate |].
  destruct (p c).
  - intros [= <- <-]. simpl. lia.
  - destruct (split_first p s) as [[l r]|]; [| discriminate].
    intros [= <- <-]. simpl. rewrite (IH l r eq_refl). lia.
Qed.

Lemma keycre_match_length s name rest :
  keycre_match s = Some (name, rest) -> String.length rest < String.length s.
Proof.
  unfold keycre_match. destruct s as [|a [|b r]]; try discriminate.
  destruct (eqc a "%"%char && eqc b "("%char); [| discriminate].
  destruct (split_first _ r) as [[n [|c r']]|] eqn:E; try discriminate.
  destruct (truthy n && eqc c "s"%char); [| discriminate].
  intros [= <- <-]. apply split_first_length in E. simpl in *. lia.
Qed.

Arguments keycre_match : simpl never.

(** More iterations than characters change nothing. *)
Lemma interpolate_loop_bound deeper lookup : forall n m rest accum,
  String.length rest < n -> String.length rest < m ->
  interpolate_loop deeper lookup n rest accum
  = interpolate_loop deeper lookup m rest accum.
Proof.
  induction n as [|n IH]; intros m rest accum Hn Hm; [lia |].
  destruct m as [|m]; [lia |]. simpl.
  destruct (truthy rest); [| reflexivity].
  destruct (split_first is_percent rest) as [[pre after]|] eqn:E;
    [| reflexivity].
  apply split_first_length in E.
  destruct after as [|c r]; [reflexivity |]. simpl in E.
  destruct (eqc c "%"%char); [apply IH; lia |].
  destruct (eqc c "("%char); [| reflexivity].
  destruct (keycre_match (String "%"%char (String c r)))
    as [[name r']|] eqn:K; [| reflexivity].
  apply keycre_match_length in K. simpl in K.
  destruct (lookup (optionxform name)) as [v|]; [| reflexivity].
  destruct (has_char "%"%char v).
  - destruct (deeper v (accum +:+ pre)); simpl; try reflexivity.
    apply IH; lia.
  - apply IH; lia.
Qed.

Lemma keycre_sub_bound : forall n m s,
  String.length s <= n -> String.length s <= m ->
  keycre_sub n s = keycre_sub m s.
Proof.
  induction n as [|n IH]; intros m s Hn Hm.
  - destruct s; [| simpl in Hn; lia]. destruct m; reflexivity.
  - destruct m as [|m].
    + destruct s; [reflexivity | simpl in Hm; lia].
    + destruct s as [|a s]; [reflexivity |].
      change (keycre_sub (S n) (String a s))
        with (match keycre_match (String a s) with
              | Some (_, rest) => keycre_sub n rest
              | None => String a (keycre_sub n s)
              end).
      change (keycre_sub (S m) (String a s))
        with (match keycre_match (String a s) with
              | Some (_, rest) => keycre_sub m rest
              | None => String a (keycre_sub m s)
              end).
      destruct (keycre_match (String a s)) as [[name rest]|] eqn:K.
      * apply keycre_match_length in K. simpl in *. apply IH; lia.
      * simpl in *. rewrite (IH m s); [reflexivity | lia | lia].
Qed.

End Bounds.

(** ** Further properties: what never touches the disk *)

Section DiskFrame.
Import Text ConfigParser.

Lemma keeps_disk_pure {A} (c : M A) :
  (forall w, fs (snd (c w)) = fs w) -> keeps_disk c.
Proof. intros H. exact H. Qed.

Lemma keeps_disk_bind {A B} (c : M A) (k : A -> M B) :
  keeps_disk c -> (forall a, keeps_disk (k a)) -> keeps_disk (bind c k).
Proof.
  intros Hc Hk w. unfold bind. pose proof (Hc w) as H.
  destruct (c w) as [[a | e | n] w1]; simpl in *; [| exact H | exact H].
  rewrite (Hk a w1). exact H.
Qed.

Lemma keeps_disk_try {A} (c : M A) (h : exn -> option (M A)) :
  keeps_disk c -> (forall e handler, h e = Some handler -> keeps_disk handler) ->
  keeps_disk (try_except c h).
Proof.
  intros Hc Hh w. unfold try_except. pose proof (Hc w) as H.
  destruct (c w) as [[a | e | n] w1]; simpl in *; [exact H | | exact H].
  destruct (h e) as [handler|] eqn:E; [| exact H].
  rewrite (Hh e handler E w1). exact H.
Qed.

Lemma keeps_disk_update f : keeps_disk (update f).
Proof. intros w. unfold update. destruct (f (_config w)); reflexivity. Qed.

Lemma keeps_disk_reload encoding : keeps_disk (Configure._reload encoding true).
Proof. intros w. apply reload_keeps_disk. right. reflexivity. Qed.

Ltac disk_step :=
  first
    [ apply keeps_disk_reload
    | apply keeps_disk_update
    | apply keeps_disk_bind; [| intros ?]
    | apply keeps_disk_try;
      [| let e := fresh "e" in let H := fresh "H" in
         intros e ? H; destruct e; simpl in H; try discriminate H;
         inversion H; subst; clear H ]
    | apply keeps_disk_pure; reflexivity
    | match goal with
      | |- keeps_disk (if ?b then _ else _) => destruct b
      | |- keeps_disk (match ?x with _ => _ end) => destruct x
      end ].

Lemma keeps_disk_read_conf section key default_val required :
  keeps_disk (Configure._read_conf section key default_val required).
Proof. unfold Configure._read_conf, log. repeat disk_step. Qed.

(** X1. [write] with [store=False], [_read_conf] and [read_json] never
    change a file, whatever the names, the value, the parser and the disk
    are, and whether they return, raise or exit. *)
Theorem unsaved_calls_keep_disk {J : Type} (json_loads : string -> result J)
    (section key value : string) (default_val : option string)
    (required : bool) :
  keeps_disk (Configure.write section key value false) /\
  keeps_disk (Configure._read_conf section key default_val required) /\
  keeps_disk (Configure.read_json json_loads section key).
Proof.
  split; [| split].
  - unfold Configure.write, log. repeat disk_step.
  - apply keeps_disk_read_conf.
  - unfold Configure.read_json, log.
    disk_step; [apply keeps_disk_read_conf |]. repeat disk_step.
Qed.

End DiskFrame.

(** ** Further properties: reading a key the store holds *)

Section ReadFound.
Import Text ConfigParser.

Lemma names_test section key :
  truthy section = true -> truthy key = true ->
  negb (truthy section) || negb (truthy key) = false.
Proof. intros -> ->. reflexivity. Qed.

Lemma read_conf_found (w w1 : world) (section key v : string)
    (default_val : option string) (required : bool) :
  Configure._reload "UTF-8" true w = (Ret tt, w1) ->
  truthy section = true -> truthy key = true ->
  ConfigParser.get (_config w1) section key = Ret v ->
  Configure._read_conf section key default_val required w = (Ret (Some v), w1).
Proof.
  intros R Hs Hk Hg. unfold Configure._read_conf.
  rewrite (bind_eq_ret _ _ _ _ _ R), (names_test _ _ Hs Hk).
  unfold bind, try_except, lift, ret. rewrite Hg. reflexivity.
Qed.

Lemma reload_returns_disk (w w1 : world) encoding :
  Configure._reload encoding true w = (Ret tt, w1) -> fs w1 = fs w.
Proof.
  intros R. pose proof (reload_keeps_disk w encoding true (or_intror eq_refl)) as H.
  rewrite R in H. exact H.
Qed.

(** X2. When [get] on the reloaded parser returns [v] for the key (the
    stored text with its [%(name)s] references expanded), [read] returns
    [v] whatever the default and [required] are, writes nothing and
    leaves in memory exactly the reloaded parser. *)
Theorem read_found (w w1 : world) (section key v : string)
    (default_val : option string) (required : bool) :
  Configure._reload "UTF-8" true w = (Ret tt, w1) ->
  truthy section = true -> truthy key = true ->
  ConfigParser.get (_config w1) section key = Ret v ->
  Configure.read section key default_val required w = (Ret (Some v), w1) /\
  fs w1 = fs w.
Proof.
  intros R Hs Hk Hg. split; [| exact (reload_returns_disk _ _ _ R)].
  unfold Configure.read.
  rewrite (bind_eq_ret _ _ _ _ _
             (read_conf_found w w1 section key v default_val required
                R Hs Hk Hg)).
  rewrite (bind_eq_ret _ _ _ _ _
             (store_if_present w1 section key v (Some v) Hg)).
  reflexivity.
Qed.

Lemma read_found_witness :
  fst (Configure.read "sec" "B" (Some "other") false sample_world)
  = Ret (Some "2").
Proof.
  assert (R : Configure._reload "UTF-8" true sample_world
              = (Ret tt, snd (Configure._reload "UTF-8" true sample_world)))
    by (vm_compute; reflexivity).
  assert (G : ConfigParser.get
                (_config (snd (Configure._reload "UTF-8" true sample_world)))
                "sec" "B" = Ret "2") by (vm_compute; reflexivity).
  destruct (read_found sample_world _ "sec" "B" "2" (Some "other") false
              R eq_refl eq_refl G) as [H _].
  rewrite H. reflexivity.
Defined.

(** The value [read_bool] makes of a stored string. *)
Lemma read_bool_found_run (w w1 : world) (section key v : string)
    (default_val : option bool) (required : bool) :
  Configure._reload "UTF-8" true w = (Ret tt, w1) ->
  truthy section = true -> truthy key = true ->
  ConfigParser.get (_config w1) section key = Ret v ->
  exists w2,
    Configure.read_bool section key default_val required w
    = (Ret (if String.eqb (upper v) "TRUE" then Some true
            else if String.eqb (upper v) "FALSE" then Some false
            else default_val), w2) /\
    same_store w1 w2.
Proof.
  intros R Hs Hk Hg. unfold Configure.read_bool.
  rewrite (bind_eq_ret _ _ _ _ _
             (read_conf_found w w1 section key v _ required R Hs Hk Hg)).
  destruct (String.eqb (upper v) "TRUE") eqn:ET.
  - simpl orb. cbv iota. rewrite bind_ret_l.
    rewrite (bind_eq_ret _ _ _ _ _
               (store_if_present w1 section key v _ Hg)).
    exists w1. split; [reflexivity | repeat split].
  - destruct (String.eqb (upper v) "FALSE") eqn:EF.
    + simpl orb. cbv iota. rewrite bind_ret_l.
      rewrite (bind_eq_ret _ _ _ _ _
                 (store_if_present w1 section key v _ Hg)).
      exists w1. split; [reflexivity | repeat split].
    + simpl orb. cbv iota.
      set (w2 := snd (Configure.type_warning "bool" section key (Some v) w1)).
      assert (Hwarn : (Configure.type_warning "bool" section key (Some v) ;;
                       ret default_val) w1 = (Ret default_val, w2))
        by reflexivity.
      rewrite (bind_eq_ret _ _ _ _ _ Hwarn).
      assert (Hg2 : ConfigParser.get (_config w2) section key = Ret v)
        by exact Hg.
      rewrite (bind_eq_ret _ _ _ _ _
                 (store_if_present w2 section key v _ Hg2)).
      exists w2. split; [reflexivity | repeat split].
Qed.

End ReadFound.

Section TypedFound.
Import Text ConfigParser.

(** X3. When [get] on the reloaded parser returns [v] for the key,
    [read_bool] gives [True] when [v.upper()] is [TRUE], [False] when it
    is [FALSE] and the default otherwise; in every case it writes nothing
    and leaves in memory the reloaded parser. *)
Theorem read_bool_found (w w1 : world) (section key v : string)
    (default_val : option bool) (required : bool) :
  Configure._reload "UTF-8" true w = (Ret tt, w1) ->
  truthy section = true -> truthy key = true ->
  ConfigParser.get (_config w1) section key = Ret v ->
  (upper v = "TRUE" ->
   fst (Configure.read_bool section key default_val required w)
   = Ret (Some true)) /\
  (upper v = "FALSE" ->
   fst (Configure.read_bool section key default_val required w)
   = Ret (Some false)) /\
  (upper v <> "TRUE" -> upper v <> "FALSE" ->
   fst (Configure.read_bool section key default_val required w)
   = Ret default_val) /\
  fs (snd (Configure.read_bool section key default_val required w)) = fs w /\
  _config (snd (Configure.read_bool section key default_val required w))
  = _config w1.
Proof.
  intros R Hs Hk Hg.
  destruct (read_bool_found_run w w1 section key v default_val required
              R Hs Hk Hg) as (w2 & Hrun & Hc & _ & Hf & _).
  rewrite Hrun. simpl fst. simpl snd.
  repeat split.
  - intros ->. reflexivity.
  - intros ->. reflexivity.
  - intros H1 H2. apply String.eqb_neq in H1, H2. rewrite H1, H2. reflexivity.
  - rewrite Hf. exact (reload_returns_disk _ _ _ R).
  - exact Hc.
Qed.

Lemma read_bool_found_witness :
  fst (Configure.read_bool "f" "a" None true flags_world) = Ret (Some true) /\
  fst (Configure.read_bool "f" "b" None true flags_world) = Ret (Some false) /\
  fst (Configure.read_bool "f" "c" (Some false) true flags_world)
  = Ret (Some false).
Proof.
  assert (R : Configure._reload "UTF-8" true flags_world
              = (Ret tt, snd (Configure._reload "UTF-8" true flags_world)))
    by (vm_compute; reflexivity).
  split; [| split].
  - refine (proj1 (read_bool_found flags_world _ "f" "a" "true" None true
                     R eq_refl eq_refl _) _);
      vm_compute; reflexivity.
  - refine (proj1 (proj2 (read_bool_found flags_world _ "f" "b" "False" None
                            true R eq_refl eq_refl _)) _);
      vm_compute; reflexivity.
  - refine (proj1 (proj2 (proj2 (read_bool_found flags_world _ "f" "c"
                                   "maybe" (Some false) true R eq_refl
                                   eq_refl _))) _ _);
      try (vm_compute; reflexivity); discriminate.
Defined.

End TypedFound.

Section ParsedFound.
Import Text ConfigParser.
Context {F J : Type}.
Variable float_of_str : string -> option F.
Variable str_float : F -> string.
Variable json_loads : string -> result J.

Lemma warned_default {A} (ty section key : string) (value : option string)
    (d : option A) (w : world) :
  (Configure.type_warning ty section key value ;; ret d) w
  = (Ret d, snd (Configure.type_warning ty section key value w)).
Proof. reflexivity. Qed.

Lemma read_int_found_run (w w1 : world) (section key v : string)
    (default_val : option Z) (required : bool) :
  Configure._reload "UTF-8" true w = (Ret tt, w1) ->
  truthy section = true -> truthy key = true ->
  ConfigParser.get (_config w1) section key = Ret v ->
  exists w2,
    Configure.read_int section key default_val required w
    = (Ret (match parse_int v with Some n => Some n | None => default_val end),
       w2) /\
    same_store w1 w2.
Proof.
  intros R Hs Hk Hg. unfold Configure.read_int.
  rewrite (bind_eq_ret _ _ _ _ _
             (read_conf_found w w1 section key v _ required R Hs Hk Hg)).
  destruct (parse_int v) as [n|].
  - rewrite bind_ret_l.
    rewrite (bind_eq_ret _ _ _ _ _ (store_if_present w1 section key v _ Hg)).
    exists w1. split; [reflexivity | repeat split].
  - rewrite (bind_eq_ret _ _ _ _ _ (warned_default _ _ _ _ _ w1)).
    set (w2 := snd _).
    assert (Hg2 : ConfigParser.get (_config w2) section key = Ret v)
      by exact Hg.
    rewrite (bind_eq_ret _ _ _ _ _ (store_if_present w2 section key v _ Hg2)).
    exists w2. split; [reflexivity | repeat split].
Qed.

Lemma read_float_found_run (w w1 : world) (section key v : string)
    (default_val : option F) (required : bool) :
  Configure._reload "UTF-8" true w = (Ret tt, w1) ->
  truthy section = true -> truthy key = true ->
  ConfigParser.get (_config w1) section key = Ret v ->
  exists w2,
    Configure.read_float float_of_str str_float section key default_val
      required w
    = (Ret (match float_of_str v with Some x => Some x | None => default_val end),
       w2) /\
    same_store w1 w2.
Proof.
  intros R Hs Hk Hg. unfold Configure.read_float.
  rewrite (bind_eq_ret _ _ _ _ _
             (read_conf_found w w1 section key v _ required R Hs Hk Hg)).
  destruct (float_of_str v) as [x|].
  - rewrite bind_ret_l.
    rewrite (bind_eq_ret _ _ _ _ _ (store_if_present w1 section key v _ Hg)).
    exists w1. split; [reflexivity | repeat split].
  - rewrite (bind_eq_ret _ _ _ _ _ (warned_default _ _ _ _ _ w1)).
    set (w2 := snd _).
    assert (Hg2 : ConfigParser.get (_config w2) section key = Ret v)
      by exact Hg.
    rewrite (bind_eq_ret _ _ _ _ _ (store_if_present w2 section key v _ Hg2)).
    exists w2. split; [reflexivity | repeat split].
Qed.

(** X4. When [get] on the reloaded parser returns [v] for the key,
    [read_int] and [read_float] return the number [v] parses to, or the
    typed default when it does not parse, and leave the disk as it
    was. *)
Theorem read_number_found (w w1 : world) (section key v : string)
    (di : option Z) (df : option F) (required : bool) :
  Configure._reload "UTF-8" true w = (Ret tt, w1) ->
  truthy section = true -> truthy key = true ->
  ConfigParser.get (_config w1) section key = Ret v ->
  fst (Configure.read_int section key di required w)
  = Ret (match parse_int v with Some n => Some n | None => di end) /\
  fs (snd (Configure.read_int section key di required w)) = fs w /\
  fst (Configure.read_float float_of_str str_float section key df required w)
  = Ret (match float_of_str v with Some x => Some x | None => df end) /\
  fs (snd (Configure.read_float float_of_str str_float section key df
             required w)) = fs w.
Proof.
  intros R Hs Hk Hg.
  destruct (read_int_found_run w w1 section key v di required R Hs Hk Hg)
    as (w2 & Hi & _ & _ & Hfi & _).
  destruct (read_float_found_run w w1 section key v df required R Hs Hk Hg)
    as (w3 & Hf & _ & _ & Hff & _).
  rewrite Hi, Hf. simpl fst. simpl snd.
  pose proof (reload_returns_disk _ _ _ R) as Hd.
  repeat split; congruence.
Qed.

(** X5. When [get] on the reloaded parser returns [v] for the key,
    [read_json] returns the value [json.loads(v)] returns, returns [None]
    when [json.loads(v)] raises [JSONDecodeError], and lets every other
    exception of [json.loads] reach the caller; the disk is as it was. *)
Theorem read_json_found (w w1 : world) (section key v : string) :
  Configure._reload "UTF-8" true w = (Ret tt, w1) ->
  truthy section = true -> truthy key = true ->
  ConfigParser.get (_config w1) section key = Ret v ->
  fst (Configure.read_json json_loads section key w)
  = match json_loads v with
    | Ret j => Ret (Some j)
    | Raise JSONDecodeError => Ret None
    | Raise e => Raise e
    | Exit n => Exit n
    end /\
  fs (snd (Configure.read_json json_loads section key w)) = fs w.
Proof.
  intros R Hs Hk Hg. unfold Configure.read_json.
  rewrite (bind_eq_ret _ _ _ _ _
             (read_conf_found w w1 section key v None true R Hs Hk Hg)).
  pose proof (reload_returns_disk _ _ _ R) as Hd.
  unfold try_except, bind, lift.
  destruct (json_loads v) as [j | e | n]; simpl; [split; auto | | split; auto].
  destruct e; simpl; split; auto.
Qed.

(** X6. When [get] on the reloaded parser raises an exception other than
    [NoSectionError] and [NoOptionError] (a stored value with a stray
    percent sign, a reference to an option that is missing), every reader
    lets it reach the caller, whatever the default is, and writes
    nothing. *)
Theorem lookup_error_escapes (w w1 : world) (section key : string) (e : exn)
    (ds : option string) (db : option bool) (di : option Z) (df : option F)
    (required : bool) :
  Configure._reload "UTF-8" true w = (Ret tt, w1) ->
  truthy section = true -> truthy key = true ->
  ConfigParser.get (_config w1) section key = Raise e ->
  Configure.absent e = false ->
  Configure.read section key ds required w = (Raise e, w1) /\
  Configure.read_bool section key db required w = (Raise e, w1) /\
  Configure.read_int section key di required w = (Raise e, w1) /\
  Configure.read_float float_of_str str_float section key df required w
  = (Raise e, w1) /\
  Configure.read_json json_loads section key w = (Raise e, w1) /\
  fs w1 = fs w.
Proof.
  intros R Hs Hk Hg He.
  assert (Hconf : forall d req,
            Configure._read_conf section key d req w = (Raise e, w1)).
  { intros d req. unfold Configure._read_conf.
    rewrite (bind_eq_ret _ _ _ _ _ R), (names_test _ _ Hs Hk).
    unfold bind, try_except, lift. rewrite Hg.
    destruct e; try discriminate He; reflexivity. }
  unfold Configure.read, Configure.read_bool, Configure.read_int,
    Configure.read_float, Configure.read_json.
  rewrite !(bind_eq_raise _ _ _ _ _ (Hconf _ _)).
  repeat split. exact (reload_returns_disk _ _ _ R).
Qed.

End ParsedFound.

Lemma reload_sample_world :
  Configure._reload "UTF-8" true sample_world = (Ret tt, reloaded sample_world).
Proof. exact (reload_in_sync sample_world sample_world_in_sync). Qed.

Lemma flags_world_in_sync : in_sync flags_world.
Proof.
  eexists. split; [reflexivity |]. vm_compute. reflexivity.
Qed.

Lemma reload_flags_world :
  Configure._reload "UTF-8" true flags_world = (Ret tt, reloaded flags_world).
Proof. exact (reload_in_sync flags_world flags_world_in_sync). Qed.

Lemma read_number_found_witness :
  fst (Configure.read_int "sec" "b" (Some 7%Z) true sample_world)
  = Ret (Some 2%Z) /\
  fst (Configure.read_int "f" "c" (Some 7%Z) true flags_world)
  = Ret (Some 7%Z).
Proof.
  assert (G1 : ConfigParser.get (_config (reloaded sample_world)) "sec" "b"
               = Ret "2") by (vm_compute; reflexivity).
  assert (G2 : ConfigParser.get (_config (reloaded flags_world)) "f" "c"
               = Ret "maybe") by (vm_compute; reflexivity).
  split.
  - exact (proj1 (read_number_found (F:=Z) (fun _ => None) (fun _ => "0")
                    sample_world (reloaded sample_world) "sec" "b" "2"
                    (Some 7%Z) None true reload_sample_world
                    eq_refl eq_refl G1)).
  - exact (proj1 (read_number_found (F:=Z) (fun _ => None) (fun _ => "0")
                    flags_world (reloaded flags_world) "f" "c" "maybe"
                    (Some 7%Z) None true reload_flags_world
                    eq_refl eq_refl G2)).
Defined.

Lemma read_json_found_witness :
  fst (Configure.read_json sample_loads "sec" "b" sample_world)
  = Ret (Some 2%Z) /\
  fst (Configure.read_json sample_loads "f" "c" flags_world) = Ret None /\
  fst (Configure.read_json sample_loads "f" "a" flags_world)
  = Raise RecursionError.
Proof.
  assert (G1 : ConfigParser.get (_config (reloaded sample_world)) "sec" "b"
               = Ret "2") by (vm_compute; reflexivity).
  assert (G2 : ConfigParser.get (_config (reloaded flags_world)) "f" "c"
               = Ret "maybe") by (vm_compute; reflexivity).
  assert (G3 : ConfigParser.get (_config (reloaded flags_world)) "f" "a"
               = Ret "true") by (vm_compute; reflexivity).
  split; [| split].
  - exact (proj1 (read_json_found sample_loads
                    sample_world (reloaded sample_world) "sec" "b" "2"
                    reload_sample_world eq_refl eq_refl G1)).
  - exact (proj1 (read_json_found sample_loads
                    flags_world (reloaded flags_world) "f" "c" "maybe"
                    reload_flags_world eq_refl eq_refl G2)).
  - exact (proj1 (read_json_found sample_loads
                    flags_world (reloaded flags_world) "f" "a" "true"
                    reload_flags_world eq_refl eq_refl G3)).
Defined.

Lemma lookup_error_escapes_witness :
  fst (Configure.read "s" "rate" (Some "1") false percent_world)
  = Raise InterpolationSyntaxError /\
  fst (Configure.read_int "s" "rate" (Some 1%Z) false percent_world)
  = Raise InterpolationSyntaxError.
Proof.
  assert (R : Configure._reload "UTF-8" true percent_world
              = (Ret tt, snd (Configure._reload "UTF-8" true percent_world)))
    by (vm_compute; reflexivity).
  assert (G : ConfigParser.get
                (_config (snd (Configure._reload "UTF-8" true percent_world)))
                "s" "rate" = Raise InterpolationSyntaxError)
    by (vm_compute; reflexivity).
  destruct (lookup_error_escapes (F:=Z) (J:=Z) (fun _ => None) (fun _ => "0")
              sample_loads percent_world _ "s" "rate"
              InterpolationSyntaxError (Some "1") None (Some 1%Z) None false
              R eq_refl eq_refl G eq_refl) as (H1 & _ & H3 & _).
  rewrite H1, H3. split; reflexivity.
Defined.

(** ** Further properties: integers and their text *)

Section IntText.
Import Text ConfigParser.

Lemma digits_val_uint d : forall acc b,
  d <> Decimal.Nil \/ b = true ->
  digits_val acc b (NilEmpty.string_of_uint d) = Some (uint_val d acc).
Proof.
  induction d; intros acc b Hb;
    try (simpl; rewrite IHd by (right; reflexivity); reflexivity).
  destruct Hb as [H | ->]; [contradiction | reflexivity].
Qed.

Lemma uint_val_pos d : forall p,
  uint_val d (Zpos p) = Zpos (Pos.of_uint_acc d p).
Proof.
  induction d; intros p; simpl; [reflexivity | ..];
    match goal with
    | |- uint_val _ ?x = Zpos (Pos.of_uint_acc _ ?y) =>
        replace x with (Zpos y) by lia; apply IHd
    end.
Qed.

Lemma uint_val_zero d : uint_val d 0 = Z.of_N (Pos.of_uint d).
Proof.
  induction d; simpl; try reflexivity; try exact IHd;
    apply (uint_val_pos d).
Qed.

Lemma digits_val_to_uint p :
  digits_val 0 false (NilEmpty.string_of_uint (Pos.to_uint p)) = Some (Zpos p).
Proof.
  rewrite digits_val_uint by (left; apply DecimalPos.Unsigned.to_uint_nonnil).
  rewrite uint_val_zero, DecimalPos.Unsigned.of_to. reflexivity.
Qed.

Lemma uint_string_digits d : all_chars is_digit (NilEmpty.string_of_uint d) = true.
Proof. induction d; simpl; auto. Qed.

Lemma uint_string_head p :
  exists c r, NilEmpty.string_of_uint (Pos.to_uint p) = String c r /\
              is_digit c = true.
Proof.
  pose proof (DecimalPos.Unsigned.to_uint_nonnil p) as Hn.
  pose proof (uint_string_digits (Pos.to_uint p)) as Hd.
  destruct (Pos.to_uint p); try contradiction; simpl in *;
    eexists; eexists; (split; [reflexivity | reflexivity]).
Qed.

Lemma nilzero_string p :
  NilZero.string_of_uint (Pos.to_uint p)
  = NilEmpty.string_of_uint (Pos.to_uint p).
Proof.
  pose proof (DecimalPos.Unsigned.to_uint_nonnil p) as Hn.
  destruct (Pos.to_uint p); [contradiction | reflexivity ..].
Qed.

End IntText.

Section IntRoundTrip.
Import Text ConfigParser.

Lemma digit_not_space c : is_digit c = true -> is_space c = false.
Proof.
  unfold is_digit, is_space. intros H.
  apply andb_true_iff in H. destruct H as [H1 H2].
  apply Nat.leb_le in H1, H2.
  repeat (apply orb_false_iff; split).
  - apply andb_false_iff. right. apply Nat.leb_gt. lia.
  - apply andb_false_iff. right. apply Nat.leb_gt. lia.
  - apply Nat.eqb_neq. lia.
  - apply Nat.eqb_neq. lia.
Qed.

Lemma digit_or_minus_not_space c : digit_or_minus c = true -> is_space c = false.
Proof.
  unfold digit_or_minus. intros H. apply orb_true_iff in H.
  destruct H as [H | H]; [apply digit_not_space, H |].
  unfold eqc in H. apply Ascii.eqb_eq in H. subst c. reflexivity.
Qed.

Lemma all_chars_impl (p q : ascii -> bool) s :
  (forall c, p c = true -> q c = true) ->
  all_chars p s = true -> all_chars q s = true.
Proof.
  intros Hpq. induction s as [|c s IH]; simpl; [reflexivity |].
  intros H. apply andb_true_iff in H. destruct H as [Hc Hs].
  rewrite (Hpq c Hc), (IH Hs). reflexivity.
Qed.

Lemma all_chars_lstrip p s :
  (forall c, p c = true -> is_space c = false) ->
  all_chars p s = true -> lstrip s = s.
Proof.
  intros Hp. destruct s as [|c s]; simpl; [reflexivity |].
  intros H. apply andb_true_iff in H. destruct H as [Hc _].
  rewrite (Hp c Hc). reflexivity.
Qed.

Lemma all_chars_rstrip p s :
  (forall c, p c = true -> is_space c = false) ->
  all_chars p s = true -> rstrip s = s.
Proof.
  intros Hp. induction s as [|c s IH]; simpl; [reflexivity |].
  intros H. apply andb_true_iff in H. destruct H as [Hc Hs].
  rewrite (IH Hs), (Hp c Hc). destruct s; reflexivity.
Qed.

Lemma all_chars_has_char p x s :
  p x = false -> all_chars p s = true -> has_char x s = false.
Proof.
  intros Hx. induction s as [|c s IH]; simpl; [reflexivity |].
  intros H. apply andb_true_iff in H. destruct H as [Hc Hs].
  rewrite (IH Hs), orb_false_r. unfold eqc.
  destruct (Ascii.eqb_spec c x) as [-> | _]; [congruence | reflexivity].
Qed.

Lemma digit_or_minus_ascii c : digit_or_minus c = true -> is_ascii c = true.
Proof.
  unfold digit_or_minus, is_digit, is_ascii. intros H.
  apply orb_true_iff in H. destruct H as [H | H].
  - apply andb_true_iff in H. destruct H as [_ H2].
    apply Nat.leb_le in H2. apply Nat.ltb_lt. lia.
  - unfold eqc in H. apply Ascii.eqb_eq in H. subst c. reflexivity.
Qed.

Lemma str_int_chars z : all_chars digit_or_minus (str_int z) = true.
Proof.
  assert (Hd : forall d, all_chars digit_or_minus (NilEmpty.string_of_uint d)
                         = true).
  { intros d. apply (all_chars_impl is_digit); [| apply uint_string_digits].
    intros c Hc. unfold digit_or_minus. rewrite Hc. reflexivity. }
  unfold str_int. destruct z as [|p|p]; simpl.
  - reflexivity.
  - rewrite nilzero_string. apply Hd.
  - rewrite nilzero_string. apply Hd.
Qed.

Lemma str_int_strip z : strip (str_int z) = str_int z.
Proof.
  unfold strip.
  rewrite (all_chars_lstrip _ _ digit_or_minus_not_space (str_int_chars z)).
  apply (all_chars_rstrip _ _ digit_or_minus_not_space (str_int_chars z)).
Qed.

Lemma str_int_clean z : clean_value (str_int z).
Proof.
  unfold clean_value, clean_valueb.
  rewrite (all_chars_has_char digit_or_minus nl _ eq_refl (str_int_chars z)).
  rewrite (all_chars_has_char digit_or_minus cr _ eq_refl (str_int_chars z)).
  rewrite (all_chars_has_char digit_or_minus "%"%char _ eq_refl
             (str_int_chars z)).
  rewrite (all_chars_lstrip _ _ digit_or_minus_not_space (str_int_chars z)).
  rewrite (all_chars_rstrip _ _ digit_or_minus_not_space (str_int_chars z)).
  rewrite String.eqb_refl.
  rewrite (all_chars_impl digit_or_minus is_ascii _ digit_or_minus_ascii
             (str_int_chars z)).
  reflexivity.
Qed.

Lemma int_space_is_space c : is_space c = false -> is_int_space c = false.
Proof. unfold is_int_space. intros ->. reflexivity. Qed.

Lemma all_chars_lstrip_int p s :
  (forall c, p c = true -> is_space c = false) ->
  all_chars p s = true -> lstrip_int s = s.
Proof.
  intros Hp. destruct s as [|c s]; simpl; [reflexivity |].
  intros H. apply andb_true_iff in H. destruct H as [Hc _].
  rewrite (int_space_is_space c (Hp c Hc)). reflexivity.
Qed.

Lemma all_chars_rstrip_int p s :
  (forall c, p c = true -> is_space c = false) ->
  all_chars p s = true -> rstrip_int s = s.
Proof.
  intros Hp. induction s as [|c s IH]; simpl; [reflexivity |].
  intros H. apply andb_true_iff in H. destruct H as [Hc Hs].
  rewrite (IH Hs), (int_space_is_space c (Hp c Hc)). destruct s; reflexivity.
Qed.

Lemma str_int_strip_int z : rstrip_int (lstrip_int (str_int z)) = str_int z.
Proof.
  rewrite (all_chars_lstrip_int _ _ digit_or_minus_not_space (str_int_chars z)).
  apply (all_chars_rstrip_int _ _ digit_or_minus_not_space (str_int_chars z)).
Qed.

Lemma count_digits_length s :
  (count_digits s <= N.of_nat (String.length s))%N.
Proof.
  induction s as [|c s IH]; [reflexivity |].
  cbn [count_digits String.length]. destruct (is_digit c); lia.
Qed.

Lemma parse_int_str_int (z : Z) :
  String.length (str_int z) <= 640 -> parse_int (str_int z) = Some z.
Proof.
  intros Hlen. unfold parse_int. rewrite str_int_strip_int.
  assert (Hlim : (int_max_str_digits <? count_digits (str_int z))%N = false).
  { apply N.ltb_ge. pose proof (count_digits_length (str_int z)) as H.
    unfold int_max_str_digits. lia. }
  revert Hlim.
  unfold str_int. destruct z as [|p|p]; [reflexivity | |]; intros Hlim.
  - simpl Z.to_int in *. simpl NilZero.string_of_int in *.
    rewrite nilzero_string in *.
    destruct (uint_string_head p) as (c & r & E & Hc).
    pose proof (digits_val_to_uint p) as Hv. rewrite E in *. rewrite Hlim.
    assert (H1 : eqc c "-"%char = false).
    { unfold eqc. destruct (Ascii.eqb_spec c "-"%char) as [-> | _];
        [discriminate Hc | reflexivity]. }
    assert (H2 : eqc c "+"%char = false).
    { unfold eqc. destruct (Ascii.eqb_spec c "+"%char) as [-> | _];
        [discriminate Hc | reflexivity]. }
    rewrite H1, H2. exact Hv.
  - simpl Z.to_int in *. simpl NilZero.string_of_int in *.
    rewrite nilzero_string in *. rewrite Hlim.
    change (eqc "-"%char "-"%char) with true. cbv iota.
    rewrite digits_val_to_uint. reflexivity.
Qed.

End IntRoundTrip.

(** ** Further properties: defaults are persisted *)

Section DefaultsPersisted.
Import Text ConfigParser.

Lemma in_sync_reloaded w : in_sync w -> in_sync (reloaded w).
Proof. apply in_sync_same. repeat split. Qed.

(** On a clean store in sync with its file, the tail of the readers
    writes the resolved value of an absent key. *)
Lemma store_default_clean (w0 : world) (section key v : string) :
  in_sync w0 -> clean_parser (_config w0) ->
  writable w0 (configure_path w0) = true ->
  clean_section section -> clean_key (lower key) -> clean_value v ->
  absent_from (_config w0) section key ->
  exists w1,
    Configure.store_if_absent section key (Some v) w0 = (Ret tt, w1) /\
    in_sync w1 /\ clean_parser (_config w1) /\
    configure_path w1 = configure_path w0 /\
    ConfigParser.get (_config w1) section key = Ret v.
Proof.
  intros Hsync Hc Hwr Hs Hk Hv (e & Hget & He).
  destruct (write_clean w0 section key v Hsync Hc Hwr Hs Hk Hv)
    as (w1 & Hw & Hsync1 & Hc1 & Hp1 & Hg1).
  exists w1.
  split; [| split; [exact Hsync1 | split; [exact Hc1 | split;
                                             [exact Hp1 | exact Hg1]]]].
  unfold Configure.store_if_absent, try_except, bind, lift, ret.
  rewrite Hget, He. exact Hw.
Qed.

(** [_read_conf] on an absent key of a store in sync, with a default. *)
Lemma read_conf_default (w : world) (section key d : string) (required : bool) :
  in_sync w -> truthy section = true -> truthy key = true ->
  absent_from (_config w) section key ->
  exists w0,
    Configure._read_conf section key (Some d) required w = (Ret (Some d), w0) /\
    same_store w w0.
Proof.
  intros Hsync Hs Hk Habs.
  destruct (read_conf_absent w (reloaded w) section key (Some d) required
              (reload_in_sync w Hsync) Habs) as (w0 & Hconf & Hsame).
  rewrite (names_test _ _ Hs Hk) in Hconf.
  exists w0. split; [exact Hconf |].
  destruct Hsame as (H1 & H2 & H3 & H4 & H5). repeat split; assumption.
Qed.

Lemma same_store_writable (w w0 : world) :
  same_store w w0 -> writable w (configure_path w) = true ->
  writable w0 (configure_path w0) = true.
Proof. intros (_ & Hp & _ & _ & Hwb) H. rewrite Hwb, Hp. exact H. Qed.

(** X7. On a clean store in sync with its file, which can be opened for
    writing, [read] of an absent key with a clean default returns the
    default, whatever [required] is, and persists it: the next [read]
    with no default returns it. *)
Theorem read_default_persisted (w : world) (section key d : string)
    (required : bool) :
  in_sync w -> clean_parser (_config w) ->
  writable w (configure_path w) = true ->
  clean_section section -> clean_key (lower key) -> clean_value d ->
  absent_from (_config w) section key ->
  exists w1 w2,
    Configure.read section key (Some d) required w = (Ret (Some d), w1) /\
    Configure.read section key None true w1 = (Ret (Some d), w2).
Proof.
  intros Hsync Hc Hwr Hs Hk Hd Habs.
  destruct (clean_names_truthy section key Hs Hk) as [Hts Htk].
  destruct (read_conf_default w section key d required Hsync Hts Htk Habs)
    as (w0 & Hconf & Hsame).
  assert (Hsync0 : in_sync w0) by (eapply in_sync_same; eassumption).
  assert (Hc0 : clean_parser (_config w0)) by (rewrite (proj1 Hsame); exact Hc).
  assert (Habs0 : absent_from (_config w0) section key)
    by (rewrite (proj1 Hsame); exact Habs).
  pose proof (same_store_writable w w0 Hsame Hwr) as Hwr0.
  destruct (store_default_clean w0 section key d Hsync0 Hc0 Hwr0 Hs Hk Hd
              Habs0)
    as (w1 & Hstore & Hsync1 & _ & _ & Hg1).
  exists w1, (reloaded w1). split.
  - unfold Configure.read.
    rewrite (bind_eq_ret _ _ _ _ _ Hconf), (bind_eq_ret _ _ _ _ _ Hstore).
    reflexivity.
  - apply read_present; assumption.
Qed.

Lemma read_default_persisted_witness :
  exists w1 w2,
    Configure.read "net" "Host" (Some "localhost") false sample_world
    = (Ret (Some "localhost"), w1) /\
    Configure.read "net" "Host" None true w1 = (Ret (Some "localhost"), w2).
Proof.
  apply (read_default_persisted sample_world "net" "Host" "localhost" false).
  - exact sample_world_in_sync.
  - exact sample_parser_clean.
  - reflexivity.
  - reflexivity.
  - reflexivity.
  - reflexivity.
  - exists NoSectionError. split; vm_compute; reflexivity.
Defined.

End DefaultsPersisted.

Section TypedDefaultsPersisted.
Import Text ConfigParser.

Lemma str_bool_clean b : clean_value (str_bool b).
Proof. destruct b; reflexivity. Qed.

(** X8. On a clean store in sync with its file, which can be opened for
    writing, [read_bool] of an absent key with a boolean default returns
    that boolean and persists its text: the next [read_bool], given no
    default, returns the same boolean. *)
Theorem read_bool_default_persisted (w : world) (section key : string)
    (b required : bool) :
  in_sync w -> clean_parser (_config w) ->
  writable w (configure_path w) = true ->
  clean_section section -> clean_key (lower key) ->
  absent_from (_config w) section key ->
  exists w1 w2,
    Configure.read_bool section key (Some b) required w = (Ret (Some b), w1) /\
    Configure.read_bool section key None true w1 = (Ret (Some b), w2).
Proof.
  intros Hsync Hc Hwr Hs Hk Habs.
  destruct (clean_names_truthy section key Hs Hk) as [Hts Htk].
  destruct (read_conf_default w section key (str_bool b) required
              Hsync Hts Htk Habs) as (w0 & Hconf & Hsame).
  assert (Hsync0 : in_sync w0) by (eapply in_sync_same; eassumption).
  assert (Hc0 : clean_parser (_config w0)) by (rewrite (proj1 Hsame); exact Hc).
  assert (Habs0 : absent_from (_config w0) section key)
    by (rewrite (proj1 Hsame); exact Habs).
  pose proof (same_store_writable w w0 Hsame Hwr) as Hwr0.
  destruct (store_default_clean w0 section key (str_bool b) Hsync0 Hc0 Hwr0
              Hs Hk
              (str_bool_clean b) Habs0)
    as (w1 & Hstore & Hsync1 & _ & _ & Hg1).
  destruct (read_bool_found_run w1 (reloaded w1) section key (str_bool b)
              None true (reload_in_sync w1 Hsync1) Hts Htk Hg1)
    as (w2 & Hrun & _).
  exists w1, w2. split.
  - unfold Configure.read_bool.
    rewrite (bind_eq_ret _ _ _ _ _ Hconf).
    assert (Hval : (if String.eqb (upper (str_bool b)) "TRUE"
                       || String.eqb (upper (str_bool b)) "FALSE"
                    then ret (Some (String.eqb (upper (str_bool b)) "TRUE"))
                    else Configure.type_warning "bool" section key
                           (Some (str_bool b)) ;; ret (Some b)) w0
                   = (Ret (Some b), w0))
      by (destruct b; reflexivity).
    rewrite (bind_eq_ret _ _ _ _ _ Hval).
    rewrite (bind_eq_ret _ _ _ _ _ Hstore). reflexivity.
  - rewrite Hrun. destruct b; reflexivity.
Qed.

Lemma read_bool_default_persisted_witness :
  exists w1 w2,
    Configure.read_bool "net" "Debug" (Some false) true sample_world
    = (Ret (Some false), w1) /\
    Configure.read_bool "net" "Debug" None true w1 = (Ret (Some false), w2).
Proof.
  apply (read_bool_default_persisted sample_world "net" "Debug" false true).
  - exact sample_world_in_sync.
  - exact sample_parser_clean.
  - reflexivity.
  - reflexivity.
  - reflexivity.
  - exists NoSectionError. split; vm_compute; reflexivity.
Defined.

(** X9. On a clean store in sync with its file, which can be opened for
    writing, [read_int] of an absent key with an integer default whose
    decimal text has at most 640 characters (beyond them [str] and [int]
    may refuse the integer, according to the digit limit of the
    interpreter, which cannot be set lower) returns that integer and
    persists its decimal text: the next [read_int], given no default,
    returns the same integer. *)
Theorem read_int_any_default_persisted (w : world) (section key : string)
    (n : Z) (required : bool) :
  in_sync w -> clean_parser (_config w) ->
  writable w (configure_path w) = true ->
  String.length (str_int n) <= 640 ->
  clean_section section -> clean_key (lower key) ->
  absent_from (_config w) section key ->
  exists w1 w2,
    Configure.read_int section key (Some n) required w = (Ret (Some n), w1) /\
    Configure.read_int section key None true w1 = (Ret (Some n), w2).
Proof.
  intros Hsync Hc Hwr Hlen Hs Hk Habs.
  destruct (clean_names_truthy section key Hs Hk) as [Hts Htk].
  destruct (read_conf_default w section key (str_int n) required
              Hsync Hts Htk Habs) as (w0 & Hconf & Hsame).
  assert (Hsync0 : in_sync w0) by (eapply in_sync_same; eassumption).
  assert (Hc0 : clean_parser (_config w0)) by (rewrite (proj1 Hsame); exact Hc).
  assert (Habs0 : absent_from (_config w0) section key)
    by (rewrite (proj1 Hsame); exact Habs).
  pose proof (same_store_writable w w0 Hsame Hwr) as Hwr0.
  destruct (store_default_clean w0 section key (str_int n) Hsync0 Hc0 Hwr0
              Hs Hk
              (str_int_clean n) Habs0)
    as (w1 & Hstore & Hsync1 & _ & _ & Hg1).
  destruct (read_int_found_run w1 (reloaded w1) section key (str_int n)
              None true (reload_in_sync w1 Hsync1) Hts Htk Hg1)
    as (w2 & Hrun & _).
  exists w1, w2. split.
  - unfold Configure.read_int.
    rewrite (bind_eq_ret _ _ _ _ _ Hconf).
    rewrite (parse_int_str_int n Hlen), bind_ret_l.
    change (option_map str_int (Some n)) with (Some (str_int n)).
    rewrite (bind_eq_ret _ _ _ _ _ Hstore). reflexivity.
  - rewrite Hrun, (parse_int_str_int n Hlen). reflexivity.
Qed.

Lemma read_int_any_default_persisted_witness :
  exists w1 w2,
    Configure.read_int "net" "Offset" (Some (-1205)%Z) true sample_world
    = (Ret (Some (-1205)%Z), w1) /\
    Configure.read_int "net" "Offset" None true w1
    = (Ret (Some (-1205)%Z), w2).
Proof.
  apply (read_int_any_default_persisted sample_world "net" "Offset"
           (-1205)%Z true).
  - exact sample_world_in_sync.
  - exact sample_parser_clean.
  - reflexivity.
  - vm_compute. lia.
  - reflexivity.
  - reflexivity.
  - exists NoSectionError. split; vm_compute; reflexivity.
Defined.

End TypedDefaultsPersisted.

(** ** Further properties: empty names *)

Section EmptyNames.
Import Text ConfigParser.
Context {F J : Type}.
Variable float_of_str : string -> option F.
Variable str_float : F -> string.
Variable json_loads : string -> result J.

(** [_read_conf] with an empty name: the default is not looked at. *)
Lemma read_conf_empty_name (w w1 : world) (section key : string)
    (default_val : option string) (required : bool) :
  Configure._reload "UTF-8" true w = (Ret tt, w1) ->
  section = EmptyString \/ key = EmptyString ->
  exists w2,
    Configure._read_conf section key default_val required w = (Ret None, w2) /\
    same_store w1 w2.
Proof.
  intros R Hn. unfold Configure._read_conf.
  rewrite (bind_eq_ret _ _ _ _ _ R), (empty_name_test _ _ Hn).
  eexists. split; [reflexivity | repeat split].
Qed.

(** X10. With an empty section or key name, [read] returns [None] even
    when a default is given, writes nothing and leaves in memory the
    reloaded parser (the key being absent from it). *)
Theorem read_empty_name (w w1 : world) (section key : string)
    (default_val : option string) (required : bool) :
  Configure._reload "UTF-8" true w = (Ret tt, w1) ->
  section = EmptyString \/ key = EmptyString ->
  absent_from (_config w1) section key ->
  exists w',
    Configure.read section key default_val required w = (Ret None, w') /\
    fs w' = fs w /\ _config w' = _config w1.
Proof.
  intros R Hn Habs.
  destruct (read_conf_empty_name w w1 section key default_val required R Hn)
    as (w2 & Hconf & Hc & _ & Hf & _).
  exists w2. unfold Configure.read.
  rewrite (bind_eq_ret _ _ _ _ _ Hconf).
  rewrite (bind_eq_ret _ _ w2 w2 tt).
  - split; [reflexivity |]. split; [| exact Hc].
    rewrite Hf. exact (reload_returns_disk _ _ _ R).
  - apply store_nothing_if_absent. rewrite Hc. exact Habs.
Qed.

(** X11. With an empty section or key name, [read_int], [read_float] and
    [read_json] raise [TypeError] whatever the default is: [_read_conf]
    gives [None] and the conversion of [None] is not caught.  The disk
    is as it was. *)
Theorem typed_read_empty_name_raises (w w1 : world) (section key : string)
    (di : option Z) (df : option F) (required : bool) :
  Configure._reload "UTF-8" true w = (Ret tt, w1) ->
  section = EmptyString \/ key = EmptyString ->
  fst (Configure.read_int section key di required w) = Raise TypeError /\
  fst (Configure.read_float float_of_str str_float section key df required w)
  = Raise TypeError /\
  fst (Configure.read_json json_loads section key w) = Raise TypeError /\
  fs (snd (Configure.read_int section key di required w)) = fs w.
Proof.
  intros R Hn.
  pose proof (reload_returns_disk _ _ _ R) as Hd.
  unfold Configure.read_int, Configure.read_float, Configure.read_json.
  destruct (read_conf_empty_name w w1 section key
              (Some (match di with Some n => str_int n | None => "None" end))
              required R Hn) as (wi & Hi & _ & _ & Hfi & _).
  destruct (read_conf_empty_name w w1 section key
              (Some (match df with Some x => str_float x | None => "None" end))
              required R Hn) as (wf & Hf & _).
  destruct (read_conf_empty_name w w1 section key None true R Hn)
    as (wj & Hj & _).
  rewrite (bind_eq_ret _ _ _ _ _ Hi), (bind_eq_ret _ _ _ _ _ Hf),
    (bind_eq_ret _ _ _ _ _ Hj).
  repeat split. simpl. congruence.
Qed.

End EmptyNames.

Lemma read_empty_name_witness :
  exists w',
    Configure.read EmptyString "k" (Some "dflt") false sample_world
    = (Ret None, w') /\
    fs w' = fs sample_world /\ _config w' = sample_parser.
Proof.
  apply (read_empty_name sample_world
           (snd (Configure._reload "UTF-8" true sample_world))
           EmptyString "k" (Some "dflt") false).
  - vm_compute. reflexivity.
  - left. reflexivity.
  - exists NoSectionError. split; vm_compute; reflexivity.
Defined.

Lemma typed_read_empty_name_raises_witness :
  fst (Configure.read_int "sec" EmptyString (Some 5%Z) true sample_world)
  = Raise TypeError.
Proof.
  refine (proj1 (typed_read_empty_name_raises (F:=Z) (J:=Z) (fun _ => None)
                   (fun _ => "0") (fun _ => Raise JSONDecodeError) sample_world
                   (snd (Configure._reload "UTF-8" true sample_world))
                   "sec" EmptyString (Some 5%Z) None true _ _)).
  - vm_compute. reflexivity.
  - right. reflexivity.
Defined.

Section EmptyNameBool.
Import Text ConfigParser.

Lemma write_empty_name_in_sync (w : world) (section key value : string)
    (store : bool) :
  in_sync w -> section = EmptyString \/ key = EmptyString ->
  exists w', Configure.write section key value store w = (Exit 1%Z, w') /\
             fs w' = fs w.
Proof.
  intros Hsync Hn. unfold Configure.write.
  rewrite (bind_eq_ret _ _ _ _ _ (reload_in_sync w Hsync)).
  rewrite (empty_name_test _ _ Hn).
  eexists. split; reflexivity.
Qed.

(** X12. On a store in sync with its file, [read_bool] with an empty
    section or key name (absent from the store) and a boolean default
    ends the process with exit status 1, because it goes on to [write]
    the default under the empty name; with no default it returns [None].
    In both cases the disk is as it was. *)
Theorem read_bool_empty_name (w : world) (section key : string)
    (b required : bool) :
  in_sync w -> section = EmptyString \/ key = EmptyString ->
  absent_from (_config w) section key ->
  fst (Configure.read_bool section key (Some b) required w) = Exit 1%Z /\
  fs (snd (Configure.read_bool section key (Some b) required w)) = fs w /\
  fst (Configure.read_bool section key None required w) = Ret None /\
  fs (snd (Configure.read_bool section key None required w)) = fs w.
Proof.
  intros Hsync Hn Habs.
  assert (Hrun : forall d : option bool,
            exists w3,
              Configure.read_bool section key d required w
              = (do value_b <- ret d;
                 Configure.store_if_absent section key
                   (option_map str_bool value_b) ;;
                 ret value_b) w3 /\
              same_store w w3).
  { intros d.
    destruct (read_conf_empty_name w (reloaded w) section key
                (Some (match d with Some b0 => str_bool b0 | None => "None" end))
                required (reload_in_sync w Hsync) Hn)
      as (w2 & Hconf & Hc & Hp & Hf & Hi & Hwb).
    exists (snd (Configure.type_warning "bool" section key None w2)).
    split.
    - unfold Configure.read_bool. rewrite (bind_eq_ret _ _ _ _ _ Hconf).
      rewrite (bind_eq_ret _ _ _ _ _ (warned_default _ _ _ _ d w2)).
      reflexivity.
    - repeat split; assumption. }
  destruct (Hrun (Some b)) as (w3 & E3 & Hs3).
  destruct (Hrun None) as (w4 & E4 & Hs4).
  rewrite E3, E4, !bind_ret_l. clear E3 E4 Hrun.
  assert (Habs3 : absent_from (_config w3) section key)
    by (rewrite (proj1 Hs3); exact Habs).
  assert (Habs4 : absent_from (_config w4) section key)
    by (rewrite (proj1 Hs4); exact Habs).
  destruct (write_empty_name_in_sync w3 section key (str_bool b) true
              (in_sync_same _ _ Hs3 Hsync) Hn) as (w5 & Hw & Hf5).
  assert (Hst : Configure.store_if_absent section key (Some (str_bool b)) w3
                = (Exit 1%Z, w5)).
  { destruct Habs3 as (e & Hget & He).
    unfold Configure.store_if_absent, try_except, bind, lift, ret.
    rewrite Hget, He. exact Hw. }
  simpl option_map.
  rewrite (bind_eq_exit _ _ _ _ _ Hst).
  rewrite (bind_eq_ret _ _ _ _ _ (store_nothing_if_absent w4 section key Habs4)).
  destruct Hs3 as (_ & _ & Hf3 & _). destruct Hs4 as (_ & _ & Hf4 & _).
  simpl. repeat split; congruence.
Qed.

Lemma read_bool_empty_name_witness :
  fst (Configure.read_bool EmptyString "k" (Some true) true sample_world)
  = Exit 1%Z /\
  fst (Configure.read_bool EmptyString "k" None true sample_world) = Ret None.
Proof.
  destruct (read_bool_empty_name sample_world EmptyString "k" true true
              sample_world_in_sync (or_introl eq_refl))
    as (H1 & _ & H2 & _).
  - exists NoSectionError. split; vm_compute; reflexivity.
  - split; assumption.
Defined.

End EmptyNameBool.

(** ** Further properties: the prompt *)

Section Prompt.
Import Text ConfigParser.

Lemma contains_char_string (c : ascii) (s : string) :
  contains (String c EmptyString) s = has_char c s.
Proof.
  induction s as [|a s IH]; [reflexivity |].
  change (contains (String c EmptyString) (String a s))
    with (String.prefix (String c EmptyString) (String a s)
          || contains (String c EmptyString) s).
  rewrite IH. simpl. unfold eqc.
  destruct (Ascii.eqb_spec a c) as [-> | Hne].
  - destruct (ascii_dec c c); [| contradiction]. destruct s; reflexivity.
  - destruct (ascii_dec c a) as [-> | _]; [contradiction | reflexivity].
Qed.

(** X13. [YES_NO_VALIDATOR] accepts exactly the four one-character
    answers [Y], [y], [N] and [n]. *)
Theorem yes_no_validator_spec (s : string) :
  Configure.YES_NO_VALIDATOR s = true <->
  s = "Y" \/ s = "y" \/ s = "N" \/ s = "n".
Proof.
  unfold Configure.YES_NO_VALIDATOR. split.
  - intros H. apply andb_true_iff in H. destruct H as [Hlen Hin].
    destruct s as [|c [|c' s]]; try discriminate Hlen.
    rewrite contains_char_string in Hin. cbn [has_char] in Hin.
    unfold eqc in Hin.
    repeat (apply orb_true_iff in Hin; destruct Hin as [Hin | Hin];
            [apply Ascii.eqb_eq in Hin; subst c; tauto |]).
    discriminate Hin.
  - intros [-> | [-> | [-> | ->]]]; reflexivity.
Qed.

(** X14. When [_prompt] returns, the operator's lines were consumed up
    to the first one that ends the loop: every line before it made the
    loop ask again (an empty line when there is no default, a line that
    is not empty and that the validator refuses); the last line consumed
    is either empty, and the answer is the default, or not empty and
    accepted by the validator, and the answer is that line.  The
    question was shown once for each line consumed, and neither the disk
    nor the parser changed. *)
Theorem prompt_answer (prompt : string) (validator : string -> bool)
    (default : option string) (w w' : world) (a : string) :
  Configure._prompt prompt validator default w = (Ret a, w') ->
  exists skipped line,
    stdin w = skipped ++ line :: stdin w' /\
    Forall (asks_again validator default) skipped /\
    ends_with validator default line a /\
    trace w' = trace w ++ repeat (Input prompt) (S (length skipped)) /\
    fs w' = fs w /\ _config w' = _config w.
Proof.
  unfold Configure._prompt.
  destruct (Configure.prompt_loop prompt validator default (stdin w) (trace w))
    as [[r rest] tr] eqn:P.
  intros [= -> <-]. simpl.
  assert (H : forall ins tr0 rest tr,
            Configure.prompt_loop prompt validator default ins tr0
            = (Ret a, rest, tr) ->
            exists skipped line,
              ins = skipped ++ line :: rest /\
              Forall (asks_again validator default) skipped /\
              ends_with validator default line a /\
              tr = tr0 ++ repeat (Input prompt) (S (length skipped))).
  { clear. induction ins as [|i ins IH]; intros tr0 rest tr; simpl.
    - discriminate.
    - destruct (truthy i) eqn:Ti; simpl.
      + destruct (validator i) eqn:Vi.
        * intros [= -> <- <-]. exists [], a. unfold ends_with.
          rewrite Ti. repeat split; [constructor | exact Vi].
        * intros H. apply IH in H.
          destruct H as (skipped & line & -> & Hsk & Hend & ->).
          exists (i :: skipped), line. split; [reflexivity |].
          split; [constructor; [unfold asks_again; rewrite Ti; exact Vi
                               | exact Hsk] |].
          split; [exact Hend |]. rewrite <- app_assoc. reflexivity.
      + destruct default as [d|].
        * intros [= -> <- <-]. exists [], i. unfold ends_with.
          rewrite Ti. repeat split. constructor.
        * intros H. apply IH in H.
          destruct H as (skipped & line & -> & Hsk & Hend & ->).
          exists (i :: skipped), line. split; [reflexivity |].
          split; [constructor; [unfold asks_again; rewrite Ti; reflexivity
                               | exact Hsk] |].
          split; [exact Hend |]. rewrite <- app_assoc. reflexivity. }
  destruct (H _ _ _ _ P) as (skipped & line & Hu & Hsk & Hend & Ht).
  exists skipped, line. repeat split; assumption.
Qed.

Lemma prompt_answer_witness :
  exists skipped line,
    ["maybe"; "no"; "N"; "later"]
    = skipped ++ line
        :: stdin (snd (Configure._prompt "Create it? [Y/n]"
                         Configure.YES_NO_VALIDATOR (Some "y")
                         (console ["maybe"; "no"; "N"; "later"]))) /\
    Forall (asks_again Configure.YES_NO_VALIDATOR (Some "y")) skipped /\
    ends_with Configure.YES_NO_VALIDATOR (Some "y") line "N".
Proof.
  destruct (prompt_answer "Create it? [Y/n]" Configure.YES_NO_VALIDATOR
              (Some "y") (console ["maybe"; "no"; "N"; "later"])
              (snd (Configure._prompt "Create it? [Y/n]"
                      Configure.YES_NO_VALIDATOR (Some "y")
                      (console ["maybe"; "no"; "N"; "later"]))) "N")
    as (skipped & line & Hu & Hsk & Hend & _).
  - vm_compute. reflexivity.
  - exists skipped, line. repeat split; assumption.
Defined.

End Prompt.
